(** * WriteWell: the note / folder / tag store and its persistence adapter

    A shallow embedding of [contexts/NotesContext.tsx] (the [NotesProvider]
    store), [lib/storage.ts] (the localStorage adapter), the font-size
    handler of [components/Editor.tsx] and the theme initialiser of
    [contexts/ThemeContext.tsx].

    Modelling conventions.
    - A JavaScript string is a [string]: its characters stand for UTF-16
      code units below 256.
    - A JavaScript number that holds an integer (timestamps, font sizes) is
      a [Z].
    - [Date.now()] is an input: every call site receives the value it read.
    - React state is the record [Store].  A [useCallback] closure sees the
      state of the render that created it; the values it captures (its
      dependency array) are explicit arguments of the embedded function,
      while a functional updater [setX(prev => ...)] acts on the store it is
      applied to. *)

From Stdlib Require Import List String Ascii ZArith Lia Bool Sorted.
From Stdlib Require Import Decimal DecimalString DecimalZ DecimalN DecimalPos.
From Stdlib Require DecimalFacts.
Import ListNotations.

Local Open Scope string_scope.
Local Open Scope list_scope.
Local Open Scope Z_scope.

(** ** Data model ([types/index.ts]) *)

Module Note.
Record t : Type := make {
  id : string;
  title : string;
  content : string;
  folderId : option string;
  tags : list string;
  createdAt : Z;
  updatedAt : Z;
  fontSize : Z
}.
End Note.

Module Folder.
Record t : Type := make {
  id : string;
  name : string;
  parentId : option string;
  createdAt : Z
}.
End Folder.

Module Tag.
Record t : Type := make {
  id : string;
  name : string;
  color : option string
}.
End Tag.

(** [Partial<Note>]: every field may be absent ([None]).  A field that is
    present holds a value of its type; an explicit [undefined] is not
    modelled. *)
Module PartialNote.
Record t : Type := make {
  id : option string;
  title : option string;
  content : option string;
  folderId : option (option string);
  tags : option (list string);
  createdAt : option Z;
  updatedAt : option Z;
  fontSize : option Z
}.

Definition empty : t := make None None None None None None None None.
End PartialNote.

(** [Partial<Folder>]. *)
Module PartialFolder.
Record t : Type := make {
  id : option string;
  name : option string;
  parentId : option (option string);
  createdAt : option Z
}.

Definition empty : t := make None None None None.
End PartialFolder.

(** The five [useState] cells of [NotesProvider]. *)
Record Store : Type := mkStore {
  notes : list Note.t;
  folders : list Folder.t;
  tags : list Tag.t;
  selectedNoteId : option string;
  selectedFolderId : option string
}.

Definition emptyStore : Store := mkStore [] [] [] None None.

(** ** JavaScript primitives used by the store *)

(** [n.toString()] for an integral number: decimal digits, a leading minus
    sign for negatives, no leading zeros. *)
Definition toString (n : Z) : string := NilZero.string_of_int (Z.to_int n).

(** [a === b] on [string | null]. *)
Definition nullable_eqb (a b : option string) : bool :=
  match a, b with
  | Some x, Some y => String.eqb x y
  | None, None => true
  | _, _ => false
  end.

(** [c.toLowerCase()] on one code unit below 256: the letters A-Z and the
    Latin-1 capitals U+00C0-U+00DE (U+00D7, the multiplication sign, apart)
    move up by 32. *)
Definition lower_char (c : ascii) : ascii :=
  let n := N_of_ascii c in
  if ((65 <=? n) && (n <=? 90))%N
  then ascii_of_N (n + 32)
  else if ((192 <=? n) && (n <=? 222) && negb (n =? 215))%N
  then ascii_of_N (n + 32)
  else c.

Fixpoint toLowerCase (s : string) : string :=
  match s with
  | EmptyString => EmptyString
  | String c s' => String (lower_char c) (toLowerCase s')
  end.

(** A present field of a [Partial<_>] overrides, an absent one keeps. *)
Definition override {A : Type} (old : A) (upd : option A) : A :=
  match upd with
  | Some v => v
  | None => old
  end.

(** The object literals [{ fontSize }], [{ id }] and [{ id, createdAt }]. *)
Definition onlyFontSize (fontSize : Z) : PartialNote.t :=
  PartialNote.make None None None None None None None (Some fontSize).

Definition onlyId (id : string) : PartialNote.t :=
  PartialNote.make (Some id) None None None None None None None.

Definition onlyIdAndCreatedAt (id : string) (createdAt : Z) : PartialNote.t :=
  PartialNote.make (Some id) None None None None (Some createdAt) None None.

(** [{ ...note, ...updates }] *)
Definition spreadNote (note : Note.t) (updates : PartialNote.t) : Note.t :=
  {| Note.id := override (Note.id note) (PartialNote.id updates);
     Note.title := override (Note.title note) (PartialNote.title updates);
     Note.content := override (Note.content note) (PartialNote.content updates);
     Note.folderId := override (Note.folderId note) (PartialNote.folderId updates);
     Note.tags := override (Note.tags note) (PartialNote.tags updates);
     Note.createdAt := override (Note.createdAt note) (PartialNote.createdAt updates);
     Note.updatedAt := override (Note.updatedAt note) (PartialNote.updatedAt updates);
     Note.fontSize := override (Note.fontSize note) (PartialNote.fontSize updates) |}.

(** [{ ...folder, ...updates }] *)
Definition spreadFolder (folder : Folder.t) (updates : PartialFolder.t) : Folder.t :=
  {| Folder.id := override (Folder.id folder) (PartialFolder.id updates);
     Folder.name := override (Folder.name folder) (PartialFolder.name updates);
     Folder.parentId := override (Folder.parentId folder) (PartialFolder.parentId updates);
     Folder.createdAt := override (Folder.createdAt folder) (PartialFolder.createdAt updates) |}.

Definition withUpdatedAt (note : Note.t) (now : Z) : Note.t :=
  {| Note.id := Note.id note;
     Note.title := Note.title note;
     Note.content := Note.content note;
     Note.folderId := Note.folderId note;
     Note.tags := Note.tags note;
     Note.createdAt := Note.createdAt note;
     Note.updatedAt := now;
     Note.fontSize := Note.fontSize note |}.

Definition withFolderId (note : Note.t) (f : option string) : Note.t :=
  {| Note.id := Note.id note;
     Note.title := Note.title note;
     Note.content := Note.content note;
     Note.folderId := f;
     Note.tags := Note.tags note;
     Note.createdAt := Note.createdAt note;
     Note.updatedAt := Note.updatedAt note;
     Note.fontSize := Note.fontSize note |}.

Definition withTags (note : Note.t) (ts : list string) : Note.t :=
  {| Note.id := Note.id note;
     Note.title := Note.title note;
     Note.content := Note.content note;
     Note.folderId := Note.folderId note;
     Note.tags := ts;
     Note.createdAt := Note.createdAt note;
     Note.updatedAt := Note.updatedAt note;
     Note.fontSize := Note.fontSize note |}.

Definition setNotes (f : list Note.t -> list Note.t) (st : Store) : Store :=
  mkStore (f (notes st)) (folders st) (tags st) (selectedNoteId st) (selectedFolderId st).

Definition setFolders (f : list Folder.t -> list Folder.t) (st : Store) : Store :=
  mkStore (notes st) (f (folders st)) (tags st) (selectedNoteId st) (selectedFolderId st).

Definition setTags (f : list Tag.t -> list Tag.t) (st : Store) : Store :=
  mkStore (notes st) (folders st) (f (tags st)) (selectedNoteId st) (selectedFolderId st).

Definition setSelectedNoteId (v : option string) (st : Store) : Store :=
  mkStore (notes st) (folders st) (tags st) v (selectedFolderId st).

Definition setSelectedFolderId (v : option string) (st : Store) : Store :=
  mkStore (notes st) (folders st) (tags st) (selectedNoteId st) v.

(** ** The store operations ([NotesProvider]) *)

(** [createNote(folderId = null)]: [Date.now()] is read three times, for the
    id, for [createdAt] and for [updatedAt]. *)
Definition createNote (folderId : option string) (t_id t_created t_updated : Z)
    (st : Store) : Note.t * Store :=
  let newNote :=
    {| Note.id := toString t_id;
       Note.title := "Untitled Note";
       Note.content := "";
       Note.folderId := folderId;
       Note.tags := [];
       Note.createdAt := t_created;
       Note.updatedAt := t_updated;
       Note.fontSize := 16 |} in
  (newNote,
   setSelectedNoteId (Some (Note.id newNote))
     (setNotes (fun prev => prev ++ [newNote]) st)).

(** [updateNote(id, updates)]; [now] is the value of [Date.now()] while the
    updater runs (one value for the whole pass over the list). *)
Definition updateNote (id : string) (updates : PartialNote.t) (now : Z)
    (st : Store) : Store :=
  setNotes (fun prev =>
    map (fun note =>
           if String.eqb (Note.id note) id
           then withUpdatedAt (spreadNote note updates) now
           else note) prev) st.

(** [deleteNote(id)], a closure over [selectedNoteId]. *)
Definition deleteNote (selectedNoteId_r : option string) (id : string)
    (st : Store) : Store :=
  let st1 := setNotes (fun prev =>
    filter (fun note => negb (String.eqb (Note.id note) id)) prev) st in
  if nullable_eqb selectedNoteId_r (Some id)
  then setSelectedNoteId None st1
  else st1.

(** [createFolder(name, parentId = null)] *)
Definition createFolder (name : string) (parentId : option string)
    (t_id t_created : Z) (st : Store) : Folder.t * Store :=
  let newFolder :=
    {| Folder.id := toString t_id;
       Folder.name := name;
       Folder.parentId := parentId;
       Folder.createdAt := t_created |} in
  (newFolder, setFolders (fun prev => prev ++ [newFolder]) st).

(** [updateFolder(id, updates)] *)
Definition updateFolder (id : string) (updates : PartialFolder.t)
    (st : Store) : Store :=
  setFolders (fun prev =>
    map (fun folder =>
           if String.eqb (Folder.id folder) id
           then spreadFolder folder updates
           else folder) prev) st.

(** [deleteFolder(id)], a closure over [selectedFolderId]. *)
Definition deleteFolder (selectedFolderId_r : option string) (id : string)
    (st : Store) : Store :=
  (* Move notes to root (null folderId) *)
  let st1 := setNotes (fun prev =>
    map (fun note =>
           if nullable_eqb (Note.folderId note) (Some id)
           then withFolderId note None
           else note) prev) st in
  (* Delete folder *)
  let st2 := setFolders (fun prev =>
    filter (fun folder => negb (String.eqb (Folder.id folder) id)) prev) st1 in
  if nullable_eqb selectedFolderId_r (Some id)
  then setSelectedFolderId None st2
  else st2.

(** [createTag(name)], a closure over [tags]: the lookup reads the captured
    list, the insertion acts on the store. *)
Definition createTag (tags_r : list Tag.t) (name : string) (now : Z)
    (st : Store) : Tag.t * Store :=
  match find (fun t => String.eqb (toLowerCase (Tag.name t)) (toLowerCase name)) tags_r with
  | Some existingTag => (existingTag, st)
  | None =>
      let newTag := {| Tag.id := toString now; Tag.name := name; Tag.color := None |} in
      (newTag, setTags (fun prev => prev ++ [newTag]) st)
  end.

(** [deleteTag(id)], a closure over [tags]. *)
Definition deleteTag (tags_r : list Tag.t) (id : string) (st : Store) : Store :=
  (* Remove tag from all notes *)
  let st1 := setNotes (fun prev =>
    map (fun note =>
           withTags note
             (filter (fun tagName =>
                        match find (fun t => String.eqb (Tag.id t) id) tags_r with
                        | Some tag => negb (String.eqb tagName (Tag.name tag))
                        | None => true
                        end) (Note.tags note))) prev) st in
  (* Delete tag *)
  setTags (fun prev => filter (fun tag => negb (String.eqb (Tag.id tag) id)) prev) st1.

Definition selectNote (id : option string) (st : Store) : Store :=
  setSelectedNoteId id st.

Definition selectFolder (id : option string) (st : Store) : Store :=
  setSelectedFolderId id st.

Definition getNotesByFolder (folderId : option string) (st : Store) : list Note.t :=
  filter (fun note => nullable_eqb (Note.folderId note) folderId) (notes st).

Definition getNotesByTag (tagName : string) (st : Store) : list Note.t :=
  filter (fun note => existsb (String.eqb tagName) (Note.tags note)) (notes st).

(** ** One call per rendered state

    An [Action] is one call issued by the view, together with the clock
    values the call reads.  [dispatch] performs it through the callbacks of
    the render that shows the current store, so that each closure captures
    the current values. *)

Inductive Action : Type :=
| CreateNote (folderId : option string) (t_id t_created t_updated : Z)
| UpdateNote (id : string) (updates : PartialNote.t) (now : Z)
| DeleteNote (id : string)
| SelectNote (id : option string)
| CreateFolder (name : string) (parentId : option string) (t_id t_created : Z)
| UpdateFolder (id : string) (updates : PartialFolder.t)
| DeleteFolder (id : string)
| SelectFolder (id : option string)
| CreateTag (name : string) (now : Z)
| DeleteTag (id : string).

Definition dispatch (a : Action) (st : Store) : Store :=
  match a with
  | CreateNote folderId t_id t_created t_updated =>
      snd (createNote folderId t_id t_created t_updated st)
  | UpdateNote id updates now => updateNote id updates now st
  | DeleteNote id => deleteNote (selectedNoteId st) id st
  | SelectNote id => selectNote id st
  | CreateFolder name parentId t_id t_created =>
      snd (createFolder name parentId t_id t_created st)
  | UpdateFolder id updates => updateFolder id updates st
  | DeleteFolder id => deleteFolder (selectedFolderId st) id st
  | SelectFolder id => selectFolder id st
  | CreateTag name now => snd (createTag (tags st) name now st)
  | DeleteTag id => deleteTag (tags st) id st
  end.

Definition run (acts : list Action) (st : Store) : Store :=
  fold_left (fun s a => dispatch a s) acts st.

(** The clock values an action reads, in the order it reads them. *)
Definition readings (a : Action) : list Z :=
  match a with
  | CreateNote _ t_id t_created t_updated => [t_id; t_created; t_updated]
  | UpdateNote _ _ now => [now]
  | CreateFolder _ _ t_id t_created => [t_id; t_created]
  | CreateTag _ now => [now]
  | _ => []
  end.

(** The clock value from which [createNote] derives the id. *)
Definition noteIdReading (a : Action) : list Z :=
  match a with
  | CreateNote _ t_id _ _ => [t_id]
  | _ => []
  end.

(** The action leaves the [id] and [createdAt] of notes out of its
    partial-field map. *)
Definition keepsIdentity (a : Action) : bool :=
  match a with
  | UpdateNote _ updates _ =>
      match PartialNote.id updates, PartialNote.createdAt updates with
      | None, None => true
      | _, _ => false
      end
  | _ => true
  end.

(** The action leaves the [id] of notes out of its partial-field map. *)
Definition keepsId (a : Action) : bool :=
  match a with
  | UpdateNote _ updates _ =>
      match PartialNote.id updates with
      | None => true
      | Some _ => false
      end
  | _ => true
  end.

(** ** The font-size control of [Editor] *)

Definition MIN_FONT_SIZE : Z := 12.
Definition MAX_FONT_SIZE : Z := 48.
Definition DEFAULT_FONT_SIZE : Z := 16.

(** [handleFontSizeChange(delta)]: the updater given to [setFontSize]. *)
Definition handleFontSizeChange (delta : Z) (prev : Z) : Z :=
  Z.max MIN_FONT_SIZE (Z.min MAX_FONT_SIZE (prev + delta)).

(** A string is falsy exactly when it is empty. *)
Definition truthy (s : string) : bool :=
  match s with
  | EmptyString => false
  | String _ _ => true
  end.

(** The effect "Auto-save font size changes": it returns early when no note
    is selected, when the selected id matches no note, or while the editor
    is initialising; otherwise it calls [updateNote(selectedNoteId, { fontSize })]. *)
Definition autoSaveFontSize (fontSize : Z) (isInitializing : bool) (now : Z)
    (st : Store) : Store :=
  match selectedNoteId st with
  | None => st
  | Some sel =>
      if negb (truthy sel) then st
      else
        match find (fun n => String.eqb (Note.id n) sel) (notes st) with
        | None => st
        | Some _ =>
            if isInitializing then st
            else updateNote sel (onlyFontSize fontSize) now st
        end
  end.

(** ** JSON values and the built-ins [JSON.stringify] / [JSON.parse]

    The fragment modelled: [null], booleans, integral numbers, strings of
    code units below 256, arrays and objects.  [JSON.parse] has three
    outcomes here: a value, the [SyntaxError] it throws on malformed text,
    and [Unmodelled] for text whose value lies outside the fragment (a
    number with a fraction or an exponent, negative zero, a [\u] escape of
    a code unit above 255).  The parser recurses on a fuel; [OutOfFuel] is
    the outcome of too small a fuel, which [JSON_parse] never meets. *)

#[warnings="-register-all"]
Inductive json : Type :=
| JNull
| JBool (b : bool)
| JNum (n : Z)
| JStr (s : string)
| JArr (items : list json)
| JObj (members : list (string * json)).

Inductive outcome (A : Type) : Type :=
| Return (a : A)
| SyntaxError
| Unmodelled
| OutOfFuel.

Arguments Return {A} a.
Arguments SyntaxError {A}.
Arguments Unmodelled {A}.
Arguments OutOfFuel {A}.

Definition bind {A B : Type} (m : outcome A) (k : A -> outcome B) : outcome B :=
  match m with
  | Return a => k a
  | SyntaxError => SyntaxError
  | Unmodelled => Unmodelled
  | OutOfFuel => OutOfFuel
  end.

Notation "' pat <- m ;; k" := (bind m (fun x => match x with pat => k end))
  (at level 61, pat pattern, m at next level, right associativity).

Definition DQUOTE : ascii := ascii_of_N 34.
Definition BACKSLASH : ascii := ascii_of_N 92.

(** *** Serialisation *)

Definition hex_digit (n : N) : ascii :=
  if (n <? 10)%N then ascii_of_N (48 + n) else ascii_of_N (87 + n).

(** One code unit inside a quoted JSON string. *)
Definition quote_char (c : ascii) : string :=
  match N_of_ascii c with
  | 8%N => "\b"
  | 9%N => "\t"
  | 10%N => "\n"
  | 12%N => "\f"
  | 13%N => "\r"
  | 34%N => String BACKSLASH (String DQUOTE EmptyString)
  | 92%N => String BACKSLASH (String BACKSLASH EmptyString)
  | n =>
      if (n <? 32)%N
      then "\u00" ++ String (hex_digit (n / 16)) (String (hex_digit (n mod 16)) EmptyString)
      else String c EmptyString
  end%string.

Fixpoint quote_body (s : string) : string :=
  match s with
  | EmptyString => EmptyString
  | String c s' => (quote_char c ++ quote_body s')%string
  end.

Definition quote (s : string) : string :=
  String DQUOTE (quote_body s ++ String DQUOTE EmptyString)%string.

Fixpoint JSON_stringify (v : json) : string :=
  match v with
  | JNull => "null"
  | JBool true => "true"
  | JBool false => "false"
  | JNum n => toString n
  | JStr s => quote s
  | JArr items =>
      "[" ++ String.concat "," (map JSON_stringify items) ++ "]"
  | JObj members =>
      "{" ++ String.concat ","
               (map (fun '(k, x) => quote k ++ ":" ++ JSON_stringify x) members)
          ++ "}"
  end%string.

(** The text of one member of an object. *)
Definition member_text (kv : string * json) : string :=
  let '(k, x) := kv in (quote k ++ ":" ++ JSON_stringify x)%string.

(** *** Parsing *)

Definition is_ws (c : ascii) : bool :=
  match N_of_ascii c with
  | 9%N | 10%N | 13%N | 32%N => true
  | _ => false
  end.

Fixpoint skip_ws (s : string) : string :=
  match s with
  | EmptyString => EmptyString
  | String c s' => if is_ws c then skip_ws s' else s
  end.

Fixpoint strip_prefix (p s : string) : option string :=
  match p with
  | EmptyString => Some s
  | String a p' =>
      match s with
      | EmptyString => None
      | String b s' => if Ascii.eqb a b then strip_prefix p' s' else None
      end
  end.

Definition digit_of_char (c : ascii) : option (uint -> uint) :=
  match c with
  | "0" => Some D0
  | "1" => Some D1
  | "2" => Some D2
  | "3" => Some D3
  | "4" => Some D4
  | "5" => Some D5
  | "6" => Some D6
  | "7" => Some D7
  | "8" => Some D8
  | "9" => Some D9
  | _ => None
  end%char.

(** The longest run of decimal digits at the head of the text. *)
Fixpoint read_digits (s : string) : uint * string :=
  match s with
  | EmptyString => (Nil, EmptyString)
  | String c s' =>
      match digit_of_char c with
      | Some d => let (u, rest) := read_digits s' in (d u, rest)
      | None => (Nil, s)
      end
  end.

(** A fraction or an exponent follows the integer part. *)
Definition continues_number (s : string) : bool :=
  match s with
  | EmptyString => false
  | String c _ => (Ascii.eqb c "." || Ascii.eqb c "e" || Ascii.eqb c "E")%char
  end.

Definition finish_number (negative : bool) (u : uint) (rest : string)
    : outcome (json * string) :=
  if continues_number rest then Unmodelled
  else if negative
       then if Z.of_uint u =? 0 then Unmodelled
            else Return (JNum (- Z.of_uint u), rest)
       else Return (JNum (Z.of_uint u), rest).

(** An optional minus sign, then a single zero or a run of digits that
    starts with a non-zero digit. *)
Definition parse_number (s : string) : outcome (json * string) :=
  let (negative, s1) :=
    match s with
    | String c s' => if Ascii.eqb c "-"%char then (true, s') else (false, s)
    | EmptyString => (false, s)
    end in
  match s1 with
  | EmptyString => SyntaxError
  | String c s2 =>
      if Ascii.eqb c "0"%char then finish_number negative (D0 Nil) s2
      else
        match digit_of_char c with
        | Some _ => let (u, rest) := read_digits s1 in finish_number negative u rest
        | None => SyntaxError
        end
  end.

Definition hex_val (c : ascii) : option N :=
  let n := N_of_ascii c in
  if ((48 <=? n) && (n <=? 57))%N then Some (n - 48)%N
  else if ((97 <=? n) && (n <=? 102))%N then Some (n - 87)%N
  else if ((65 <=? n) && (n <=? 70))%N then Some (n - 55)%N
  else None.

Definition hex4 (a b c d : ascii) : option N :=
  match hex_val a, hex_val b, hex_val c, hex_val d with
  | Some x, Some y, Some z, Some w => Some (((x * 16 + y) * 16 + z) * 16 + w)%N
  | _, _, _, _ => None
  end.

(** The code unit denoted by a one-letter escape. *)
Definition simple_escape (e : ascii) : option ascii :=
  match N_of_ascii e with
  | 34%N => Some DQUOTE
  | 92%N => Some BACKSLASH
  | 47%N => Some "/"%char
  | 98%N => Some (ascii_of_N 8)
  | 102%N => Some (ascii_of_N 12)
  | 110%N => Some (ascii_of_N 10)
  | 114%N => Some (ascii_of_N 13)
  | 116%N => Some (ascii_of_N 9)
  | _ => None
  end.

(** The characters of a string literal, after its opening quote, up to and
    including the closing quote. *)
Fixpoint parse_chars (s : string) : outcome (string * string) :=
  match s with
  | EmptyString => SyntaxError
  | String c s' =>
      if Ascii.eqb c DQUOTE then Return (EmptyString, s')
      else if Ascii.eqb c BACKSLASH then
        match s' with
        | EmptyString => SyntaxError
        | String e s'' =>
            match simple_escape e with
            | Some c' =>
                '(str, rest) <- parse_chars s'' ;;
                Return (String c' str, rest)
            | None =>
                if Ascii.eqb e "u"%char then
                  match s'' with
                  | String h1 (String h2 (String h3 (String h4 s4))) =>
                      match hex4 h1 h2 h3 h4 with
                      | Some code =>
                          if (code <? 256)%N then
                            '(str, rest) <- parse_chars s4 ;;
                            Return (String (ascii_of_N code) str, rest)
                          else Unmodelled
                      | None => SyntaxError
                      end
                  | _ => SyntaxError
                  end
                else SyntaxError
            end
        end
      else if (N_of_ascii c <? 32)%N then SyntaxError
      else
        '(str, rest) <- parse_chars s' ;;
        Return (String c str, rest)
  end.

(** The elements of a non-empty array, up to and including the closing
    bracket; [pv] parses one value. *)
Fixpoint parse_elements (pv : string -> outcome (json * string)) (fuel : nat)
    (s : string) : outcome (list json * string) :=
  match fuel with
  | O => OutOfFuel
  | S fuel' =>
      '(x, rest) <- pv s ;;
      match skip_ws rest with
      | String c rest' =>
          if Ascii.eqb c ","%char then
            '(xs, rest'') <- parse_elements pv fuel' rest' ;;
            Return (x :: xs, rest'')
          else if Ascii.eqb c "]"%char then Return ([x], rest')
          else SyntaxError
      | EmptyString => SyntaxError
      end
  end.

(** The members of a non-empty object, up to and including the closing
    brace, in the order of the text. *)
Fixpoint parse_members (pv : string -> outcome (json * string)) (fuel : nat)
    (s : string) : outcome (list (string * json) * string) :=
  match fuel with
  | O => OutOfFuel
  | S fuel' =>
      match skip_ws s with
      | String q s1 =>
          if Ascii.eqb q DQUOTE then
            '(k, s2) <- parse_chars s1 ;;
            match skip_ws s2 with
            | String colon s3 =>
                if Ascii.eqb colon ":"%char then
                  '(x, rest) <- pv s3 ;;
                  match skip_ws rest with
                  | String c rest' =>
                      if Ascii.eqb c ","%char then
                        '(ms, rest'') <- parse_members pv fuel' rest' ;;
                        Return ((k, x) :: ms, rest'')
                      else if Ascii.eqb c "}"%char then Return ([(k, x)], rest')
                      else SyntaxError
                  | EmptyString => SyntaxError
                  end
                else SyntaxError
            | EmptyString => SyntaxError
            end
          else SyntaxError
      | EmptyString => SyntaxError
      end
  end.

(** Defining a property on the object under construction: a repeated key
    keeps its place and takes the later value. *)
Fixpoint set_property (k : string) (x : json) (ms : list (string * json))
    : list (string * json) :=
  match ms with
  | [] => [(k, x)]
  | (k', x') :: ms' =>
      if String.eqb k' k then (k', x) :: ms'
      else (k', x') :: set_property k x ms'
  end.

Definition build_object (ms : list (string * json)) : json :=
  JObj (fold_left (fun acc '(k, x) => set_property k x acc) ms []).

(** One JSON value at the head of the text.  [fuel] bounds the nesting depth
    and the number of items of a container. *)
Fixpoint parse_value (fuel : nat) (s : string) : outcome (json * string) :=
  match fuel with
  | O => OutOfFuel
  | S fuel' =>
      match skip_ws s with
      | EmptyString => SyntaxError
      | String c s1 =>
          if Ascii.eqb c "["%char then
            match skip_ws s1 with
            | String c' s2 =>
                if Ascii.eqb c' "]"%char then Return (JArr [], s2)
                else
                  '(xs, rest) <- parse_elements (parse_value fuel') fuel' s1 ;;
                  Return (JArr xs, rest)
            | EmptyString => SyntaxError
            end
          else if Ascii.eqb c "{"%char then
            match skip_ws s1 with
            | String c' s2 =>
                if Ascii.eqb c' "}"%char then Return (JObj [], s2)
                else
                  '(ms, rest) <- parse_members (parse_value fuel') fuel' s1 ;;
                  Return (build_object ms, rest)
            | EmptyString => SyntaxError
            end
          else if Ascii.eqb c DQUOTE then
            '(str, rest) <- parse_chars s1 ;;
            Return (JStr str, rest)
          else if Ascii.eqb c "t"%char then
            match strip_prefix "rue" s1 with
            | Some rest => Return (JBool true, rest)
            | None => SyntaxError
            end
          else if Ascii.eqb c "f"%char then
            match strip_prefix "alse" s1 with
            | Some rest => Return (JBool false, rest)
            | None => SyntaxError
            end
          else if Ascii.eqb c "n"%char then
            match strip_prefix "ull" s1 with
            | Some rest => Return (JNull, rest)
            | None => SyntaxError
            end
          else parse_number (String c s1)
      end
  end.

(** [JSON.parse(text)]: one value, then nothing but white space. *)
Definition JSON_parse (text : string) : outcome json :=
  '(v, rest) <- parse_value (S (String.length text)) text ;;
  match skip_ws rest with
  | EmptyString => Return v
  | String _ _ => SyntaxError
  end.

(** ** Entities as JavaScript values

    [js_of_note] is the object a [Note] denotes, its properties in the order
    of the literal in [createNote]; [note_of_js] reads a value back at the
    type [Note], which is what the annotation [Note[]] on [getNotes]
    assumes of the parsed text. *)

Definition js_of_nullable (o : option string) : json :=
  match o with
  | Some s => JStr s
  | None => JNull
  end.

Definition js_of_note (n : Note.t) : json :=
  JObj [("id", JStr (Note.id n));
        ("title", JStr (Note.title n));
        ("content", JStr (Note.content n));
        ("folderId", js_of_nullable (Note.folderId n));
        ("tags", JArr (map JStr (Note.tags n)));
        ("createdAt", JNum (Note.createdAt n));
        ("updatedAt", JNum (Note.updatedAt n));
        ("fontSize", JNum (Note.fontSize n))].

Definition js_of_notes (ns : list Note.t) : json := JArr (map js_of_note ns).

Definition js_of_folder (f : Folder.t) : json :=
  JObj [("id", JStr (Folder.id f));
        ("name", JStr (Folder.name f));
        ("parentId", js_of_nullable (Folder.parentId f));
        ("createdAt", JNum (Folder.createdAt f))].

(** An absent [color] is [undefined]: the property is left out. *)
Definition js_of_tag (t : Tag.t) : json :=
  JObj ([("id", JStr (Tag.id t)); ("name", JStr (Tag.name t))]
        ++ match Tag.color t with
           | Some c => [("color", JStr c)]
           | None => []
           end).

Fixpoint get_property (k : string) (ms : list (string * json)) : option json :=
  match ms with
  | [] => None
  | (k', x) :: ms' => if String.eqb k' k then Some x else get_property k ms'
  end.

Definition as_string (v : option json) : option string :=
  match v with
  | Some (JStr s) => Some s
  | _ => None
  end.

Definition as_number (v : option json) : option Z :=
  match v with
  | Some (JNum n) => Some n
  | _ => None
  end.

Definition as_nullable (v : option json) : option (option string) :=
  match v with
  | Some (JStr s) => Some (Some s)
  | Some JNull => Some None
  | _ => None
  end.

Fixpoint all_some {A B : Type} (f : A -> option B) (l : list A) : option (list B) :=
  match l with
  | [] => Some []
  | a :: l' =>
      match f a, all_some f l' with
      | Some b, Some bs => Some (b :: bs)
      | _, _ => None
      end
  end.

Definition as_strings (v : option json) : option (list string) :=
  match v with
  | Some (JArr items) => all_some (fun x => as_string (Some x)) items
  | _ => None
  end.

Definition note_of_js (v : json) : option Note.t :=
  match v with
  | JObj ms =>
      match as_string (get_property "id" ms),
            as_string (get_property "title" ms),
            as_string (get_property "content" ms),
            as_nullable (get_property "folderId" ms),
            as_strings (get_property "tags" ms),
            as_number (get_property "createdAt" ms),
            as_number (get_property "updatedAt" ms),
            as_number (get_property "fontSize" ms) with
      | Some i, Some t, Some c, Some f, Some g, Some ca, Some ua, Some fs =>
          Some (Note.make i t c f g ca ua fs)
      | _, _, _, _, _, _, _, _ => None
      end
  | _ => None
  end.

Definition notes_of_js (v : json) : option (list Note.t) :=
  match v with
  | JArr items => all_some note_of_js items
  | _ => None
  end.

Definition folder_of_js (v : json) : option Folder.t :=
  match v with
  | JObj ms =>
      match as_string (get_property "id" ms),
            as_string (get_property "name" ms),
            as_nullable (get_property "parentId" ms),
            as_number (get_property "createdAt" ms) with
      | Some i, Some n, Some p, Some ca => Some (Folder.make i n p ca)
      | _, _, _, _ => None
      end
  | _ => None
  end.

Definition folders_of_js (v : json) : option (list Folder.t) :=
  match v with
  | JArr items => all_some folder_of_js items
  | _ => None
  end.

Definition tag_of_js (v : json) : option Tag.t :=
  match v with
  | JObj ms =>
      match as_string (get_property "id" ms),
            as_string (get_property "name" ms),
            get_property "color" ms with
      | Some i, Some n, None => Some (Tag.make i n None)
      | Some i, Some n, Some (JStr c) => Some (Tag.make i n (Some c))
      | _, _, _ => None
      end
  | _ => None
  end.

Definition tags_of_js (v : json) : option (list Tag.t) :=
  match v with
  | JArr items => all_some tag_of_js items
  | _ => None
  end.

(** ** The persistence adapter ([lib/storage.ts]) *)

(** The browser as the adapter sees it: whether [window] is defined, and the
    content of [localStorage]. *)
Record Browser : Type := mkBrowser {
  window_defined : bool;
  localStorage : string -> option string
}.

Definition getItem (key : string) (env : Browser) : option string :=
  localStorage env key.

Definition setItem (key value : string) (env : Browser) : Browser :=
  mkBrowser (window_defined env)
    (fun k => if String.eqb k key then Some value else localStorage env k).

Definition emptyStorage : string -> option string := fun _ => None.

Definition STORAGE_KEYS_NOTES : string := "writewell_notes".
Definition STORAGE_KEYS_FOLDERS : string := "writewell_folders".
Definition STORAGE_KEYS_TAGS : string := "writewell_tags".
Definition THEME_STORAGE_KEY : string := "writewell-theme".

(** [storage.get(key)]: [null] is [None]. *)
Definition storage_get (key : string) (env : Browser) : outcome (option json) :=
  if negb (window_defined env) then Return None
  else
    match getItem key env with
    | Some data =>
        if truthy data
        then bind (JSON_parse data) (fun v => Return (Some v))
        else Return None
    | None => Return None
    end.

(** [storage.set(key, value)] *)
Definition storage_set (key : string) (value : json) (env : Browser) : Browser :=
  if negb (window_defined env) then env
  else setItem key (JSON_stringify value) env.

(** The body shared by [getNotes], [getFolders] and [getTags]. *)
Definition getCollection (key : string) (env : Browser) : outcome json :=
  if negb (window_defined env) then Return (JArr [])
  else
    match getItem key env with
    | Some data => if truthy data then JSON_parse data else Return (JArr [])
    | None => Return (JArr [])
    end.

Definition getNotes (env : Browser) : outcome json :=
  getCollection STORAGE_KEYS_NOTES env.

Definition saveNotes (ns : list Note.t) (env : Browser) : Browser :=
  if negb (window_defined env) then env
  else setItem STORAGE_KEYS_NOTES (JSON_stringify (js_of_notes ns)) env.

Definition getFolders (env : Browser) : outcome json :=
  getCollection STORAGE_KEYS_FOLDERS env.

Definition saveFolders (fs : list Folder.t) (env : Browser) : Browser :=
  if negb (window_defined env) then env
  else setItem STORAGE_KEYS_FOLDERS (JSON_stringify (JArr (map js_of_folder fs))) env.

Definition getTags (env : Browser) : outcome json :=
  getCollection STORAGE_KEYS_TAGS env.

Definition saveTags (ts : list Tag.t) (env : Browser) : Browser :=
  if negb (window_defined env) then env
  else setItem STORAGE_KEYS_TAGS (JSON_stringify (JArr (map js_of_tag ts))) env.

(** A parsed value enters the typed store; a value that is no collection of
    the expected entities is outside the typed model. *)
Definition typed {A : Type} (decode : json -> option A) (v : json) : outcome A :=
  match decode v with
  | Some a => Return a
  | None => Unmodelled
  end.

(** The mount effect of [NotesProvider]: the three loads follow one another
    with no handler around them. *)
Definition hydrate (env : Browser) (st : Store) : outcome Store :=
  if window_defined env then
    bind (getNotes env) (fun loadedNotes =>
    bind (getFolders env) (fun loadedFolders =>
    bind (getTags env) (fun loadedTags =>
    bind (typed notes_of_js loadedNotes) (fun ns =>
    bind (typed folders_of_js loadedFolders) (fun fs =>
    bind (typed tags_of_js loadedTags) (fun ts =>
    Return (setTags (fun _ => ts) (setFolders (fun _ => fs) (setNotes (fun _ => ns) st)))))))))
  else Return st.

(** ** The theme initialiser ([contexts/ThemeContext.tsx]) *)

Inductive Theme : Type := dark | light.

(** The lazy initial state of [ThemeProvider]: [storage.get] runs inside
    [try]; the [catch] branch reads the stored text as a plain string. *)
Definition initialTheme (env : Browser) : outcome Theme :=
  if window_defined env then
    match storage_get THEME_STORAGE_KEY env with
    | Return (Some (JStr savedTheme)) =>
        if String.eqb savedTheme "dark" then Return dark
        else if String.eqb savedTheme "light" then Return light
        else Return dark
    | Return _ => Return dark
    | SyntaxError =>
        match getItem THEME_STORAGE_KEY env with
        | Some plainTheme =>
            if String.eqb plainTheme "dark" then Return dark
            else if String.eqb plainTheme "light" then Return light
            else Return dark
        | None => Return dark
        end
    | Unmodelled => Unmodelled
    | OutOfFuel => OutOfFuel
    end
  else Return dark.

(** ** Vocabulary of the statements *)


(** The tag's name equals [name] up to letter case, as [createTag] tests it. *)
Definition sameNameIgnoringCase (name : string) (t : Tag.t) : Prop :=
  toLowerCase (Tag.name t) = toLowerCase name.

(** What an action does to the list of note ids when ids are only ever
    assigned at creation: a created note's id is appended, a deleted note's
    id is dropped, nothing else moves. *)
Definition idEffect (a : Action) (ids : list string) : list string :=
  match a with
  | CreateNote _ t_id _ _ => ids ++ [toString t_id]
  | DeleteNote id => filter (fun i => negb (String.eqb i id)) ids
  | _ => ids
  end.

(** The invariant of C3 on one note, and on a store. *)
Definition timesOrdered (n : Note.t) : Prop := Note.createdAt n <= Note.updatedAt n.

Definition notesWellFormed (st : Store) : Prop :=
  NoDup (map Note.id (notes st)) /\ Forall timesOrdered (notes st).

(** The invariant carried along a run: besides [notesWellFormed], no id of
    the store is the text of a clock value that a later [createNote] will
    use ([idsAhead]), and no [updatedAt] exceeds a clock value still to be
    read ([readingsAhead]). *)
Definition aheadInvariant (idsAhead readingsAhead : list Z) (st : Store) : Prop :=
  NoDup (map Note.id (notes st)) /\
  (forall n t, In n (notes st) -> In t idsAhead -> Note.id n <> toString t) /\
  Forall (fun n => timesOrdered n /\
                   forall t, In t readingsAhead -> Note.updatedAt n <= t)
         (notes st).

(** ** Vocabulary of the round trip *)

(** A value as [JSON.stringify] can meet it: the keys of every object are
    pairwise distinct. *)
#[warnings="-register-all"]
Inductive distinctKeys : json -> Prop :=
| dk_null : distinctKeys JNull
| dk_bool : forall b, distinctKeys (JBool b)
| dk_num : forall n, distinctKeys (JNum n)
| dk_str : forall s, distinctKeys (JStr s)
| dk_arr : forall items, Forall distinctKeys items -> distinctKeys (JArr items)
| dk_obj : forall members,
    NoDup (map fst members) ->
    Forall (fun kv => distinctKeys (snd kv)) members ->
    distinctKeys (JObj members).

(** The text that follows a number does not prolong it. *)
Definition endsNumber (rest : string) : bool :=
  match rest with
  | EmptyString => true
  | String c _ =>
      match digit_of_char c with
      | Some _ => false
      | None => negb (continues_number rest)
      end
  end.

(** The first character of a serialised value: never white space nor a
    closing bracket, so the parser starts on it. *)
Definition startsValue (c : ascii) : bool :=
  negb (is_ws c) && negb (Ascii.eqb c "]") && negb (Ascii.eqb c "}").

(** The fuel that parsing the serialisation of a value needs. *)
Fixpoint size (v : json) : nat :=
  match v with
  | JArr items => S (list_sum (map size items))
  | JObj members => S (list_sum (map (fun '(_, x) => size x) members))
  | _ => 1
  end.

(** Structural induction on [json], with the hypothesis available for every
    item of an array and every member of an object. *)
Section json_induction.
Variable P : json -> Prop.
Hypothesis P_null : P JNull.
Hypothesis P_bool : forall b, P (JBool b).
Hypothesis P_num : forall n, P (JNum n).
Hypothesis P_str : forall s, P (JStr s).
Hypothesis P_arr : forall items, Forall P items -> P (JArr items).
Hypothesis P_obj : forall members,
  Forall (fun kv => P (snd kv)) members -> P (JObj members).

Fixpoint json_induction (v : json) : P v :=
  match v with
  | JNull => P_null
  | JBool b => P_bool b
  | JNum n => P_num n
  | JStr s => P_str s
  | JArr items =>
      P_arr items
        ((fix go (l : list json) : Forall P l :=
            match l with
            | [] => Forall_nil P
            | x :: l' => Forall_cons x (json_induction x) (go l')
            end) items)
  | JObj members =>
      P_obj members
        ((fix go (l : list (string * json)) : Forall (fun kv => P (snd kv)) l :=
            match l with
            | [] => Forall_nil _
            | kv :: l' => Forall_cons kv (json_induction (snd kv)) (go l')
            end) members)
  end.
End json_induction.

(** The numeric fields of a well-formed note are integers that a JavaScript
    number holds exactly. *)
Definition safeInteger (n : Z) : Prop := - 2 ^ 53 < n < 2 ^ 53.

Definition wellFormedNote (n : Note.t) : Prop :=
  safeInteger (Note.createdAt n) /\ safeInteger (Note.updatedAt n) /\
  safeInteger (Note.fontSize n).

(** A browser whose [localStorage] holds one entry. *)
Definition browserWith (key data : string) : Browser :=
  setItem key data (mkBrowser true emptyStorage).

(** The parser did not run out of fuel on [s] and, when it returned, it
    left a strictly shorter text. *)
Definition progresses {A : Type} (r : outcome (A * string)) (s : string) : Prop :=
  r <> OutOfFuel /\
  forall a rest, r = Return (a, rest) -> (String.length rest < String.length s)%nat.

(** ** Vocabulary of the store invariants *)

(** The later of two partial-field maps wins field by field, as two
    successive spreads do. *)
Definition laterField {A : Type} (first later : option A) : option A :=
  match later with
  | Some _ => later
  | None => first
  end.

Definition mergeUpdates (first later : PartialNote.t) : PartialNote.t :=
  {| PartialNote.id := laterField (PartialNote.id first) (PartialNote.id later);
     PartialNote.title := laterField (PartialNote.title first) (PartialNote.title later);
     PartialNote.content := laterField (PartialNote.content first) (PartialNote.content later);
     PartialNote.folderId := laterField (PartialNote.folderId first) (PartialNote.folderId later);
     PartialNote.tags := laterField (PartialNote.tags first) (PartialNote.tags later);
     PartialNote.createdAt :=
       laterField (PartialNote.createdAt first) (PartialNote.createdAt later);
     PartialNote.updatedAt :=
       laterField (PartialNote.updatedAt first) (PartialNote.updatedAt later);
     PartialNote.fontSize := laterField (PartialNote.fontSize first) (PartialNote.fontSize later) |}.

Definition noteExists (st : Store) (id : string) : Prop :=
  exists n, In n (notes st) /\ Note.id n = id.

Definition folderExists (st : Store) (id : string) : Prop :=
  exists f, In f (folders st) /\ Folder.id f = id.

(** The selected note and the selected folder, when there is one, are in
    the store. *)
Definition selectionsResolve (st : Store) : Prop :=
  (forall id, selectedNoteId st = Some id -> noteExists st id) /\
  (forall id, selectedFolderId st = Some id -> folderExists st id).

(** Every note filed in a folder is filed in a folder of the store. *)
Definition foldersResolve (st : Store) : Prop :=
  forall n f, In n (notes st) -> Note.folderId n = Some f -> folderExists st f.

(** The action leaves the [id] of folders out of its partial-field map. *)
Definition keepsFolderId (a : Action) : bool :=
  match a with
  | UpdateFolder _ updates =>
      match PartialFolder.id updates with
      | None => true
      | Some _ => false
      end
  | _ => true
  end.

(** The action selects nothing but what the store holds. *)
Definition selectsExisting (a : Action) (st : Store) : Prop :=
  match a with
  | SelectNote (Some id) => noteExists st id
  | SelectFolder (Some id) => folderExists st id
  | _ => True
  end.

(** The action files notes nowhere but in folders the store holds. *)
Definition filesIntoExisting (a : Action) (st : Store) : Prop :=
  match a with
  | CreateNote (Some f) _ _ _ => folderExists st f
  | UpdateNote _ updates _ =>
      match PartialNote.folderId updates with
      | Some (Some f) => folderExists st f
      | _ => True
      end
  | _ => True
  end.

(** The clock values from which [createFolder] and [createTag] derive ids. *)
Definition folderIdReading (a : Action) : list Z :=
  match a with
  | CreateFolder _ _ t_id _ => [t_id]
  | _ => []
  end.

Definition tagIdReading (a : Action) : list Z :=
  match a with
  | CreateTag _ now => [now]
  | _ => []
  end.

(** The keys of a collection are pairwise distinct and none is the text of
    a clock value still to be used for an id. *)
Definition freshAhead {A : Type} (key : A -> string) (ahead : list Z) (l : list A) : Prop :=
  NoDup (map key l) /\
  forall a t, In a l -> In t ahead -> key a <> toString t.

Definition lowerName (t : Tag.t) : string := toLowerCase (Tag.name t).

(** ** More JavaScript primitives: [trim], [substring], [replace] *)

(** White space and line terminators among the code units below 256: what
    [trim] strips. *)
Definition isWhiteSpace (c : ascii) : bool :=
  match N_of_ascii c with
  | 9%N | 10%N | 11%N | 12%N | 13%N | 32%N | 160%N => true
  | _ => false
  end.

Fixpoint trimStart (s : string) : string :=
  match s with
  | EmptyString => EmptyString
  | String c s' => if isWhiteSpace c then trimStart s' else s
  end.

Fixpoint trimEnd (s : string) : string :=
  match s with
  | EmptyString => EmptyString
  | String c s' =>
      match trimEnd s' with
      | EmptyString => if isWhiteSpace c then EmptyString else String c EmptyString
      | String c' r => String c (String c' r)
      end
  end.

(** [s.trim()] *)
Definition trim (s : string) : string := trimEnd (trimStart s).

(** [s.replace(/\n/g, ' ')] *)
Fixpoint replaceNewlines (s : string) : string :=
  match s with
  | EmptyString => EmptyString
  | String c s' =>
      String (if Ascii.eqb c (ascii_of_N 10) then " "%char else c) (replaceNewlines s')
  end.

(** ** The editor ([components/Editor.tsx]) *)

(** The local state of [Editor] that the handlers below read and write; the
    document of the rich-text widget is not part of it.  [isInitializing]
    is the flag [isInitializingRef.current]. *)
Module Editor.
Record t : Type := make {
  title : string;
  fontSize : Z;
  noteTags : list string;
  newTagName : string;
  showTagInput : bool;
  showToolbar : bool;
  isInitializing : bool
}.
End Editor.

(** [notes.find((n) => n.id === selectedNoteId)] *)
Definition selectedNote (st : Store) : option Note.t :=
  match selectedNoteId st with
  | Some sel => find (fun n => String.eqb (Note.id n) sel) (notes st)
  | None => None
  end.

(** The effect "Initialize editor when note changes", as far as the local
    state goes. *)
Definition initializeEditor (st : Store) (ed : Editor.t) : Editor.t :=
  match selectedNote st with
  | Some note =>
      Editor.make (Note.title note) (Note.fontSize note) (Note.tags note)
                  (Editor.newTagName ed) (Editor.showTagInput ed) (Editor.showToolbar ed)
                  true
  | None =>
      Editor.make EmptyString DEFAULT_FONT_SIZE []
                  (Editor.newTagName ed) (Editor.showTagInput ed) (Editor.showToolbar ed)
                  (Editor.isInitializing ed)
  end.

(** The object literal [{ tags: noteTags }]. *)
Definition onlyTags (ts : list string) : PartialNote.t :=
  PartialNote.make None None None None (Some ts) None None None.

(** The effect "Auto-save tags". *)
Definition autoSaveTags (noteTags : list string) (isInitializing : bool) (now : Z)
    (st : Store) : Store :=
  match selectedNoteId st with
  | None => st
  | Some sel =>
      if negb (truthy sel) then st
      else
        match find (fun n => String.eqb (Note.id n) sel) (notes st) with
        | None => st
        | Some _ =>
            if isInitializing then st
            else updateNote sel (onlyTags noteTags) now st
        end
  end.

(** [handleAddTag], a closure over [newTagName], [noteTags] and [createTag]
    (itself a closure over [tags]); [now] is the clock value [createTag]
    reads. *)
Definition handleAddTag (newTagName_r : string) (noteTags_r : list string)
    (tags_r : list Tag.t) (now : Z) (ed : Editor.t) (st : Store) : Editor.t * Store :=
  if truthy (trim newTagName_r) then
    let (tag, st') := createTag tags_r (trim newTagName_r) now st in
    let tagsAfter :=
      if negb (existsb (String.eqb (Tag.name tag)) noteTags_r)
      then Editor.noteTags ed ++ [Tag.name tag]
      else Editor.noteTags ed in
    (Editor.make (Editor.title ed) (Editor.fontSize ed) tagsAfter
                 EmptyString false (Editor.showToolbar ed) (Editor.isInitializing ed),
     st')
  else (ed, st).

(** [handleAddTag] called through the callback of the current render. *)
Definition addTag (now : Z) (ed : Editor.t) (st : Store) : Editor.t * Store :=
  handleAddTag (Editor.newTagName ed) (Editor.noteTags ed) (tags st) now ed st.

(** [handleRemoveTag(tagName)] *)
Definition handleRemoveTag (tagName : string) (ed : Editor.t) : Editor.t :=
  Editor.make (Editor.title ed) (Editor.fontSize ed)
              (filter (fun t => negb (String.eqb t tagName)) (Editor.noteTags ed))
              (Editor.newTagName ed) (Editor.showTagInput ed) (Editor.showToolbar ed)
              (Editor.isInitializing ed).

(** The font size after a run of clicks on the size buttons. *)
Definition fontSizeAfter (deltas : list Z) (start : Z) : Z :=
  fold_left (fun size delta => handleFontSizeChange delta size) deltas start.

(** ** The confirmation dialog ([contexts/DialogContext.tsx], [Dialog]) *)

Inductive DialogVariant : Type := danger | default.

(** [DialogOptions]; the callback [onConfirm] acts on the store. *)
Record DialogOptions : Type := mkDialogOptions {
  dialogTitle : string;
  dialogMessage : string;
  confirmText : option string;
  cancelText : option string;
  variant : option DialogVariant;
  onConfirm : Store -> Store
}.

(** The state of [DialogProvider]: [null], or the options with [isOpen]. *)
Definition DialogState : Type := option (DialogOptions * bool).

Definition showDialog (options : DialogOptions) (d : DialogState) : DialogState :=
  Some (options, true).

Definition closeDialog (d : DialogState) : DialogState := None.

(** [handleConfirm] of [Dialog]: [onConfirm()] then [onClose()].  The dialog
    renders, and so offers its buttons, only when it is open. *)
Definition handleConfirm (d : DialogState) (st : Store) : DialogState * Store :=
  match d with
  | Some (options, true) => (closeDialog d, onConfirm options st)
  | _ => (d, st)
  end.

(** The Cancel button, the Escape key and a click on the backdrop: each
    calls [onClose] when the dialog is open. *)
Definition handleCancel (d : DialogState) (st : Store) : DialogState * Store :=
  match d with
  | Some (_, true) => (closeDialog d, st)
  | _ => (d, st)
  end.

(** [handleDeleteNote] of [Editor]: a closure over [selectedNote] and
    [deleteNote], itself a closure over [selectedNoteId]. *)
Definition handleDeleteNote (st_r : Store) (d : DialogState) : DialogState :=
  match selectedNote st_r with
  | Some note =>
      showDialog
        (mkDialogOptions "Delete Note" "Delete this note?" (Some "Delete") (Some "Cancel")
           (Some danger) (deleteNote (selectedNoteId st_r) (Note.id note)))
        d
  | None => d
  end.

(** ** The effects of the providers *)

(** The three effects "Save to localStorage whenever data changes" of
    [NotesProvider], in the order of the source, for the state of one
    render. *)
Definition saveEffects (st : Store) (env : Browser) : Browser :=
  let env1 := if window_defined env then saveNotes (notes st) env else env in
  let env2 := if window_defined env1 then saveFolders (folders st) env1 else env1 in
  if window_defined env2 then saveTags (tags st) env2 else env2.

(** Mounting [NotesProvider]: the first commit runs the load effect and then
    the save effects of the initial, empty state; the state set by the load
    is rendered next and its save effects run.  When the load throws, the
    error leaves the effect and nothing further is modelled. *)
Definition mount (env : Browser) : outcome (Store * Browser) :=
  bind (hydrate env emptyStore) (fun loaded =>
    Return (loaded, saveEffects loaded (saveEffects emptyStore env))).

Definition themeName (t : Theme) : string :=
  match t with
  | dark => "dark"
  | light => "light"
  end.

(** [toggleTheme]: the updater given to [setTheme]. *)
Definition toggleTheme (prev : Theme) : Theme :=
  match prev with
  | dark => light
  | light => dark
  end.

(** The effect of [ThemeProvider] that stores the theme (its changes to
    the document's class list are left out). *)
Definition saveThemeEffect (theme : Theme) (env : Browser) : Browser :=
  if negb (window_defined env) then env
  else storage_set THEME_STORAGE_KEY (JStr (themeName theme)) env.

Definition wellFormedFolder (f : Folder.t) : Prop := safeInteger (Folder.createdAt f).

(** The numeric fields of the collections are integers that a JavaScript
    number holds exactly. *)
Definition wellFormedStore (st : Store) : Prop :=
  Forall wellFormedNote (notes st) /\ Forall wellFormedFolder (folders st).

(** ** The sidebar ([components/Sidebar.tsx]) *)

(** A [Set<string>] as the list of its values in insertion order, each
    held once. *)
Definition Set_has (x : string) (s : list string) : bool :=
  existsb (String.eqb x) s.

Definition Set_add (x : string) (s : list string) : list string :=
  if Set_has x s then s else s ++ [x].

Definition Set_delete (x : string) (s : list string) : list string :=
  filter (fun y => negb (String.eqb y x)) s.

(** The local state of [Sidebar]. *)
Module Sidebar.
Record t : Type := make {
  expandedFolders : list string;
  showDropdown : bool;
  editingFolderId : option string;
  editingFolderName : string
}.
End Sidebar.

Definition rootNotes (st : Store) : list Note.t := getNotesByFolder None st.

Definition rootFolders (st : Store) : list Folder.t :=
  filter (fun f => nullable_eqb (Folder.parentId f) None) (folders st).

(** [selectedFolderId ? getNotesByFolder(selectedFolderId) : rootNotes] *)
Definition notesToShow (st : Store) : list Note.t :=
  match selectedFolderId st with
  | Some f => if truthy f then getNotesByFolder (Some f) st else rootNotes st
  | None => rootNotes st
  end.

(** [handleCreateNote], a closure over [selectedFolderId]. *)
Definition handleCreateNote (selectedFolderId_r : option string)
    (t_id t_created t_updated : Z) (st : Store) : Note.t * Store :=
  createNote selectedFolderId_r t_id t_created t_updated st.

(** [handleNewNote] *)
Definition handleNewNote (selectedFolderId_r : option string)
    (t_id t_created t_updated : Z) (sb : Sidebar.t) (st : Store) : Sidebar.t * Store :=
  let (_, st') := handleCreateNote selectedFolderId_r t_id t_created t_updated st in
  (Sidebar.make (Sidebar.expandedFolders sb) false
                (Sidebar.editingFolderId sb) (Sidebar.editingFolderName sb),
   st').

(** [handleNewFolderClick], a closure over [selectedFolderId]; the focus it
    schedules is outside the state. *)
Definition handleNewFolderClick (selectedFolderId_r : option string)
    (t_id t_created : Z) (sb : Sidebar.t) (st : Store) : Sidebar.t * Store :=
  let (newFolder, st') := createFolder "New Folder" selectedFolderId_r t_id t_created st in
  (Sidebar.make (Set_add (Folder.id newFolder) (Sidebar.expandedFolders sb)) false
                (Some (Folder.id newFolder)) "New Folder",
   selectFolder (Some (Folder.id newFolder)) st').

(** The object literal [{ name: ... }]. *)
Definition onlyName (name : string) : PartialFolder.t :=
  PartialFolder.make None (Some name) None None.

(** [handleFolderNameSubmit(folderId)], a closure over [editingFolderName]
    and, through [deleteFolder], over [selectedFolderId]. *)
Definition handleFolderNameSubmit (editingFolderName_r : string)
    (selectedFolderId_r : option string) (folderId : string)
    (sb : Sidebar.t) (st : Store) : Sidebar.t * Store :=
  (Sidebar.make (Sidebar.expandedFolders sb) (Sidebar.showDropdown sb) None EmptyString,
   if truthy (trim editingFolderName_r)
   then updateFolder folderId (onlyName (trim editingFolderName_r)) st
   else deleteFolder selectedFolderId_r folderId st).

(** [handleFolderNameCancel(folderId)], a closure over [folders] and,
    through [deleteFolder], over [selectedFolderId]. *)
Definition handleFolderNameCancel (folders_r : list Folder.t)
    (selectedFolderId_r : option string) (folderId : string)
    (sb : Sidebar.t) (st : Store) : Sidebar.t * Store :=
  (Sidebar.make (Sidebar.expandedFolders sb) (Sidebar.showDropdown sb) None EmptyString,
   match find (fun f => String.eqb (Folder.id f) folderId) folders_r with
   | Some folder =>
       if String.eqb (Folder.name folder) "New Folder"
       then deleteFolder selectedFolderId_r folderId st
       else st
   | None => st
   end).

(** [toggleFolder(folderId)] *)
Definition toggleFolder (folderId : string) (sb : Sidebar.t) : Sidebar.t :=
  Sidebar.make
    (if Set_has folderId (Sidebar.expandedFolders sb)
     then Set_delete folderId (Sidebar.expandedFolders sb)
     else Set_add folderId (Sidebar.expandedFolders sb))
    (Sidebar.showDropdown sb) (Sidebar.editingFolderId sb) (Sidebar.editingFolderName sb).

(** [getNotePreview(content)] *)
Definition getNotePreview (content : string) : string :=
  let text := trim (replaceNewlines content) in
  if (50 <? String.length text)%nat
  then (String.substring 0 50 text ++ "...")%string
  else if truthy text then text else "No content".

Definition LINE_FEED : ascii := ascii_of_N 10.

(** ** The page ([app/page.tsx], [AppContent]) *)

Module App.
Record t : Type := make {
  isSidebarCollapsed : bool;
  isMobile : bool;
  isSidebarOpen : bool
}.
End App.

(** The three [useState] cells as first rendered. *)
Definition initialApp : App.t := App.make false false false.

(** [checkMobile], called on mount and on every resize, with the value
    [window.innerWidth] has then. *)
Definition checkMobile (innerWidth : Z) (app : App.t) : App.t :=
  App.make (App.isSidebarCollapsed app)
           (innerWidth <? 768)
           (if 768 <=? innerWidth then false else App.isSidebarOpen app).

Definition handleSidebarToggle (app : App.t) : App.t :=
  if App.isMobile app
  then App.make (App.isSidebarCollapsed app) (App.isMobile app) (negb (App.isSidebarOpen app))
  else App.make (negb (App.isSidebarCollapsed app)) (App.isMobile app) (App.isSidebarOpen app).

Definition handleSidebarClose (app : App.t) : App.t :=
  if App.isMobile app
  then App.make (App.isSidebarCollapsed app) (App.isMobile app) false
  else app.

(** The effect "Close sidebar when note is selected on mobile" of
    [Sidebar], with [onClose] bound to [handleSidebarClose]. *)
Definition closeOnSelect (st : Store) (app : App.t) : App.t :=
  match selectedNoteId st with
  | Some sel => if App.isMobile app && truthy sel then handleSidebarClose app else app
  | None => app
  end.

(** What happens to the page: the window is resized, one of the two
    buttons bound to [onToggle] is clicked, the overlay is clicked, or a
    render with the given store runs the effect of the sidebar. *)
Inductive PageEvent : Type :=
  | Resize (innerWidth : Z)
  | ToggleClick
  | OverlayClick
  | SelectionRendered (st : Store).

Definition pageStep (app : App.t) (e : PageEvent) : App.t :=
  match e with
  | Resize w => checkMobile w app
  | ToggleClick => handleSidebarToggle app
  | OverlayClick => handleSidebarClose app
  | SelectionRendered st => closeOnSelect st app
  end.

(** The page after the effect of the mount, which calls [checkMobile], and
    the events that follow. *)
Definition pageAfter (innerWidth : Z) (events : list PageEvent) : App.t :=
  fold_left pageStep events (checkMobile innerWidth initialApp).

(** The overlay and the drawer are shown. *)
Definition overlayShown (app : App.t) : bool :=
  App.isMobile app && App.isSidebarOpen app.

(** * Properties *)

(** Case analysis on the eight bits of a character. *)
Ltac each_char c := destruct c as [[|] [|] [|] [|] [|] [|] [|] [|]].

(** ** Strings and nullable identifiers *)

Lemma nullable_eqb_Some_true (o : option string) (id : string) :
  nullable_eqb o (Some id) = true <-> o = Some id.
Proof.
  destruct o as [x|]; simpl.
  - rewrite String.eqb_eq. split; congruence.
  - split; discriminate.
Qed.

Lemma nullable_eqb_Some_false (o : option string) (id : string) :
  nullable_eqb o (Some id) = false <-> o <> Some id.
Proof.
  rewrite <- nullable_eqb_Some_true.
  destruct (nullable_eqb o (Some id)); split; congruence.
Qed.

Lemma toString_inj (a b : Z) : toString a = toString b -> a = b.
Proof.
  unfold toString. intros H.
  apply DecimalZ.to_int_inj.
  assert (Hnz : forall z, Z.to_int z <> Pos Nil /\ Z.to_int z <> Neg Nil).
  { intros [|p|p]; simpl; split; try discriminate;
      intros [= E]; exact (DecimalPos.Unsigned.to_uint_nonnil p E). }
  assert (Ha := NilZero.isi (Z.to_int a) (proj1 (Hnz a)) (proj2 (Hnz a))).
  assert (Hb := NilZero.isi (Z.to_int b) (proj1 (Hnz b)) (proj2 (Hnz b))).
  rewrite H in Ha. congruence.
Qed.

(** ** Maps and filters that change nothing *)

Lemma map_unchanged {A : Type} (f : A -> A) (l : list A) :
  (forall a, In a l -> f a = a) -> map f l = l.
Proof.
  induction l as [|a l IH]; simpl; intros H; [reflexivity|].
  rewrite H by (left; reflexivity).
  rewrite IH by (intros b Hb; apply H; right; exact Hb).
  reflexivity.
Qed.

Lemma filter_unchanged {A : Type} (p : A -> bool) (l : list A) :
  (forall a, In a l -> p a = true) -> filter p l = l.
Proof.
  induction l as [|a l IH]; simpl; intros H; [reflexivity|].
  rewrite H by (left; reflexivity).
  rewrite IH by (intros b Hb; apply H; right; exact Hb).
  reflexivity.
Qed.

Lemma Forall2_map_r {A : Type} (R : A -> A -> Prop) (f : A -> A) (l : list A) :
  (forall a, In a l -> R a (f a)) -> Forall2 R l (map f l).
Proof.
  induction l as [|a l IH]; simpl; intros H; constructor.
  - apply H. left. reflexivity.
  - apply IH. intros b Hb. apply H. right. exact Hb.
Qed.


(** ** Projections of the store through each operation *)

Lemma notes_deleteFolder sel id st :
  notes (deleteFolder sel id st) =
  map (fun note => if nullable_eqb (Note.folderId note) (Some id)
                   then withFolderId note None else note) (notes st).
Proof. unfold deleteFolder. destruct (nullable_eqb sel (Some id)); reflexivity. Qed.

Lemma folders_deleteFolder sel id st :
  folders (deleteFolder sel id st) =
  filter (fun folder => negb (String.eqb (Folder.id folder) id)) (folders st).
Proof. unfold deleteFolder. destruct (nullable_eqb sel (Some id)); reflexivity. Qed.

Lemma tags_deleteFolder sel id st :
  tags (deleteFolder sel id st) = tags st.
Proof. unfold deleteFolder. destruct (nullable_eqb sel (Some id)); reflexivity. Qed.

Lemma notes_deleteNote sel id st :
  notes (deleteNote sel id st) =
  filter (fun note => negb (String.eqb (Note.id note) id)) (notes st).
Proof. unfold deleteNote. destruct (nullable_eqb sel (Some id)); reflexivity. Qed.

Lemma folders_deleteNote sel id st : folders (deleteNote sel id st) = folders st.
Proof. unfold deleteNote. destruct (nullable_eqb sel (Some id)); reflexivity. Qed.

Lemma tags_deleteNote sel id st : tags (deleteNote sel id st) = tags st.
Proof. unfold deleteNote. destruct (nullable_eqb sel (Some id)); reflexivity. Qed.

(** ** Deleting a folder *)

(** C1.  For every folder [F] of the store, after [deleteFolder(F.id)] no
    note has [folderId] equal to [F.id]; position by position, a note that
    referred to [F] is the same note with [folderId] null and every other
    note is unchanged; the number of notes is the same; and [F] is gone from
    the folders.  This holds whatever selection the closure captured. *)
Theorem deleteFolder_moves_notes_to_root :
  forall (st : Store) (sel : option string) (F : Folder.t),
    In F (folders st) ->
    let st' := deleteFolder sel (Folder.id F) st in
    (forall n, In n (notes st') -> Note.folderId n <> Some (Folder.id F)) /\
    Forall2 (fun old new =>
               (Note.folderId old = Some (Folder.id F) ->
                  Note.folderId new = None /\ new = withFolderId old None) /\
               (Note.folderId old <> Some (Folder.id F) -> new = old))
            (notes st) (notes st') /\
    List.length (notes st') = List.length (notes st) /\
    ~ In F (folders st').
Proof.
  intros st sel F HF st'. subst st'.
  rewrite notes_deleteFolder, folders_deleteFolder.
  repeat split.
  - intros n Hn. apply in_map_iff in Hn. destruct Hn as [m [Hm _]].
    destruct (nullable_eqb (Note.folderId m) (Some (Folder.id F))) eqn:E.
    + subst n. simpl. discriminate.
    + subst n. apply nullable_eqb_Some_false. exact E.
  - apply Forall2_map_r. intros n _. split.
    + intros Hn. apply nullable_eqb_Some_true in Hn. rewrite Hn. split; reflexivity.
    + intros Hn. apply nullable_eqb_Some_false in Hn. rewrite Hn. reflexivity.
  - apply length_map.
  - intros Hin. apply filter_In in Hin. destruct Hin as [_ Hneq].
    rewrite String.eqb_refl in Hneq. discriminate.
Qed.

Lemma deleteFolder_moves_notes_to_root_witness :
  let F := Folder.make "7" "Drafts" None 7 in
  let a := Note.make "8" "Essay" "" (Some "7") [] 8 9 16 in
  let b := Note.make "9" "Todo" "" None [] 9 9 16 in
  let st := mkStore [a; b] [F] [] None (Some "7") in
  In F (folders st) /\
  notes (deleteFolder (Some "7") "7" st) = [withFolderId a None; b] /\
  List.length (notes (deleteFolder (Some "7") "7" st)) = List.length (notes st).
Proof.
  intros F a b st.
  assert (H : In F (folders st)) by (left; reflexivity).
  split; [exact H|].
  split; [reflexivity|].
  exact (proj1 (proj2 (proj2
    (deleteFolder_moves_notes_to_root st (Some "7") F H)))).
Defined.

(** ** Deleting a tag *)


Lemma find_tag_by_unique_id (ts : list Tag.t) (T : Tag.t) :
  In T ts -> NoDup (map Tag.id ts) ->
  find (fun t => String.eqb (Tag.id t) (Tag.id T)) ts = Some T.
Proof.
  induction ts as [|a ts IH]; simpl; intros Hin Hnd; [contradiction|].
  inversion Hnd as [|? ? Hnotin Hnd']; subst.
  destruct Hin as [->|Hin].
  - rewrite String.eqb_refl. reflexivity.
  - destruct (String.eqb (Tag.id a) (Tag.id T)) eqn:E.
    + apply String.eqb_eq in E. exfalso. apply Hnotin. rewrite E.
      apply in_map. exact Hin.
    + apply IH; assumption.
Qed.

Lemma notes_deleteTag_found (ts : list Tag.t) (id : string) (T : Tag.t) (st : Store) :
  find (fun t => String.eqb (Tag.id t) id) ts = Some T ->
  notes (deleteTag ts id st) =
  map (fun note =>
         withTags note
           (filter (fun x => negb (String.eqb x (Tag.name T))) (Note.tags note)))
      (notes st).
Proof. intros H. unfold deleteTag. simpl. rewrite H. reflexivity. Qed.

(** In a store whose tag ids are pairwise distinct, for every tag [T] of
    the store, after [deleteTag(T.id)] no note's [tags] contains [T.name];
    position by position, each note is the same note whose [tags] is the
    former list with the occurrences of [T.name] filtered out, so every
    other name stays, in the same relative order; and the tag collection
    keeps exactly the tags other than [T]. *)
Theorem deleteTag_strips_name_from_notes :
  forall (st : Store) (T : Tag.t),
    In T (tags st) ->
    NoDup (map Tag.id (tags st)) ->
    let st' := dispatch (DeleteTag (Tag.id T)) st in
    (forall n, In n (notes st') -> ~ In (Tag.name T) (Note.tags n)) /\
    Forall2 (fun old new =>
               new = withTags old (Note.tags new) /\
               Note.tags new =
               filter (fun x => negb (String.eqb x (Tag.name T))) (Note.tags old))
            (notes st) (notes st') /\
    (forall t, In t (tags st') <-> In t (tags st) /\ t <> T).
Proof.
  intros st T HT Hnd st'. subst st'.
  change (dispatch (DeleteTag (Tag.id T)) st) with (deleteTag (tags st) (Tag.id T) st).
  pose proof (find_tag_by_unique_id (tags st) T HT Hnd) as Hfind.
  rewrite (notes_deleteTag_found _ _ _ _ Hfind).
  assert (Htags : tags (deleteTag (tags st) (Tag.id T) st) =
                  filter (fun tag => negb (String.eqb (Tag.id tag) (Tag.id T))) (tags st))
    by reflexivity.
  rewrite Htags. clear Htags.
  split; [|split].
  - intros n Hn Hin. apply in_map_iff in Hn. destruct Hn as [m [<- _]].
    simpl in Hin. apply filter_In in Hin. destruct Hin as [_ Hneq].
    rewrite String.eqb_refl in Hneq. discriminate.
  - apply Forall2_map_r. intros n _. split; reflexivity.
  - intros t. rewrite filter_In. split.
    + intros [Hin Hneq]. split; [exact Hin|].
      intros ->. rewrite String.eqb_refl in Hneq. discriminate.
    + intros [Hin Hneq]. split; [exact Hin|].
      destruct (String.eqb (Tag.id t) (Tag.id T)) eqn:E; [|reflexivity].
      exfalso. apply Hneq. apply String.eqb_eq in E.
      pose proof (find_tag_by_unique_id (tags st) t Hin Hnd) as Ht.
      rewrite E in Ht. congruence.
Qed.

Lemma deleteTag_strips_name_from_notes_witness :
  let T := Tag.make "3" "work" None in
  let U := Tag.make "4" "home" None in
  let a := Note.make "8" "Essay" "" None ["home"; "work"; "idea"] 8 9 16 in
  let st := mkStore [a] [] [T; U] None None in
  In T (tags st) /\ NoDup (map Tag.id (tags st)) /\
  map Note.tags (notes (dispatch (DeleteTag "3") st)) = [["home"; "idea"]] /\
  forall n, In n (notes (dispatch (DeleteTag "3") st)) -> ~ In "work" (Note.tags n).
Proof.
  intros T U a st.
  assert (H1 : In T (tags st)) by (left; reflexivity).
  assert (H2 : NoDup (map Tag.id (tags st))).
  { simpl. repeat constructor; simpl; intuition discriminate. }
  split; [exact H1|]. split; [exact H2|]. split; [reflexivity|].
  exact (proj1 (deleteTag_strips_name_from_notes st T H1 H2)).
Defined.

(** C6.  [deleteTag(id)] strips from the notes the name of the first tag of
    that id, which [tags.find] returns, and removes every tag of that id.
    So when a tag [T] of the store comes after a tag of the same id and
    another name, as after two [createTag] calls in one millisecond,
    [deleteTag(T.id)] removes [T] and that earlier tag, strips the earlier
    tag's name from every note, and leaves [T.name] on every note that
    carried it. *)
Theorem deleteTag_keeps_name_of_later_tag_of_the_id :
  forall (st : Store) (T first : Tag.t),
    In T (tags st) ->
    find (fun t => String.eqb (Tag.id t) (Tag.id T)) (tags st) = Some first ->
    Tag.name first <> Tag.name T ->
    let st' := dispatch (DeleteTag (Tag.id T)) st in
    (forall t, In t (tags st') <-> In t (tags st) /\ Tag.id t <> Tag.id T) /\
    ~ In T (tags st') /\
    ~ In first (tags st') /\
    Forall2 (fun old new =>
               new = withTags old (Note.tags new) /\
               Note.tags new =
               filter (fun x => negb (String.eqb x (Tag.name first))) (Note.tags old))
            (notes st) (notes st') /\
    (forall n, In n (notes st) -> In (Tag.name T) (Note.tags n) ->
       exists n', In n' (notes st') /\ Note.id n' = Note.id n /\
                  In (Tag.name T) (Note.tags n')).
Proof.
  intros st T first HT Hfind Hne st'. subst st'.
  change (dispatch (DeleteTag (Tag.id T)) st) with (deleteTag (tags st) (Tag.id T) st).
  rewrite (notes_deleteTag_found _ _ _ _ Hfind).
  assert (Htags : tags (deleteTag (tags st) (Tag.id T) st) =
                  filter (fun tag => negb (String.eqb (Tag.id tag) (Tag.id T))) (tags st))
    by reflexivity.
  rewrite Htags. clear Htags.
  assert (Hiff : forall t,
             In t (filter (fun tag => negb (String.eqb (Tag.id tag) (Tag.id T))) (tags st))
             <-> In t (tags st) /\ Tag.id t <> Tag.id T).
  { intros t. rewrite filter_In. split; intros [Hin Hid]; (split; [exact Hin|]).
    - intros E. rewrite E, String.eqb_refl in Hid. discriminate Hid.
    - apply String.eqb_neq in Hid. rewrite Hid. reflexivity. }
  split; [exact Hiff|]. split; [|split; [|split]].
  - intros H. apply Hiff in H. destruct H as [_ H]. apply H. reflexivity.
  - intros H. apply Hiff in H. destruct H as [_ H]. apply H.
    apply find_some in Hfind. destruct Hfind as [_ E]. apply String.eqb_eq in E.
    exact E.
  - apply Forall2_map_r. intros n _. split; reflexivity.
  - intros n Hn Hin.
    exists (withTags n (filter (fun x => negb (String.eqb x (Tag.name first)))
                               (Note.tags n))).
    split; [|split].
    + apply in_map_iff. exists n. split; [reflexivity | exact Hn].
    + reflexivity.
    + simpl. apply filter_In. split; [exact Hin|].
      destruct (String.eqb (Tag.name T) (Tag.name first)) eqn:E; [|reflexivity].
      apply String.eqb_eq in E. exfalso. apply Hne. symmetry. exact E.
Qed.

Lemma deleteTag_keeps_name_of_later_tag_of_the_id_witness :
  let acts := [CreateTag "a" 5; CreateTag "b" 5; CreateNote None 6 6 6;
               UpdateNote "6" (onlyTags ["a"; "b"]) 7] in
  let st := run acts emptyStore in
  let A := Tag.make "5" "a" None in
  let T := Tag.make "5" "b" None in
  tags st = [A; T] /\
  map Note.tags (notes st) = [["a"; "b"]] /\
  (In T (tags st) /\
   find (fun t => String.eqb (Tag.id t) (Tag.id T)) (tags st) = Some A /\
   Tag.name A <> Tag.name T) /\
  tags (dispatch (DeleteTag "5") st) = [] /\
  map Note.tags (notes (dispatch (DeleteTag "5") st)) = [["b"]] /\
  ~ In T (tags (dispatch (DeleteTag (Tag.id T)) st)).
Proof.
  intros acts st A T.
  assert (H1 : In T (tags st)) by (right; left; reflexivity).
  assert (H2 : find (fun t => String.eqb (Tag.id t) (Tag.id T)) (tags st) = Some A)
    by reflexivity.
  assert (H3 : Tag.name A <> Tag.name T) by discriminate.
  split; [reflexivity|]. split; [reflexivity|].
  split; [repeat split; assumption|].
  split; [reflexivity|]. split; [reflexivity|].
  exact (proj1 (proj2 (deleteTag_keeps_name_of_later_tag_of_the_id st T A H1 H2 H3))).
Defined.

(** ** Operations on an id that matches nothing *)








(** ** Creating a tag *)


Lemma find_match_none name (ts : list Tag.t) :
  (forall t, In t ts -> ~ sameNameIgnoringCase name t) ->
  find (fun t => String.eqb (toLowerCase (Tag.name t)) (toLowerCase name)) ts = None.
Proof.
  intros H. destruct (find _ ts) as [T'|] eqn:E; [|reflexivity].
  apply find_some in E. destruct E as [Hin Heq]. apply String.eqb_eq in Heq.
  exfalso. exact (H T' Hin Heq).
Qed.

Lemma find_app_none {A : Type} (p : A -> bool) (l1 l2 : list A) :
  find p l1 = None -> find p (l1 ++ l2) = find p l2.
Proof.
  induction l1 as [|a l1 IH]; simpl; [reflexivity|].
  destruct (p a); [discriminate|exact IH].
Qed.

Lemma createTag_found (ts : list Tag.t) name now st (T : Tag.t) :
  find (fun t => String.eqb (toLowerCase (Tag.name t)) (toLowerCase name)) ts = Some T ->
  createTag ts name now st = (T, st).
Proof. intros H. unfold createTag. rewrite H. reflexivity. Qed.

Lemma createTag_fresh (ts : list Tag.t) name now st :
  find (fun t => String.eqb (toLowerCase (Tag.name t)) (toLowerCase name)) ts = None ->
  createTag ts name now st =
  (Tag.make (toString now) name None,
   setTags (fun prev => prev ++ [Tag.make (toString now) name None]) st).
Proof. intros H. unfold createTag. rewrite H. reflexivity. Qed.



(** C5, as stated, fails: when a matching tag is already stored, the two
    calls add nothing. *)
Lemma createTag_twice_may_add_nothing :
  let st := run [CreateTag "WORK" 1] emptyStore in
  let r1 := createTag (tags st) "Work" 2 st in
  let r2 := createTag (tags (snd r1)) "work" 3 (snd r1) in
  toLowerCase "Work" = toLowerCase "work" /\
  List.length (tags (snd r2)) <> (List.length (tags st) + 1)%nat.
Proof.
  split; [reflexivity|]. simpl. discriminate.
Qed.

(** C5, amended.  For two names equal up to letter case, [createTag] with
    the first and then, on the resulting store, with the second returns the
    same tag both times; the tag collection grows by exactly one when no
    stored tag matched the name, is unchanged when one did, and in no case
    grows by two. *)
Theorem createTag_twice_same_tag :
  forall (st : Store) (name1 name2 : string) (now1 now2 : Z),
    toLowerCase name1 = toLowerCase name2 ->
    let r1 := createTag (tags st) name1 now1 st in
    let r2 := createTag (tags (snd r1)) name2 now2 (snd r1) in
    fst r2 = fst r1 /\
    Tag.id (fst r2) = Tag.id (fst r1) /\
    ((forall t, In t (tags st) -> ~ sameNameIgnoringCase name1 t) ->
       tags (snd r2) = tags st ++ [fst r1] /\
       List.length (tags (snd r2)) = (List.length (tags st) + 1)%nat) /\
    ((exists t, In t (tags st) /\ sameNameIgnoringCase name1 t) ->
       snd r2 = st) /\
    (List.length (tags (snd r2)) <= List.length (tags st) + 1)%nat.
Proof.
  intros st name1 name2 now1 now2 Hcase r1 r2.
  assert (Hmain :
    fst r2 = fst r1 /\
    ((forall t, In t (tags st) -> ~ sameNameIgnoringCase name1 t) ->
       tags (snd r2) = tags st ++ [fst r1]) /\
    ((exists t, In t (tags st) /\ sameNameIgnoringCase name1 t) -> snd r2 = st) /\
    (List.length (tags (snd r2)) <= List.length (tags st) + 1)%nat).
  { subst r1 r2.
    destruct (find (fun t => String.eqb (toLowerCase (Tag.name t)) (toLowerCase name1))
                   (tags st)) as [T|] eqn:E1.
    - rewrite (createTag_found _ _ now1 st _ E1). simpl.
      rewrite Hcase in E1. rewrite (createTag_found _ _ now2 st _ E1). simpl.
      split; [reflexivity|]. split; [|split; [reflexivity|lia]].
      intros Hnone. exfalso. apply find_some in E1. destruct E1 as [Hin Heq].
      apply String.eqb_eq in Heq. rewrite <- Hcase in Heq. exact (Hnone T Hin Heq).
    - rewrite (createTag_fresh _ _ now1 st E1). simpl.
      assert (E2 : find (fun t => String.eqb (toLowerCase (Tag.name t)) (toLowerCase name2))
                     (tags st ++ [Tag.make (toString now1) name1 None])
                   = Some (Tag.make (toString now1) name1 None)).
      { rewrite <- Hcase. rewrite (find_app_none _ _ _ E1). simpl.
        rewrite String.eqb_refl. reflexivity. }
      rewrite (createTag_found _ _ now2 _ _ E2). simpl.
      split; [reflexivity|]. split; [reflexivity|]. split.
      + intros [t [Hin Hm]]. exfalso. apply (find_none _ _ E1) in Hin.
        unfold sameNameIgnoringCase in Hm. rewrite Hm, String.eqb_refl in Hin.
        discriminate.
      + rewrite length_app. simpl. lia. }
  destruct Hmain as [H1 [H2 [H3 H4]]].
  split; [exact H1|]. split; [rewrite H1; reflexivity|].
  split; [|split; [exact H3|exact H4]].
  intros Hnone. split; [exact (H2 Hnone)|].
  rewrite (H2 Hnone), length_app. reflexivity.
Qed.

Lemma createTag_twice_same_tag_witness :
  let r1 := createTag (tags emptyStore) "Work" 5 emptyStore in
  let r2 := createTag (tags (snd r1)) "work" 6 (snd r1) in
  toLowerCase "Work" = toLowerCase "work" /\
  fst r2 = fst r1 /\
  tags (snd r2) = [Tag.make "5" "Work" None].
Proof.
  intros r1 r2.
  assert (H : toLowerCase "Work" = toLowerCase "work") by reflexivity.
  split; [exact H|].
  split; [exact (proj1 (createTag_twice_same_tag emptyStore "Work" "work" 5 6 H))|].
  reflexivity.
Defined.

(** A remark on stale closures: when the second call goes through the
    callback of the same render as the first, it still sees the tag list
    captured before the insertion and inserts a second tag. *)
Remark createTag_same_render_inserts_twice :
  let r1 := createTag (tags emptyStore) "Work" 5 emptyStore in
  let r2 := createTag (tags emptyStore) "work" 6 (snd r1) in
  tags (snd r2) = [Tag.make "5" "Work" None; Tag.make "6" "work" None].
Proof. reflexivity. Qed.

(** ** Font size *)

(** C4, as stated, fails: [updateNote] stores the font size it is given. *)
Lemma updateNote_stores_fontSize_unclamped :
  let st := run [CreateNote None 1 1 1] emptyStore in
  let below := dispatch (UpdateNote "1" (onlyFontSize 5) 2) st in
  let above := dispatch (UpdateNote "1" (onlyFontSize 100) 2) st in
  map Note.id (notes st) = ["1"] /\
  5 < MIN_FONT_SIZE /\
  map Note.fontSize (notes below) = [5] /\
  map Note.fontSize (notes below) <> [MIN_FONT_SIZE] /\
  MAX_FONT_SIZE < 100 /\
  map Note.fontSize (notes above) = [100] /\
  map Note.fontSize (notes above) <> [MAX_FONT_SIZE].
Proof. repeat split; discriminate. Qed.

Lemma updateNote_fontSize id fs now st :
  Forall2 (fun old new =>
             (Note.id old = id -> Note.fontSize new = fs /\ Note.id new = id) /\
             (Note.id old <> id -> new = old))
          (notes st) (notes (updateNote id (onlyFontSize fs) now st)).
Proof.
  unfold updateNote. simpl. apply Forall2_map_r. intros n _. split.
  - intros <-. rewrite String.eqb_refl. split; reflexivity.
  - intros Hn. apply String.eqb_neq in Hn. rewrite Hn. reflexivity.
Qed.

(** C4, amended.  The clamp is in the editor: [handleFontSizeChange(delta)]
    turns the current size plus [delta] into the nearest value of [12, 48]
    (12 below the range, 48 above it, the sum itself inside it), and the
    auto-save effect, when a note is selected and the editor is not
    initialising, stores that value in the selected note, leaving the other
    notes as they were.  [updateNote] itself stores the font size it is
    given, whatever it is. *)
Theorem fontSize_clamped_by_editor :
  forall (prev delta : Z),
    let requested := prev + delta in
    let fontSize := handleFontSizeChange delta prev in
    (requested < 12 -> fontSize = 12) /\
    (48 < requested -> fontSize = 48) /\
    (12 <= requested <= 48 -> fontSize = requested) /\
    (forall (st : Store) (sel : string) (now : Z) (n : Note.t),
        selectedNoteId st = Some sel ->
        sel <> EmptyString ->
        In n (notes st) ->
        Note.id n = sel ->
        Forall2 (fun old new =>
                   (Note.id old = sel -> Note.fontSize new = fontSize /\ Note.id new = sel) /\
                   (Note.id old <> sel -> new = old))
                (notes st) (notes (autoSaveFontSize fontSize false now st))) /\
    (forall (st : Store) (id : string) (requestedSize now : Z),
        Forall2 (fun old new =>
                   (Note.id old = id -> Note.fontSize new = requestedSize /\ Note.id new = id) /\
                   (Note.id old <> id -> new = old))
                (notes st) (notes (dispatch (UpdateNote id (onlyFontSize requestedSize) now) st))).
Proof.
  intros prev delta requested fontSize.
  unfold fontSize, requested, handleFontSizeChange, MIN_FONT_SIZE, MAX_FONT_SIZE.
  split; [lia|]. split; [lia|]. split; [lia|]. split.
  - intros st sel now n Hsel Hne Hin Hid.
    unfold autoSaveFontSize. rewrite Hsel.
    destruct sel as [|c sel']; [contradiction|]. simpl negb. cbv iota.
    destruct (find (fun m => String.eqb (Note.id m) (String c sel')) (notes st)) eqn:E.
    + apply updateNote_fontSize.
    + exfalso. apply (find_none _ _ E) in Hin. rewrite Hid, String.eqb_refl in Hin.
      discriminate.
  - intros st id requestedSize now. apply updateNote_fontSize.
Qed.

Lemma fontSize_clamped_by_editor_witness :
  let a := Note.make "8" "Essay" "" None [] 8 9 48 in
  let st := mkStore [a] [] [] (Some "8") None in
  12 + -2 < 12 /\
  handleFontSizeChange (-2) 12 = 12 /\
  48 < 48 + 2 /\
  handleFontSizeChange 2 48 = 48 /\
  (selectedNoteId st = Some "8" /\ "8" <> EmptyString /\ In a (notes st) /\ Note.id a = "8") /\
  Forall2 (fun old new =>
             (Note.id old = "8" ->
                Note.fontSize new = handleFontSizeChange 2 48 /\ Note.id new = "8") /\
             (Note.id old <> "8" -> new = old))
          (notes st) (notes (autoSaveFontSize (handleFontSizeChange 2 48) false 10 st)).
Proof.
  intros a st.
  assert (H1 : 12 + -2 < 12) by lia.
  assert (H2 : 48 < 48 + 2) by lia.
  assert (H3 : selectedNoteId st = Some "8") by reflexivity.
  assert (H4 : "8" <> EmptyString) by discriminate.
  assert (H5 : In a (notes st)) by (left; reflexivity).
  assert (H6 : Note.id a = "8") by reflexivity.
  split; [exact H1|].
  split; [exact (proj1 (fontSize_clamped_by_editor 12 (-2)) H1)|].
  split; [exact H2|].
  split; [exact (proj1 (proj2 (fontSize_clamped_by_editor 48 2)) H2)|].
  split; [repeat split; assumption|].
  exact (proj1 (proj2 (proj2 (proj2 (fontSize_clamped_by_editor 48 2))))
           st "8" 10 a H3 H4 H5 H6).
Defined.

(** ** Note ids *)

Lemma map_filter_comm {A B : Type} (f : A -> B) (p : B -> bool) (l : list A) :
  map f (filter (fun a => p (f a)) l) = filter p (map f l).
Proof.
  induction l as [|a l IH]; simpl; [reflexivity|].
  destruct (p (f a)); simpl; rewrite IH; reflexivity.
Qed.

Lemma map_map_same {A B : Type} (f : A -> B) (g : A -> A) (l : list A) :
  (forall a, f (g a) = f a) -> map f (map g l) = map f l.
Proof.
  intros H. rewrite map_map. apply map_ext. exact H.
Qed.

Lemma ids_dispatch (a : Action) (st : Store) :
  keepsId a = true ->
  map Note.id (notes (dispatch a st)) = idEffect a (map Note.id (notes st)).
Proof.
  destruct a as [f t1 t2 t3|id u now|id|id|nm p t1 t2|id u|id|id|nm now|id];
    simpl; intros Hk; try reflexivity.
  - rewrite map_app. reflexivity.
  - destruct u as [uid ? ? ? ? ? ? ?]. simpl in Hk.
    destruct uid; [discriminate|].
    apply map_map_same. intros n. destruct (String.eqb (Note.id n) id); reflexivity.
  - rewrite notes_deleteNote.
    apply (map_filter_comm Note.id (fun i => negb (String.eqb i id))).
  - rewrite notes_deleteFolder. apply map_map_same. intros n.
    destruct (nullable_eqb (Note.folderId n) (Some id)); reflexivity.
  - unfold createTag. destruct (find _ (tags st)); reflexivity.
  - unfold deleteTag. simpl. apply map_map_same. intros n. reflexivity.
Qed.

(** C8, as stated, fails: a partial-field map that mentions [id] renames the
    note. *)
Lemma updateNote_can_change_id :
  let st := run [CreateNote None 1 1 1] emptyStore in
  map Note.id (notes st) = ["1"] /\
  map Note.id (notes (dispatch (UpdateNote "1" (onlyId "2") 2) st)) = ["2"].
Proof. split; reflexivity. Qed.

(** C8, amended.  Along any sequence of store operations whose [updateNote]
    calls leave [id] out of their partial-field maps, the list of note ids
    changes only by the creation of a note, which appends the new id, and by
    the deletion of a note, which drops its id: every note that stays keeps
    its id and its place among the others. *)
Theorem note_ids_change_only_by_create_and_delete :
  forall (acts : list Action) (st : Store),
    forallb keepsId acts = true ->
    map Note.id (notes (run acts st)) =
    fold_left (fun ids a => idEffect a ids) acts (map Note.id (notes st)).
Proof.
  induction acts as [|a acts IH]; intros st Hk; [reflexivity|].
  simpl in Hk. apply andb_prop in Hk. destruct Hk as [Ha Hacts].
  simpl. unfold run in IH. rewrite IH by exact Hacts.
  rewrite ids_dispatch by exact Ha. reflexivity.
Qed.

Lemma note_ids_change_only_by_create_and_delete_witness :
  let acts := [CreateNote None 1 1 1; CreateNote None 2 2 2;
               UpdateNote "1" (onlyFontSize 20) 3; DeleteNote "1";
               CreateTag "work" 4; DeleteFolder "9"] in
  forallb keepsId acts = true /\
  map Note.id (notes (run acts emptyStore)) = ["2"].
Proof.
  intros acts.
  assert (H : forallb keepsId acts = true) by reflexivity.
  split; [exact H|].
  rewrite (note_ids_change_only_by_create_and_delete acts emptyStore H).
  reflexivity.
Defined.

(** ** Unique ids and ordered timestamps along a run *)

Lemma StronglySorted_app_inv {A : Type} (R : A -> A -> Prop) (l1 l2 : list A) :
  StronglySorted R (l1 ++ l2) ->
  StronglySorted R l1 /\ StronglySorted R l2 /\
  forall x y, In x l1 -> In y l2 -> R x y.
Proof.
  induction l1 as [|a l1 IH]; simpl; intros H.
  - repeat split; [constructor | exact H | intros x y []].
  - apply StronglySorted_inv in H. destruct H as [Hs Hall].
    destruct (IH Hs) as [H1 [H2 H12]].
    rewrite Forall_forall in Hall.
    repeat split.
    + constructor; [exact H1|]. apply Forall_forall. intros x Hx.
      apply Hall. apply in_or_app. left. exact Hx.
    + exact H2.
    + intros x y [<-|Hx] Hy.
      * apply Hall. apply in_or_app. right. exact Hy.
      * apply H12; assumption.
Qed.

Lemma distinct_ids_after_filter (keep : Note.t -> bool) (ns : list Note.t) :
  NoDup (map Note.id ns) -> NoDup (map Note.id (filter keep ns)).
Proof.
  intros Hnd. induction ns as [|n ns IH]; [constructor|].
  simpl in Hnd. apply NoDup_cons_iff in Hnd. destruct Hnd as [Hfresh Hnd].
  simpl. destruct (keep n); [|apply IH; exact Hnd].
  simpl. apply NoDup_cons_iff. split; [|apply IH; exact Hnd].
  intros Hin. apply Hfresh. apply in_map_iff in Hin.
  destruct Hin as [m [Hm Hin]]. apply filter_In in Hin.
  apply in_map_iff. exists m. tauto.
Qed.

Lemma aheadInvariant_map (I R R' : list Z) (g : Note.t -> Note.t) (st st' : Store) :
  notes st' = map g (notes st) ->
  (forall n, Note.id (g n) = Note.id n) ->
  (forall n, timesOrdered n ->
             (forall t, In t R -> Note.updatedAt n <= t) ->
             timesOrdered (g n) /\ forall t, In t R' -> Note.updatedAt (g n) <= t) ->
  aheadInvariant I R st -> aheadInvariant I R' st'.
Proof.
  intros Hn Hid Hg [Hnd [Hfresh Htimes]]. unfold aheadInvariant. rewrite Hn.
  split; [|split].
  - rewrite map_map_same by exact Hid. exact Hnd.
  - intros n t Hin Ht. apply in_map_iff in Hin. destruct Hin as [m [<- Hm]].
    rewrite Hid. apply Hfresh; assumption.
  - apply Forall_map. rewrite Forall_forall in *. intros n Hin.
    destruct (Htimes n Hin) as [Ho Hle]. apply Hg; assumption.
Qed.

Lemma aheadInvariant_filter (I R : list Z) (p : Note.t -> bool) (st st' : Store) :
  notes st' = filter p (notes st) ->
  aheadInvariant I R st -> aheadInvariant I R st'.
Proof.
  intros Hn [Hnd [Hfresh Htimes]]. unfold aheadInvariant. rewrite Hn.
  split; [|split].
  - apply distinct_ids_after_filter. exact Hnd.
  - intros n t Hin Ht. apply filter_In in Hin. apply Hfresh; tauto.
  - rewrite Forall_forall in *. intros n Hin. apply filter_In in Hin.
    apply Htimes. tauto.
Qed.

Lemma aheadInvariant_weaken (I I' R R' : list Z) (st : Store) :
  incl I' I -> incl R' R -> aheadInvariant I R st -> aheadInvariant I' R' st.
Proof.
  intros HI HR [Hnd [Hfresh Htimes]]. split; [exact Hnd|]. split.
  - intros n t Hin Ht. apply Hfresh; [exact Hin|]. apply HI. exact Ht.
  - rewrite Forall_forall in *. intros n Hin. destruct (Htimes n Hin) as [Ho Hle].
    split; [exact Ho|]. intros t Ht. apply Hle. apply HR. exact Ht.
Qed.

Lemma aheadInvariant_dispatch (a : Action) (I R : list Z) (st : Store) :
  keepsIdentity a = true ->
  NoDup (noteIdReading a ++ I) ->
  StronglySorted Z.le (readings a ++ R) ->
  aheadInvariant (noteIdReading a ++ I) (readings a ++ R) st ->
  aheadInvariant I R (dispatch a st).
Proof.
  intros Hk HndI Hsorted Hinv.
  assert (Hweak : aheadInvariant I R st).
  { revert Hinv. apply aheadInvariant_weaken; intros x Hx; apply in_or_app; right; exact Hx. }
  destruct (StronglySorted_app_inv _ _ _ Hsorted) as [Hsa [_ HaR]].
  destruct a as [f t1 t2 t3|id u now|id|id|nm p t1 t2|id u|id|id|nm now|id].
  - (* createNote *)
    simpl in *. destruct Hinv as [Hnd [Hfresh Htimes]].
    inversion HndI as [|? ? Ht1 HndI']; subst.
    unfold aheadInvariant. simpl. split; [|split].
    + rewrite map_app. simpl. apply NoDup_app; [exact Hnd | repeat constructor; intros [] |].
      intros i Hi [<-|[]]. apply in_map_iff in Hi. destruct Hi as [n [Hn Hin]].
      apply (Hfresh n t1 Hin); [left; reflexivity | exact Hn].
    + intros n t Hin Ht. apply in_app_or in Hin. destruct Hin as [Hin|[<-|[]]].
      * apply Hfresh; [exact Hin | right; exact Ht].
      * simpl. intros E. apply toString_inj in E. subst t. contradiction.
    + apply Forall_app. split.
      * destruct Hweak as [_ [_ Hw]]. exact Hw.
      * constructor; [|constructor]. unfold timesOrdered. simpl.
        apply StronglySorted_inv in Hsa. destruct Hsa as [Hsa _].
        apply StronglySorted_inv in Hsa. destruct Hsa as [_ H23].
        inversion H23; subst.
        split; [assumption|]. intros t Ht. apply HaR; [right; right; left; reflexivity|exact Ht].
  - (* updateNote *)
    simpl in Hk. destruct u as [uid ut uc uf ug uca uua ufs]. simpl in Hk.
    destruct uid; [discriminate|]. destruct uca; [discriminate|].
    revert Hinv. apply aheadInvariant_map with
      (g := fun note => if String.eqb (Note.id note) id
                        then withUpdatedAt
                               (spreadNote note
                                  (PartialNote.make None ut uc uf ug None uua ufs)) now
                        else note).
    + reflexivity.
    + intros n. destruct (String.eqb (Note.id n) id); reflexivity.
    + intros n Ho Hle. destruct (String.eqb (Note.id n) id).
      * unfold timesOrdered in *. simpl. split.
        -- specialize (Hle now). simpl in Hle. lia.
        -- intros t Ht. apply HaR; [left; reflexivity | exact Ht].
      * split; [exact Ho|]. intros t Ht. apply Hle. apply in_or_app. right. exact Ht.
  - (* deleteNote *)
    revert Hweak. apply aheadInvariant_filter with
      (p := fun note => negb (String.eqb (Note.id note) id)).
    simpl. apply notes_deleteNote.
  - exact Hweak.
  - exact Hweak.
  - exact Hweak.
  - (* deleteFolder *)
    revert Hweak. apply aheadInvariant_map with
      (g := fun note => if nullable_eqb (Note.folderId note) (Some id)
                        then withFolderId note None else note).
    + simpl. apply notes_deleteFolder.
    + intros n. destruct (nullable_eqb (Note.folderId n) (Some id)); reflexivity.
    + intros n Ho Hle.
      destruct (nullable_eqb (Note.folderId n) (Some id)); split; assumption.
  - exact Hweak.
  - (* createTag *)
    simpl. unfold createTag. destruct (find _ (tags st)); exact Hweak.
  - (* deleteTag *)
    revert Hweak. apply aheadInvariant_map with
      (g := fun note =>
              withTags note
                (filter (fun tagName =>
                           match find (fun t => String.eqb (Tag.id t) id) (tags st) with
                           | Some tag => negb (String.eqb tagName (Tag.name tag))
                           | None => true
                           end) (Note.tags note))).
    + reflexivity.
    + intros n. reflexivity.
    + intros n Ho Hle. split; assumption.
Qed.

Lemma aheadInvariant_run (acts : list Action) (st : Store) :
  forallb keepsIdentity acts = true ->
  NoDup (flat_map noteIdReading acts) ->
  StronglySorted Z.le (flat_map readings acts) ->
  aheadInvariant (flat_map noteIdReading acts) (flat_map readings acts) st ->
  notesWellFormed (run acts st).
Proof.
  revert st. induction acts as [|a acts IH]; intros st Hk HndI Hsorted Hinv.
  - destruct Hinv as [Hnd [_ Htimes]]. split; [exact Hnd|].
    simpl. rewrite Forall_forall in *. intros n Hn. apply (Htimes n Hn).
  - simpl in *. apply andb_prop in Hk. destruct Hk as [Ha Hacts].
    apply IH.
    + exact Hacts.
    + apply NoDup_app_remove_l in HndI. exact HndI.
    + apply StronglySorted_app_inv in Hsorted. tauto.
    + apply aheadInvariant_dispatch; assumption.
Qed.

(** A partial-field map may carry [id] and [createdAt], and [updateNote]
    merges them into the note: two notes then share an id and one has
    [createdAt] after [updatedAt]. *)
Lemma updateNote_can_break_note_invariant :
  let acts := [CreateNote None 1 1 1; CreateNote None 2 2 2;
               UpdateNote "2" (onlyIdAndCreatedAt "1" 100) 3] in
  map Note.id (notes (run acts emptyStore)) = ["1"; "1"] /\
  map (fun n => (Note.createdAt n, Note.updatedAt n)) (notes (run acts emptyStore))
    = [(1, 1); (100, 3)] /\
  ~ notesWellFormed (run acts emptyStore).
Proof.
  split; [reflexivity|]. split; [reflexivity|].
  intros [Hnd _]. simpl in Hnd. inversion Hnd as [|? ? Hnotin _]; subst.
  apply Hnotin. left. reflexivity.
Qed.

(** Start from the empty store and run any finite sequence of store
    operations (in particular of [createNote], [updateNote] and
    [deleteNote] calls) such that no [updateNote] mentions [id] or
    [createdAt] in its partial-field map, the clock values read for the ids
    of created notes are pairwise distinct, and the clock never goes
    backwards.  Then the notes of the resulting store have pairwise distinct
    ids and each satisfies [createdAt <= updatedAt]. *)
Theorem notes_stay_well_formed :
  forall (acts : list Action),
    forallb keepsIdentity acts = true ->
    NoDup (flat_map noteIdReading acts) ->
    StronglySorted Z.le (flat_map readings acts) ->
    notesWellFormed (run acts emptyStore).
Proof.
  intros acts Hk HndI Hsorted.
  apply aheadInvariant_run; try assumption.
  split; [constructor|]. split; [intros n t []|constructor].
Qed.

Lemma notes_stay_well_formed_witness :
  let acts := [CreateNote None 1 1 2; CreateNote (Some "7") 3 3 3;
               UpdateNote "1" (onlyFontSize 20) 3; DeleteNote "3";
               CreateNote None 4 5 5] in
  forallb keepsIdentity acts = true /\
  NoDup (flat_map noteIdReading acts) /\
  StronglySorted Z.le (flat_map readings acts) /\
  map Note.id (notes (run acts emptyStore)) = ["1"; "4"] /\
  notesWellFormed (run acts emptyStore).
Proof.
  intros acts.
  assert (H1 : forallb keepsIdentity acts = true) by reflexivity.
  assert (H2 : NoDup (flat_map noteIdReading acts)).
  { simpl. repeat constructor; simpl; intuition discriminate. }
  assert (H3 : StronglySorted Z.le (flat_map readings acts)).
  { simpl. repeat constructor; lia. }
  split; [exact H1|]. split; [exact H2|]. split; [exact H3|].
  split; [reflexivity|].
  exact (notes_stay_well_formed acts H1 H2 H3).
Defined.

(** A remark on ids made in the same millisecond: two [createNote] calls
    that read the same clock value produce two notes with the same id. *)
Remark createNote_twice_in_one_millisecond :
  map Note.id (notes (run [CreateNote None 5 5 5; CreateNote None 5 5 5] emptyStore))
  = ["5"; "5"].
Proof. reflexivity. Qed.

(** C3.  The id of a new note is the text of the clock value [createNote]
    reads, so two [createNote] calls within one millisecond, which read the
    same value, add two notes of one id to any store, the empty one
    included: no [updateNote] is involved, and the ids of the notes are not
    pairwise distinct. *)
Theorem createNote_in_one_millisecond_repeats_the_id :
  forall (st : Store) (f1 f2 : option string) (t c1 u1 c2 u2 : Z),
    let acts := [CreateNote f1 t c1 u1; CreateNote f2 t c2 u2] in
    forallb keepsIdentity acts = true /\
    map Note.id (notes (run acts st))
    = map Note.id (notes st) ++ [toString t; toString t] /\
    ~ NoDup (map Note.id (notes (run acts st))) /\
    ~ notesWellFormed (run acts st).
Proof.
  intros st f1 f2 t c1 u1 c2 u2 acts. subst acts.
  assert (Hids : map Note.id
                   (notes (run [CreateNote f1 t c1 u1; CreateNote f2 t c2 u2] st))
                 = map Note.id (notes st) ++ [toString t; toString t]).
  { simpl. rewrite !map_app, <- app_assoc. reflexivity. }
  assert (Hdup : ~ NoDup (map Note.id
                            (notes (run [CreateNote f1 t c1 u1; CreateNote f2 t c2 u2] st)))).
  { rewrite Hids. intros Hnd. apply NoDup_app_remove_l in Hnd.
    inversion Hnd as [|? ? Hnotin _]; subst. apply Hnotin. left. reflexivity. }
  split; [reflexivity|]. split; [exact Hids|]. split; [exact Hdup|].
  intros [Hnd _]. exact (Hdup Hnd).
Qed.

(** ** Serialising and parsing back *)

Lemma append_assoc (a b c : string) : ((a ++ b) ++ c = a ++ (b ++ c))%string.
Proof. induction a as [|x a IH]; simpl; [reflexivity | rewrite IH; reflexivity]. Qed.

Lemma append_nil_r (a : string) : (a ++ EmptyString)%string = a.
Proof. induction a as [|x a IH]; simpl; [reflexivity | rewrite IH; reflexivity]. Qed.

Lemma length_append (a b : string) :
  String.length (a ++ b)%string = (String.length a + String.length b)%nat.
Proof. induction a as [|x a IH]; simpl; [reflexivity | rewrite IH; reflexivity]. Qed.

(** *** String literals *)

Lemma parse_chars_quote_char (c : ascii) (s : string) :
  parse_chars (quote_char c ++ s)%string =
  bind (parse_chars s) (fun '(str, rest) => Return (String c str, rest)).
Proof.
  each_char c; reflexivity.
Qed.

Lemma parse_chars_quote_body (s rest : string) :
  parse_chars (quote_body s ++ String DQUOTE rest)%string = Return (s, rest).
Proof.
  induction s as [|c s IH]; [reflexivity|].
  simpl quote_body. rewrite append_assoc, parse_chars_quote_char, IH. reflexivity.
Qed.

(** *** Numbers *)

Lemma read_digits_boundary (rest : string) :
  endsNumber rest = true -> read_digits rest = (Nil, rest).
Proof.
  destruct rest as [|c rest]; [reflexivity|]. simpl.
  destruct (digit_of_char c); [discriminate | reflexivity].
Qed.

Lemma read_digits_string_of_uint (d : uint) (rest : string) :
  endsNumber rest = true ->
  read_digits (NilEmpty.string_of_uint d ++ rest)%string = (d, rest).
Proof.
  intros Hrest.
  induction d as [|d IH|d IH|d IH|d IH|d IH|d IH|d IH|d IH|d IH|d IH];
    [apply read_digits_boundary; exact Hrest | ..];
    cbn [NilEmpty.string_of_uint append read_digits];
    rewrite IH; reflexivity.
Qed.

Lemma to_uint_normal (p : positive) : unorm (Pos.to_uint p) = Pos.to_uint p.
Proof.
  change (Pos.to_uint p) with (N.to_uint (Npos p)).
  rewrite <- (DecimalN.Unsigned.of_to (Npos p)) at 2.
  symmetry. apply DecimalN.Unsigned.to_of.
Qed.

Lemma to_uint_head_nonzero (p : positive) (d : uint) : Pos.to_uint p <> D0 d.
Proof.
  intros E. pose proof (to_uint_normal p) as Hn. rewrite E in Hn.
  rewrite DecimalFacts.unorm_D0 in Hn. unfold unorm in Hn.
  destruct (nzhead d) eqn:Hd;
    try (apply (DecimalFacts.nzhead_nonzero d d); rewrite Hd; congruence).
  injection Hn as Hn. subst d.
  exact (DecimalPos.Unsigned.to_uint_nonzero p E).
Qed.

Lemma finish_number_done (negative : bool) (u : uint) (rest : string) :
  endsNumber rest = true ->
  finish_number negative u rest =
  if negative
  then if Z.of_uint u =? 0 then Unmodelled else Return (JNum (- Z.of_uint u), rest)
  else Return (JNum (Z.of_uint u), rest).
Proof.
  intros H. unfold finish_number.
  assert (Hc : continues_number rest = false).
  { destruct rest as [|c rest]; [reflexivity|]. simpl in H.
    destruct (digit_of_char c); [discriminate|].
    apply negb_true_iff in H. exact H. }
  rewrite Hc. reflexivity.
Qed.

Lemma parse_number_digits (negative : bool) (p : positive) (rest : string) :
  endsNumber rest = true ->
  parse_number ((if negative then "-" else EmptyString)
                ++ NilEmpty.string_of_uint (Pos.to_uint p) ++ rest)%string =
  Return (JNum (if negative then Zneg p else Zpos p), rest).
Proof.
  intros Hrest.
  assert (Hval : Z.of_uint (Pos.to_uint p) = Zpos p).
  { unfold Z.of_uint. rewrite DecimalPos.Unsigned.of_to. reflexivity. }
  pose proof (to_uint_head_nonzero p) as Hnz.
  pose proof (DecimalPos.Unsigned.to_uint_nonnil p) as Hnn.
  pose proof (read_digits_string_of_uint (Pos.to_uint p) rest Hrest) as Hread.
  destruct (Pos.to_uint p) as [|d|d|d|d|d|d|d|d|d|d] eqn:E;
    [contradiction | exfalso; exact (Hnz d eq_refl) | ..];
    destruct negative;
    cbn [NilEmpty.string_of_uint append] in *;
    unfold parse_number; cbn [Ascii.eqb Bool.eqb digit_of_char];
    rewrite Hread, finish_number_done by exact Hrest;
    rewrite Hval; reflexivity.
Qed.

Lemma parse_number_toString (n : Z) (rest : string) :
  endsNumber rest = true ->
  parse_number (toString n ++ rest)%string = Return (JNum n, rest).
Proof.
  intros Hrest. unfold toString.
  destruct n as [|p|p].
  - cbn. rewrite finish_number_done by exact Hrest. reflexivity.
  - simpl Z.to_int. simpl NilZero.string_of_int. unfold NilZero.string_of_uint.
    pose proof (parse_number_digits false p rest Hrest) as H. simpl in H.
    destruct (Pos.to_uint p) eqn:E;
      [exfalso; exact (DecimalPos.Unsigned.to_uint_nonnil p E) | exact H ..].
  - simpl Z.to_int. simpl NilZero.string_of_int. unfold NilZero.string_of_uint.
    pose proof (parse_number_digits true p rest Hrest) as H. simpl in H.
    destruct (Pos.to_uint p) eqn:E;
      [exfalso; exact (DecimalPos.Unsigned.to_uint_nonnil p E) | exact H ..].
Qed.

(** *** Values *)

Lemma toString_head (n : Z) :
  exists c s, toString n = String c s /\
              (Ascii.eqb c "-" = true \/ digit_of_char c <> None).
Proof.
  unfold toString. destruct n as [|p|p]; simpl.
  - exists "0"%char, EmptyString. split; [reflexivity | right; discriminate].
  - unfold NilZero.string_of_uint.
    pose proof (DecimalPos.Unsigned.to_uint_nonnil p) as Hnn.
    destruct (Pos.to_uint p); [contradiction | ..]; simpl;
      eexists; eexists; (split; [reflexivity | right; discriminate]).
  - exists "-"%char. eexists. split; [reflexivity | left; reflexivity].
Qed.

Lemma stringify_head (v : json) :
  exists c s, JSON_stringify v = String c s /\ startsValue c = true.
Proof.
  destruct v as [|[|]|n|s|items|members]; simpl;
    try (eexists; eexists; split; reflexivity).
  destruct (toString_head n) as [c [s [-> Hc]]].
  exists c, s. split; [reflexivity|].
  destruct Hc as [Hc|Hc].
  - apply Ascii.eqb_eq in Hc. subst c. reflexivity.
  - each_char c;
      try reflexivity; exfalso; apply Hc; reflexivity.
Qed.

Lemma skip_ws_head (c : ascii) (s : string) :
  is_ws c = false -> skip_ws (String c s) = String c s.
Proof. intros H. simpl. rewrite H. reflexivity. Qed.

Lemma startsValue_ws c : startsValue c = true -> is_ws c = false.
Proof.
  unfold startsValue. intros H. destruct (is_ws c); [discriminate | reflexivity].
Qed.

Lemma parse_value_number (fuel : nat) (n : Z) (rest : string) :
  endsNumber rest = true ->
  parse_value (S fuel) (toString n ++ rest)%string = Return (JNum n, rest).
Proof.
  intros Hrest.
  pose proof (parse_number_toString n rest Hrest) as Hnum.
  destruct (toString_head n) as [c [s [E Hc]]]. rewrite E in *.
  cbn [parse_value append].
  assert (Hws : is_ws c = false).
  { destruct Hc as [Hc|Hc].
    - apply Ascii.eqb_eq in Hc. subst c. reflexivity.
    - each_char c;
        try reflexivity; exfalso; apply Hc; reflexivity. }
  rewrite skip_ws_head by exact Hws.
  assert (Hd : Ascii.eqb c "[" = false /\ Ascii.eqb c "{" = false /\
               Ascii.eqb c DQUOTE = false /\ Ascii.eqb c "t" = false /\
               Ascii.eqb c "f" = false /\ Ascii.eqb c "n" = false).
  { destruct Hc as [Hc|Hc].
    - apply Ascii.eqb_eq in Hc. subst c. repeat split.
    - each_char c;
        try (repeat split; reflexivity); exfalso; apply Hc; reflexivity. }
  destruct Hd as [H1 [H2 [H3 [H4 [H5 H6]]]]].
  rewrite H1, H2, H3, H4, H5, H6. exact Hnum.
Qed.

Lemma quote_append (s rest : string) :
  (quote s ++ rest)%string = String DQUOTE (quote_body s ++ String DQUOTE rest).
Proof. unfold quote. simpl. rewrite append_assoc. reflexivity. Qed.

Lemma concat_cons2 (sep a b : string) (l : list string) :
  String.concat sep (a :: b :: l) = (a ++ sep ++ String.concat sep (b :: l))%string.
Proof. reflexivity. Qed.

Lemma parse_elements_more pv fuel s x tail :
  pv s = Return (x, String "," tail) ->
  parse_elements pv (S fuel) s =
  bind (parse_elements pv fuel tail) (fun '(xs, r) => Return (x :: xs, r)).
Proof. intros H. simpl. rewrite H. reflexivity. Qed.

Lemma parse_elements_last pv fuel s x rest :
  pv s = Return (x, String "]" rest) ->
  parse_elements pv (S fuel) s = Return ([x], rest).
Proof. intros H. simpl. rewrite H. reflexivity. Qed.

Lemma parse_elements_concat (pv : string -> outcome (json * string))
    (items : list json) :
  forall (x : json) (fuel : nat) (rest : string),
    (forall y r, In y (x :: items) -> endsNumber r = true ->
                 pv (JSON_stringify y ++ r)%string = Return (y, r)) ->
    (List.length (x :: items) <= fuel)%nat ->
    parse_elements pv fuel
      (String.concat "," (map JSON_stringify (x :: items)) ++ "]" ++ rest)%string
    = Return (x :: items, rest).
Proof.
  induction items as [|y items IH]; intros x fuel rest Hpv Hfuel;
    (destruct fuel as [|fuel]; [simpl in Hfuel; lia|]).
  - apply parse_elements_last. simpl map. simpl String.concat.
    apply Hpv; [left; reflexivity | reflexivity].
  - change (map JSON_stringify (x :: y :: items))
      with (JSON_stringify x :: JSON_stringify y :: map JSON_stringify items).
    rewrite concat_cons2, !append_assoc.
    rewrite (parse_elements_more pv fuel _ x
               (String.concat "," (JSON_stringify y :: map JSON_stringify items)
                ++ "]" ++ rest)%string).
    + change (JSON_stringify y :: map JSON_stringify items)
        with (map JSON_stringify (y :: items)).
      rewrite (IH y fuel rest).
      * reflexivity.
      * intros z r Hz Hr. apply Hpv; [right; exact Hz | exact Hr].
      * simpl in *. lia.
    + apply Hpv; [left; reflexivity | reflexivity].
Qed.

Lemma stringify_obj (members : list (string * json)) :
  JSON_stringify (JObj members) =
  ("{" ++ String.concat "," (map member_text members) ++ "}")%string.
Proof. reflexivity. Qed.

Lemma stringify_arr (items : list json) :
  JSON_stringify (JArr items) =
  ("[" ++ String.concat "," (map JSON_stringify items) ++ "]")%string.
Proof. reflexivity. Qed.

Lemma parse_members_key pv fuel k s3 :
  parse_members pv (S fuel) (quote k ++ ":" ++ s3)%string =
  bind (pv s3) (fun '(x, rest) =>
    match skip_ws rest with
    | String c rest' =>
        if Ascii.eqb c ","
        then bind (parse_members pv fuel rest')
                  (fun '(ms, rest'') => Return ((k, x) :: ms, rest''))
        else if Ascii.eqb c "}" then Return ([(k, x)], rest')
        else SyntaxError
    | EmptyString => SyntaxError
    end).
Proof.
  rewrite quote_append. cbn [parse_members].
  rewrite skip_ws_head by reflexivity.
  rewrite Ascii.eqb_refl, parse_chars_quote_body. cbn [bind].
  change (":" ++ s3)%string with (String ":" s3).
  rewrite skip_ws_head by reflexivity.
  rewrite Ascii.eqb_refl. reflexivity.
Qed.

Lemma parse_members_more pv fuel k x s3 tail :
  pv s3 = Return (x, String "," tail) ->
  parse_members pv (S fuel) (quote k ++ ":" ++ s3)%string =
  bind (parse_members pv fuel tail) (fun '(ms, r) => Return ((k, x) :: ms, r)).
Proof. intros H. rewrite parse_members_key, H. reflexivity. Qed.

Lemma parse_members_last pv fuel k x s3 rest :
  pv s3 = Return (x, String "}" rest) ->
  parse_members pv (S fuel) (quote k ++ ":" ++ s3)%string = Return ([(k, x)], rest).
Proof. intros H. rewrite parse_members_key, H. reflexivity. Qed.

Lemma parse_members_concat (pv : string -> outcome (json * string))
    (members : list (string * json)) :
  forall (m : string * json) (fuel : nat) (rest : string),
    (forall y r, In y (m :: members) -> endsNumber r = true ->
                 pv (JSON_stringify (snd y) ++ r)%string = Return (snd y, r)) ->
    (List.length (m :: members) <= fuel)%nat ->
    parse_members pv fuel
      (String.concat "," (map member_text (m :: members)) ++ "}" ++ rest)%string
    = Return (m :: members, rest).
Proof.
  induction members as [|m' members IH]; intros [k x] fuel rest Hpv Hfuel;
    (destruct fuel as [|fuel]; [simpl in Hfuel; lia|]).
  - change (String.concat "," (map member_text [(k, x)]))
      with (quote k ++ ":" ++ JSON_stringify x)%string.
    rewrite !append_assoc.
    apply parse_members_last.
    apply (Hpv (k, x)); [left; reflexivity | reflexivity].
  - change (map member_text ((k, x) :: m' :: members))
      with (member_text (k, x) :: member_text m' :: map member_text members).
    rewrite concat_cons2.
    change (member_text (k, x)) with (quote k ++ ":" ++ JSON_stringify x)%string.
    rewrite !append_assoc.
    rewrite (parse_members_more pv fuel k x _
               (String.concat "," (member_text m' :: map member_text members)
                ++ "}" ++ rest)%string).
    + change (member_text m' :: map member_text members)
        with (map member_text (m' :: members)).
      rewrite (IH m' fuel rest).
      * reflexivity.
      * intros z r Hz Hr. apply Hpv; [right; exact Hz | exact Hr].
      * simpl in *. lia.
    + apply (Hpv (k, x)); [left; reflexivity | reflexivity].
Qed.

Lemma set_property_fresh k x (ms : list (string * json)) :
  ~ In k (map fst ms) -> set_property k x ms = ms ++ [(k, x)].
Proof.
  induction ms as [|[k' x'] ms IH]; simpl; intros H; [reflexivity|].
  destruct (String.eqb k' k) eqn:E.
  - apply String.eqb_eq in E. exfalso. apply H. left. exact E.
  - rewrite IH; [reflexivity|]. intros Hin. apply H. right. exact Hin.
Qed.

Lemma define_properties (ms acc : list (string * json)) :
  NoDup (map fst (acc ++ ms)) ->
  fold_left (fun acc '(k, x) => set_property k x acc) ms acc = acc ++ ms.
Proof.
  revert acc. induction ms as [|[k x] ms IH]; intros acc H; simpl.
  - rewrite app_nil_r. reflexivity.
  - rewrite set_property_fresh.
    + rewrite IH; rewrite <- app_assoc; [reflexivity | exact H].
    + rewrite map_app in H. simpl in H. apply NoDup_remove_2 in H.
      intros Hin. apply H. apply in_or_app. left. exact Hin.
Qed.

Lemma build_object_distinct (ms : list (string * json)) :
  NoDup (map fst ms) -> build_object ms = JObj ms.
Proof.
  intros H. unfold build_object. rewrite define_properties; [reflexivity | exact H].
Qed.

Lemma size_positive (v : json) : (1 <= size v)%nat.
Proof. destruct v; simpl; lia. Qed.

Lemma size_item_le_sum {A : Type} (f : A -> nat) (l : list A) (a : A) :
  In a l -> (f a <= list_sum (map f l))%nat.
Proof.
  induction l as [|b l IH]; simpl; intros H; [contradiction|].
  destruct H as [->|H]; [lia | specialize (IH H); lia].
Qed.

Lemma length_le_sum {A : Type} (f : A -> nat) (l : list A) :
  (forall a, 1 <= f a)%nat -> (List.length l <= list_sum (map f l))%nat.
Proof.
  intros Hf. induction l as [|b l IH]; simpl; [lia|]. specialize (Hf b). lia.
Qed.

Lemma parse_value_string (fuel : nat) (s : string) :
  parse_value (S fuel) (String DQUOTE s) =
  bind (parse_chars s) (fun '(str, rest) => Return (JStr str, rest)).
Proof. reflexivity. Qed.

Lemma parse_value_array (fuel : nat) (c : ascii) (s : string) :
  startsValue c = true ->
  parse_value (S fuel) (String "[" (String c s)) =
  bind (parse_elements (parse_value fuel) fuel (String c s))
       (fun '(xs, rest) => Return (JArr xs, rest)).
Proof.
  intros H. cbn [parse_value]. rewrite skip_ws_head by reflexivity.
  change (Ascii.eqb "[" "[") with true. cbv iota.
  rewrite skip_ws_head by (apply startsValue_ws; exact H).
  unfold startsValue in H. apply andb_prop in H. destruct H as [H _].
  apply andb_prop in H. destruct H as [_ H]. apply negb_true_iff in H.
  rewrite H. reflexivity.
Qed.

Lemma parse_value_object (fuel : nat) (s : string) :
  parse_value (S fuel) (String "{" (String DQUOTE s)) =
  bind (parse_members (parse_value fuel) fuel (String DQUOTE s))
       (fun '(ms, rest) => Return (build_object ms, rest)).
Proof. reflexivity. Qed.

Lemma concat_head (sep : string) (c : ascii) (s : string) (l : list string) :
  exists s', String.concat sep (String c s :: l) = String c s'.
Proof. destruct l; simpl; eexists; reflexivity. Qed.

(** Parsing the serialisation of a value, whatever follows it, gives the
    value back and stops right after it. *)
Lemma parse_value_stringify :
  forall (v : json),
    distinctKeys v ->
    forall (fuel : nat) (rest : string),
      (size v <= fuel)%nat ->
      endsNumber rest = true ->
      parse_value fuel (JSON_stringify v ++ rest)%string = Return (v, rest).
Proof.
  induction v as [|b|n|s|items IH|members IH] using json_induction;
    intros Hdk fuel rest Hfuel Hrest;
    (destruct fuel as [|fuel]; [simpl in Hfuel; lia|]).
  - reflexivity.
  - destruct b; reflexivity.
  - apply parse_value_number. exact Hrest.
  - change (JSON_stringify (JStr s)) with (quote s).
    rewrite quote_append, parse_value_string, parse_chars_quote_body. reflexivity.
  - destruct items as [|x items]; [reflexivity|].
    rewrite stringify_arr, !append_assoc.
    change ("[" ++ (String.concat "," (map JSON_stringify (x :: items)) ++ "]" ++ rest))%string
      with (String "[" (String.concat "," (map JSON_stringify (x :: items)) ++ "]" ++ rest)%string).
    destruct (stringify_head x) as [c [s [Ex Hc]]].
    destruct (concat_head "," c s (map JSON_stringify items)) as [s' Es'].
    assert (Ehead : (String.concat "," (map JSON_stringify (x :: items)) ++ "]" ++ rest)%string
                    = String c (s' ++ "]" ++ rest)%string).
    { cbn [map]. rewrite Ex, Es'. reflexivity. }
    rewrite Ehead, parse_value_array by exact Hc. rewrite <- Ehead.
    simpl in Hfuel. apply le_S_n in Hfuel.
    inversion Hdk as [| | | |? Hitems|]; subst.
    rewrite parse_elements_concat.
    + reflexivity.
    + intros y r Hy Hr. rewrite Forall_forall in IH, Hitems.
      apply IH; [exact Hy | apply Hitems; exact Hy | | exact Hr].
      pose proof (size_item_le_sum size (x :: items) y Hy) as Hle. simpl in Hle. lia.
    + pose proof (length_le_sum size (x :: items) size_positive) as Hle.
      simpl in Hle. simpl. lia.
  - destruct members as [|[k x] members]; [reflexivity|].
    rewrite stringify_obj, !append_assoc.
    change ("{" ++ (String.concat "," (map member_text ((k, x) :: members)) ++ "}" ++ rest))%string
      with (String "{" (String.concat "," (map member_text ((k, x) :: members)) ++ "}" ++ rest)%string).
    assert (Ek : exists s, member_text (k, x) = String DQUOTE s).
    { eexists. reflexivity. }
    destruct Ek as [s Ek].
    destruct (concat_head "," DQUOTE s (map member_text members)) as [s' Es'].
    assert (Ehead : (String.concat "," (map member_text ((k, x) :: members)) ++ "}" ++ rest)%string
                    = String DQUOTE (s' ++ "}" ++ rest)%string).
    { cbn [map]. rewrite Ek, Es'. reflexivity. }
    rewrite Ehead, parse_value_object. rewrite <- Ehead.
    simpl in Hfuel. apply le_S_n in Hfuel.
    inversion Hdk as [| | | | |? Hkeys Hmembers]; subst.
    rewrite parse_members_concat.
    + cbn [bind]. rewrite build_object_distinct by exact Hkeys. reflexivity.
    + intros y r Hy Hr. rewrite Forall_forall in IH, Hmembers.
      apply IH; [exact Hy | apply Hmembers; exact Hy | | exact Hr].
      pose proof (size_item_le_sum (fun '(_, z) => size z) ((k, x) :: members) y Hy) as Hle.
      destruct y as [ky zy]. simpl in Hle. simpl. lia.
    + pose proof (length_le_sum (fun '(_, z) => size z) ((k, x) :: members)) as Hle.
      assert (Hpos : forall a : string * json, (1 <= (let '(_, z) := a in size z))%nat).
      { intros [? z]. apply size_positive. }
      specialize (Hle Hpos). simpl in Hle. simpl. lia.
Qed.

Lemma sum_le_length_concat {A : Type} (f : A -> nat) (g : A -> string)
    (sep : string) (l : list A) :
  Forall (fun a => f a <= String.length (g a))%nat l ->
  (list_sum (map f l) <= String.length (String.concat sep (map g l)))%nat.
Proof.
  induction l as [|a l IH]; intros H; [simpl; lia|].
  inversion H as [|? ? Ha Hl]; subst. specialize (IH Hl).
  destruct l as [|b l].
  - simpl. lia.
  - change (map g (a :: b :: l)) with (g a :: g b :: map g l).
    rewrite concat_cons2, !length_append.
    change (map f (a :: b :: l)) with (f a :: map f (b :: l)).
    change (g b :: map g l) with (map g (b :: l)).
    simpl list_sum. simpl list_sum in IH. lia.
Qed.

Lemma size_le_length (v : json) : (size v <= String.length (JSON_stringify v))%nat.
Proof.
  induction v as [|b|n|s|items IH|members IH] using json_induction.
  - simpl. lia.
  - destruct b; simpl; lia.
  - destruct (stringify_head (JNum n)) as [c [s [E _]]]. rewrite E. simpl. lia.
  - simpl. lia.
  - rewrite stringify_arr, !length_append.
    pose proof (sum_le_length_concat size JSON_stringify "," items IH) as H.
    simpl. lia.
  - rewrite stringify_obj, !length_append.
    assert (IH' : Forall (fun kv => (let '(_, x) := kv in size x)
                                    <= String.length (member_text kv))%nat members).
    { rewrite Forall_forall in *. intros [k x] Hin. specialize (IH (k, x) Hin).
      simpl in IH. unfold member_text. rewrite !length_append. lia. }
    pose proof (sum_le_length_concat _ member_text "," members IH') as H.
    simpl. lia.
Qed.

(** [JSON.parse(JSON.stringify(v))] is [v]. *)
Lemma JSON_parse_stringify (v : json) :
  distinctKeys v -> JSON_parse (JSON_stringify v) = Return v.
Proof.
  intros Hdk. unfold JSON_parse.
  rewrite <- (append_nil_r (JSON_stringify v)) at 2.
  rewrite parse_value_stringify.
  - reflexivity.
  - exact Hdk.
  - pose proof (size_le_length v). lia.
  - reflexivity.
Qed.

Lemma stringify_truthy (v : json) : truthy (JSON_stringify v) = true.
Proof.
  destruct (stringify_head v) as [c [s [E _]]]. rewrite E. reflexivity.
Qed.

(** *** Notes as values *)

Lemma distinctKeys_note (n : Note.t) : distinctKeys (js_of_note n).
Proof.
  unfold js_of_note. constructor.
  - simpl. repeat constructor; simpl; intuition discriminate.
  - repeat constructor; simpl.
    + destruct (Note.folderId n); constructor.
    + apply Forall_map. apply Forall_forall. intros; constructor.
Qed.

Lemma distinctKeys_notes (ns : list Note.t) : distinctKeys (js_of_notes ns).
Proof.
  constructor. apply Forall_map. apply Forall_forall. intros n _.
  apply distinctKeys_note.
Qed.

Lemma all_some_map {A B : Type} (f : A -> B) (g : B -> option A) (l : list A) :
  (forall a, g (f a) = Some a) -> all_some g (map f l) = Some l.
Proof.
  intros H. induction l as [|a l IH]; simpl; [reflexivity|].
  rewrite H, IH. reflexivity.
Qed.

Lemma note_of_js_of_note (n : Note.t) : note_of_js (js_of_note n) = Some n.
Proof.
  destruct n as [i t c f g ca ua fs]. unfold js_of_note, note_of_js. simpl.
  unfold as_strings. rewrite all_some_map by reflexivity.
  destruct f; reflexivity.
Qed.

Lemma notes_of_js_of_notes (ns : list Note.t) : notes_of_js (js_of_notes ns) = Some ns.
Proof. simpl. apply all_some_map. exact note_of_js_of_note. Qed.

Lemma js_of_note_inj (n m : Note.t) : js_of_note n = js_of_note m -> n = m.
Proof.
  intros H. apply (f_equal note_of_js) in H.
  rewrite !note_of_js_of_note in H. congruence.
Qed.

(** ** The persistence adapter *)

Lemma getItem_setItem (key value : string) (env : Browser) :
  getItem key (setItem key value env) = Some value.
Proof. unfold getItem, setItem. simpl. rewrite String.eqb_refl. reflexivity. Qed.

Lemma getItem_setItem_other (key key' value : string) (env : Browser) :
  key' <> key -> getItem key' (setItem key value env) = getItem key' env.
Proof.
  intros H. unfold getItem, setItem. simpl.
  apply String.eqb_neq in H. rewrite H. reflexivity.
Qed.

Lemma window_defined_setItem (key value : string) (env : Browser) :
  window_defined (setItem key value env) = window_defined env.
Proof. reflexivity. Qed.

(** C9.  In a browser, for every collection of notes whose numeric fields
    are integers a JavaScript number holds exactly, [getNotes()] after
    [saveNotes(notes)] returns an array whose objects carry, property by
    property, the fields of the original notes; read back at the type
    [Note[]] it is the original collection. *)
Theorem saveNotes_getNotes_round_trip :
  forall (env : Browser) (ns : list Note.t),
    window_defined env = true ->
    Forall wellFormedNote ns ->
    getNotes (saveNotes ns env) = Return (js_of_notes ns) /\
    bind (getNotes (saveNotes ns env)) (typed notes_of_js) = Return ns.
Proof.
  intros env ns Hw _.
  assert (H : getNotes (saveNotes ns env) = Return (js_of_notes ns)).
  { unfold getNotes, getCollection, saveNotes. rewrite Hw. cbn [negb].
    rewrite window_defined_setItem, Hw, getItem_setItem. cbn [negb].
    rewrite stringify_truthy. apply JSON_parse_stringify. apply distinctKeys_notes. }
  split; [exact H|].
  rewrite H. simpl bind. unfold typed. rewrite notes_of_js_of_notes. reflexivity.
Qed.

Lemma saveNotes_getNotes_round_trip_witness :
  let a := Note.make "1700000000123" "Essay" "<p>Hello</p>" (Some "1700000000001")
                     ["work"; "idea"] 1700000000123 1700000005000 18 in
  let b := Note.make "1700000000456" "Untitled Note" "" None [] 1700000000456
                     1700000000456 16 in
  let env := mkBrowser true emptyStorage in
  window_defined env = true /\
  Forall wellFormedNote [a; b] /\
  bind (getNotes (saveNotes [a; b] env)) (typed notes_of_js) = Return [a; b] /\
  bind (getNotes (saveNotes [] env)) (typed notes_of_js) = Return [].
Proof.
  intros a b env.
  assert (H1 : window_defined env = true) by reflexivity.
  assert (H2 : Forall wellFormedNote [a; b]).
  { repeat constructor; simpl; lia. }
  split; [exact H1|]. split; [exact H2|].
  split.
  - exact (proj2 (saveNotes_getNotes_round_trip env [a; b] H1 H2)).
  - exact (proj2 (saveNotes_getNotes_round_trip env [] H1 (Forall_nil _))).
Defined.

Lemma getCollection_absent (key : string) (env : Browser) :
  getItem key env = None -> getCollection key env = Return (JArr []).
Proof.
  intros H. unfold getCollection. rewrite H.
  destruct (window_defined env); reflexivity.
Qed.

Lemma getCollection_empty_text (key : string) (env : Browser) :
  getItem key env = Some EmptyString -> getCollection key env = Return (JArr []).
Proof.
  intros H. unfold getCollection. rewrite H.
  destruct (window_defined env); reflexivity.
Qed.

Lemma getCollection_unparsable (key data : string) (env : Browser) :
  window_defined env = true ->
  getItem key env = Some data ->
  truthy data = true ->
  JSON_parse data = SyntaxError ->
  getCollection key env = SyntaxError.
Proof.
  intros Hw Hd Ht Hp. unfold getCollection. rewrite Hw, Hd, Ht. exact Hp.
Qed.

(** The theme initialiser, for comparison: its [catch] absorbs the
    [SyntaxError] of [storage.get]. *)
Lemma initialTheme_never_throws (env : Browser) : initialTheme env <> SyntaxError.
Proof.
  unfold initialTheme.
  destruct (window_defined env); [|discriminate].
  destruct (storage_get THEME_STORAGE_KEY env) as [[[| | |s| |]|]| | |];
    try discriminate.
  - destruct (String.eqb s "dark"); [discriminate|].
    destruct (String.eqb s "light"); discriminate.
  - destruct (getItem THEME_STORAGE_KEY env) as [plain|]; [|discriminate].
    destruct (String.eqb plain "dark"); [discriminate|].
    destruct (String.eqb plain "light"); discriminate.
Qed.

(** C2.  With no stored value, or an empty one, the load returns the empty
    list; with the unparsable text of one opening brace under the notes key,
    [JSON.parse] throws and the [SyntaxError] leaves [getNotes], [storage.get]
    and the mount effect of the provider, while the theme initialiser on the
    same text under its own key falls back to the default theme. *)
Theorem getNotes_propagates_parse_failure :
  getNotes (mkBrowser true emptyStorage) = Return (JArr []) /\
  getNotes (browserWith STORAGE_KEYS_NOTES EmptyString) = Return (JArr []) /\
  JSON_parse "{" = SyntaxError /\
  getNotes (browserWith STORAGE_KEYS_NOTES "{") = SyntaxError /\
  storage_get STORAGE_KEYS_NOTES (browserWith STORAGE_KEYS_NOTES "{") = SyntaxError /\
  hydrate (browserWith STORAGE_KEYS_NOTES "{") emptyStore = SyntaxError /\
  initialTheme (browserWith THEME_STORAGE_KEY "{") = Return dark.
Proof. repeat split. Qed.

(** ** The fuel of [JSON.parse] suffices *)

Lemma skip_ws_length (s : string) :
  (String.length (skip_ws s) <= String.length s)%nat.
Proof.
  induction s as [|c s IH]; simpl; [lia|].
  destruct (is_ws c); simpl; lia.
Qed.

Lemma progresses_bind {A B : Type} (r : outcome (A * string)) (s : string)
    (f : A -> B) :
  progresses r s ->
  progresses (bind r (fun '(a, rest) => Return (f a, rest))) s.
Proof.
  intros [Hne Hshort]. destruct r as [[a rest]| | |]; simpl; split;
    try discriminate; try congruence.
  intros b rest' [= <- <-]. apply (Hshort a rest). reflexivity.
Qed.

Lemma progresses_longer {A : Type} (r : outcome (A * string)) (s s' : string) :
  (String.length s <= String.length s')%nat -> progresses r s -> progresses r s'.
Proof.
  intros Hle [Hne Hshort]. split; [exact Hne|].
  intros a rest E. specialize (Hshort a rest E). lia.
Qed.

Lemma progresses_failure {A : Type} (s : string) :
  progresses (@SyntaxError (A * string)) s /\ progresses (@Unmodelled (A * string)) s.
Proof. split; split; intros; discriminate. Qed.

Lemma parse_chars_progresses (s : string) : progresses (parse_chars s) s.
Proof.
  assert (H : forall n s, (String.length s <= n)%nat -> progresses (parse_chars s) s).
  { clear s. induction n as [|n IH]; intros s Hn.
    - destruct s; [split; intros; discriminate | simpl in Hn; lia].
    - destruct s as [|c s]; [split; intros; discriminate|].
      simpl in Hn. cbn [parse_chars].
      destruct (Ascii.eqb c DQUOTE).
      { split; [discriminate|]. intros a rest [= <- <-]. simpl. lia. }
      destruct (Ascii.eqb c BACKSLASH).
      { destruct s as [|e s]; [apply progresses_failure|].
        destruct (simple_escape e).
        { apply progresses_longer with (s := s); [simpl; lia|].
          apply (progresses_bind _ _ (String a)). apply IH. simpl in Hn. lia. }
        destruct (Ascii.eqb e "u"); [|apply progresses_failure].
        destruct s as [|h1 [|h2 [|h3 [|h4 s]]]]; try apply progresses_failure.
        destruct (hex4 h1 h2 h3 h4); [|apply progresses_failure].
        destruct (n0 <? 256)%N; [|apply progresses_failure].
        apply progresses_longer with (s := s); [simpl; lia|].
        apply (progresses_bind _ _ (String (ascii_of_N n0))). apply IH.
        simpl in Hn. lia. }
      destruct (N_of_ascii c <? 32)%N; [apply progresses_failure|].
      apply progresses_longer with (s := s); [simpl; lia|].
      apply (progresses_bind _ _ (String c)). apply IH. lia. }
  apply (H (String.length s)). lia.
Qed.

Lemma strip_prefix_length (p s rest : string) :
  strip_prefix p s = Some rest -> (String.length rest <= String.length s)%nat.
Proof.
  revert s. induction p as [|a p IH]; intros s; simpl.
  - intros [= <-]. lia.
  - destruct s as [|b s]; [discriminate|].
    destruct (Ascii.eqb a b); [|discriminate].
    intros H. apply IH in H. simpl. lia.
Qed.

Lemma read_digits_length (s : string) :
  (String.length (snd (read_digits s)) <= String.length s)%nat.
Proof.
  induction s as [|c s IH]; simpl; [lia|].
  destruct (digit_of_char c) as [d|]; [|simpl; lia].
  destruct (read_digits s) as [digits rest]. simpl in *. lia.
Qed.

Lemma finish_number_progresses negative u rest s :
  (String.length rest < String.length s)%nat ->
  progresses (finish_number negative u rest) s.
Proof.
  intros H. unfold finish_number.
  destruct (continues_number rest); [apply progresses_failure|].
  destruct negative; [destruct (Z.of_uint u =? 0); [apply progresses_failure|]|];
    (split; [discriminate|]; intros a r [= <- <-]; exact H).
Qed.

Lemma parse_number_progresses (s : string) : progresses (parse_number s) s.
Proof.
  unfold parse_number.
  assert (H : forall negative s1,
             (String.length s1 <= String.length s)%nat ->
             progresses
               match s1 with
               | EmptyString => SyntaxError
               | String c s2 =>
                   if Ascii.eqb c "0" then finish_number negative (D0 Nil) s2
                   else match digit_of_char c with
                        | Some _ => let (u, rest) := read_digits s1 in
                                    finish_number negative u rest
                        | None => SyntaxError
                        end
               end s).
  { intros negative s1 Hle. destruct s1 as [|c s2]; [apply progresses_failure|].
    simpl in Hle.
    destruct (Ascii.eqb c "0"); [apply finish_number_progresses; lia|].
    destruct (digit_of_char c) as [d|] eqn:Ed; [|apply progresses_failure].
    pose proof (read_digits_length s2) as Hr.
    cbn [read_digits]. rewrite Ed. destruct (read_digits s2) as [u' rest].
    apply finish_number_progresses. simpl in Hr. lia. }
  destruct s as [|c s']; [exact (H false EmptyString (Nat.le_refl _))|].
  destruct (Ascii.eqb c "-").
  - apply (H true s'). simpl. lia.
  - apply (H false (String c s')). lia.
Qed.

Lemma parse_elements_progresses (pv : string -> outcome (json * string)) (bound : nat) :
  (forall s, (String.length s < bound)%nat -> progresses (pv s) s) ->
  forall (fuel : nat) (s : string),
    (String.length s < fuel)%nat -> (String.length s < bound)%nat ->
    progresses (parse_elements pv fuel s) s.
Proof.
  intros Hpv. induction fuel as [|fuel IH]; intros s Hfuel Hbound; [lia|].
  cbn [parse_elements].
  destruct (Hpv s Hbound) as [Hne Hshort].
  destruct (pv s) as [[x rest]| | |]; cbn [bind];
    [|apply progresses_failure|apply progresses_failure|contradiction].
  specialize (Hshort x rest eq_refl).
  pose proof (skip_ws_length rest) as Hws.
  destruct (skip_ws rest) as [|c rest']; [apply progresses_failure|].
  simpl in Hws.
  destruct (Ascii.eqb c ",").
  - apply progresses_longer with (s := rest'); [lia|].
    apply (progresses_bind _ _ (cons x)). apply IH; lia.
  - destruct (Ascii.eqb c "]"); [|apply progresses_failure].
    split; [discriminate|]. intros a r [= <- <-]. lia.
Qed.

Lemma parse_members_progresses (pv : string -> outcome (json * string)) (bound : nat) :
  (forall s, (String.length s < bound)%nat -> progresses (pv s) s) ->
  forall (fuel : nat) (s : string),
    (String.length s < fuel)%nat -> (String.length s < bound)%nat ->
    progresses (parse_members pv fuel s) s.
Proof.
  intros Hpv. induction fuel as [|fuel IH]; intros s Hfuel Hbound; [lia|].
  cbn [parse_members].
  pose proof (skip_ws_length s) as Hws0.
  destruct (skip_ws s) as [|q s1]; [apply progresses_failure|].
  simpl in Hws0.
  destruct (Ascii.eqb q DQUOTE); [|apply progresses_failure].
  destruct (parse_chars_progresses s1) as [_ Hkey].
  destruct (parse_chars s1) as [[k s2]| | |] eqn:Ek; cbn [bind];
    [|apply progresses_failure|apply progresses_failure|].
  2: { exfalso.
       destruct (parse_chars_progresses s1) as [Hne _]. apply Hne. exact Ek. }
  specialize (Hkey k s2 eq_refl).
  pose proof (skip_ws_length s2) as Hws2.
  destruct (skip_ws s2) as [|colon s3]; [apply progresses_failure|].
  simpl in Hws2.
  destruct (Ascii.eqb colon ":"); [|apply progresses_failure].
  assert (Hs3 : (String.length s3 < bound)%nat) by lia.
  destruct (Hpv s3 Hs3) as [Hne Hshort].
  destruct (pv s3) as [[x rest]| | |]; cbn [bind];
    [|apply progresses_failure|apply progresses_failure|contradiction].
  specialize (Hshort x rest eq_refl).
  pose proof (skip_ws_length rest) as Hws.
  destruct (skip_ws rest) as [|c rest']; [apply progresses_failure|].
  simpl in Hws.
  destruct (Ascii.eqb c ",").
  - apply progresses_longer with (s := rest'); [lia|].
    apply (progresses_bind _ _ (cons (k, x))). apply IH; lia.
  - destruct (Ascii.eqb c "}"); [|apply progresses_failure].
    split; [discriminate|]. intros a r [= <- <-]. lia.
Qed.

Lemma parse_value_progresses (fuel : nat) :
  forall (s : string),
    (String.length s < fuel)%nat -> progresses (parse_value fuel s) s.
Proof.
  induction fuel as [|fuel IH]; intros s Hfuel; [lia|].
  cbn [parse_value].
  pose proof (skip_ws_length s) as Hws.
  destruct (skip_ws s) as [|c s1]; [apply progresses_failure|].
  simpl in Hws.
  destruct (Ascii.eqb c "[").
  { pose proof (skip_ws_length s1) as Hws1.
    destruct (skip_ws s1) as [|c' s2]; [apply progresses_failure|].
    simpl in Hws1.
    destruct (Ascii.eqb c' "]").
    - split; [discriminate|]. intros a r [= <- <-]. lia.
    - apply progresses_longer with (s := s1); [lia|].
      apply (progresses_bind _ _ JArr).
      apply (parse_elements_progresses _ fuel IH); lia. }
  destruct (Ascii.eqb c "{").
  { pose proof (skip_ws_length s1) as Hws1.
    destruct (skip_ws s1) as [|c' s2]; [apply progresses_failure|].
    simpl in Hws1.
    destruct (Ascii.eqb c' "}").
    - split; [discriminate|]. intros a r [= <- <-]. lia.
    - apply progresses_longer with (s := s1); [lia|].
      apply (progresses_bind _ _ build_object).
      apply (parse_members_progresses _ fuel IH); lia. }
  destruct (Ascii.eqb c DQUOTE).
  { apply progresses_longer with (s := s1); [lia|].
    apply (progresses_bind _ _ JStr). apply parse_chars_progresses. }
  assert (Hlit : forall (p : string) (v : json),
             progresses (match strip_prefix p s1 with
                         | Some rest => Return (v, rest)
                         | None => SyntaxError
                         end) s).
  { intros p v. destruct (strip_prefix p s1) as [rest|] eqn:E; [|apply progresses_failure].
    apply strip_prefix_length in E.
    split; [discriminate|]. intros a r [= <- <-]. lia. }
  destruct (Ascii.eqb c "t"); [apply Hlit|].
  destruct (Ascii.eqb c "f"); [apply Hlit|].
  destruct (Ascii.eqb c "n"); [apply Hlit|].
  apply progresses_longer with (s := String c s1); [simpl; lia|].
  apply parse_number_progresses.
Qed.

(** [JSON_parse] supplies enough fuel: its outcome is a value, a
    [SyntaxError] or [Unmodelled], never [OutOfFuel]. *)
Lemma JSON_parse_never_out_of_fuel (text : string) : JSON_parse text <> OutOfFuel.
Proof.
  unfold JSON_parse.
  destruct (parse_value_progresses (S (String.length text)) text (Nat.lt_succ_diag_r _))
    as [Hne _].
  destruct (parse_value (S (String.length text)) text) as [[v rest]| | |];
    cbn [bind]; try discriminate; [|contradiction].
  destruct (skip_ws rest); discriminate.
Qed.

(** ** The model at work *)

Example parse_with_white_space :
  JSON_parse " [ 1 , -20 ,3 ] " = Return (JArr [JNum 1; JNum (-20); JNum 3]).
Proof. reflexivity. Qed.

Example parse_nested :
  JSON_parse "[[null,true],{},[false]]"
  = Return (JArr [JArr [JNull; JBool true]; JObj []; JArr [JBool false]]).
Proof. reflexivity. Qed.

Example parse_leading_zero : JSON_parse "[01]" = SyntaxError.
Proof. reflexivity. Qed.

Example parse_trailing_comma : JSON_parse "[1,]" = SyntaxError.
Proof. reflexivity. Qed.

Example parse_bare_word : JSON_parse "dark" = SyntaxError.
Proof. reflexivity. Qed.

Example parse_fraction : JSON_parse "1.5" = Unmodelled.
Proof. reflexivity. Qed.

Example parse_repeated_key :
  JSON_parse ("{" ++ quote "a" ++ ":1," ++ quote "b" ++ ":2," ++ quote "a" ++ ":3}")%string
  = Return (JObj [("a", JNum 3); ("b", JNum 2)]).
Proof. reflexivity. Qed.

(** The scenario of a folder, a note created in it and renamed. *)
Example drafts_scenario :
  let st := run [CreateFolder "Drafts" None 10 10;
                 CreateNote (Some "10") 11 11 11;
                 UpdateNote "11" (PartialNote.make None (Some "Essay") None None None
                                                   None None None) 12]
                emptyStore in
  map Note.title (getNotesByFolder (Some "10") st) = ["Essay"] /\
  getNotesByFolder None st = [] /\
  getNotesByTag "work" st = [].
Proof. repeat split. Qed.

(** * More of the store *)

(** ** Creating and deleting a note *)

Lemma filter_app_last {A : Type} (p : A -> bool) (l : list A) (x : A) :
  filter p (l ++ [x]) = filter p l ++ (if p x then [x] else []).
Proof. rewrite filter_app. reflexivity. Qed.

(** [deleteNote] of the id that [createNote] just returned undoes the
    creation when no older note has that id: the notes are the former notes,
    the folders and tags are untouched, and nothing is selected. *)
Theorem createNote_then_deleteNote :
  forall (st : Store) (folderId : option string) (t_id t_created t_updated : Z),
    (forall n, In n (notes st) -> Note.id n <> toString t_id) ->
    let created := createNote folderId t_id t_created t_updated st in
    let st' := dispatch (DeleteNote (Note.id (fst created))) (snd created) in
    notes st' = notes st /\
    folders st' = folders st /\
    tags st' = tags st /\
    selectedNoteId st' = None /\
    selectedFolderId st' = selectedFolderId st.
Proof.
  intros st folderId t_id t_created t_updated Hfresh created st'.
  subst created st'. simpl. unfold deleteNote. simpl.
  rewrite String.eqb_refl. simpl.
  rewrite filter_app_last. simpl. rewrite String.eqb_refl. simpl.
  rewrite app_nil_r, filter_unchanged; [repeat split|].
  intros n Hn. apply Hfresh in Hn. apply String.eqb_neq in Hn. rewrite Hn. reflexivity.
Qed.

Lemma createNote_then_deleteNote_witness :
  let a := Note.make "8" "Essay" "" None [] 8 9 16 in
  let st := mkStore [a] [] [] (Some "8") None in
  (forall n, In n (notes st) -> Note.id n <> toString 9) /\
  notes (dispatch (DeleteNote "9") (snd (createNote None 9 9 9 st))) = [a].
Proof.
  intros a st.
  assert (H : forall n, In n (notes st) -> Note.id n <> toString 9).
  { intros n [<-|[]]. discriminate. }
  split; [exact H|].
  exact (proj1 (createNote_then_deleteNote st None 9 9 9 H)).
Defined.

(** Two notes created from the same clock value share their id, and
    [deleteNote] of that id removes both, together with every older note of
    that id. *)
Theorem deleteNote_after_id_collision :
  forall (st : Store) (f1 f2 : option string) (t c1 u1 c2 u2 : Z),
    let st2 := run [CreateNote f1 t c1 u1; CreateNote f2 t c2 u2] st in
    List.length (notes st2) = (List.length (notes st) + 2)%nat /\
    notes (dispatch (DeleteNote (toString t)) st2) =
    filter (fun n => negb (String.eqb (Note.id n) (toString t))) (notes st).
Proof.
  intros st f1 f2 t c1 u1 c2 u2 st2. subst st2. split.
  - simpl. rewrite !length_app. simpl. lia.
  - simpl. rewrite notes_deleteNote. simpl.
    rewrite !filter_app_last. simpl. rewrite String.eqb_refl. simpl.
    rewrite !app_nil_r. reflexivity.
Qed.

(** ** Two updates in a row *)

Lemma override_laterField {A : Type} (old : A) (first later : option A) :
  override (override old first) later = override old (laterField first later).
Proof. destruct later; reflexivity. Qed.

(** Two [updateNote] calls on one id, the first of which leaves [id] out of
    its map, amount to one call with the second map laid over the first and
    the clock value of the second call. *)
Theorem updateNote_twice :
  forall (st : Store) (id : string) (first later : PartialNote.t) (now1 now2 : Z),
    PartialNote.id first = None ->
    updateNote id later now2 (updateNote id first now1 st) =
    updateNote id (mergeUpdates first later) now2 st.
Proof.
  intros st id first later now1 now2 Hid.
  unfold updateNote, setNotes. simpl. f_equal.
  rewrite map_map. apply map_ext. intros n.
  destruct (String.eqb (Note.id n) id) eqn:E.
  - simpl. rewrite Hid. simpl. rewrite E.
    unfold withUpdatedAt, spreadNote. simpl.
    rewrite !override_laterField. rewrite Hid. simpl.
    destruct later as [lid ? ? ? ? ? ? ?]. simpl. destruct lid; reflexivity.
  - rewrite E. reflexivity.
Qed.

Lemma updateNote_twice_witness :
  let a := Note.make "8" "Essay" "" None [] 8 9 16 in
  let st := mkStore [a] [] [] (Some "8") None in
  let first := PartialNote.make None (Some "Draft") None None None None (Some 1) None in
  let later := onlyFontSize 20 in
  PartialNote.id first = None /\
  notes (updateNote "8" later 11 (updateNote "8" first 10 st))
  = [Note.make "8" "Draft" "" None [] 8 11 20].
Proof.
  intros a st first later.
  assert (H : PartialNote.id first = None) by reflexivity.
  split; [exact H|].
  rewrite (updateNote_twice st "8" first later 10 11 H). reflexivity.
Defined.

(** ** The folder views after a folder is deleted *)

Lemma filter_map_commute {A : Type} (g : A -> A) (p q : A -> bool) (l : list A) :
  (forall a, p (g a) = q a) -> filter p (map g l) = map g (filter q l).
Proof.
  intros H. induction l as [|a l IH]; simpl; [reflexivity|].
  rewrite H. destruct (q a); simpl; rewrite IH; reflexivity.
Qed.

Lemma filter_nothing {A : Type} (l : list A) : filter (fun _ => false) l = [].
Proof. induction l as [|a l IH]; simpl; [reflexivity | exact IH]. Qed.

Lemma nullable_eqb_refl (o : option string) : nullable_eqb o o = true.
Proof. destruct o; simpl; [apply String.eqb_refl | reflexivity]. Qed.

Lemma nullable_eqb_eq (a b : option string) : nullable_eqb a b = true <-> a = b.
Proof.
  destruct a, b; simpl; try (split; (discriminate || reflexivity)).
  rewrite String.eqb_eq. split; congruence.
Qed.

Lemma length_filter_or {A : Type} (p q : A -> bool) (l : list A) :
  (forall a, p a = true -> q a = true -> False) ->
  List.length (filter (fun a => p a || q a) l)
  = (List.length (filter p l) + List.length (filter q l))%nat.
Proof.
  intros Hdisj. induction l as [|a l IH]; simpl; [reflexivity|].
  destruct (p a) eqn:Ep, (q a) eqn:Eq; simpl; try lia.
  exfalso. exact (Hdisj a Ep Eq).
Qed.

(** After [deleteFolder(id)] the view of that folder is empty; the root view
    shows, in their former order, the notes that were at root or in the
    folder, so it grows by the size of the folder's view; the view of every
    other folder is what it was. *)
Theorem getNotesByFolder_after_deleteFolder :
  forall (st : Store) (id : string),
    let st' := dispatch (DeleteFolder id) st in
    getNotesByFolder (Some id) st' = [] /\
    map Note.id (getNotesByFolder None st') =
    map Note.id (filter (fun n => nullable_eqb (Note.folderId n) None
                                  || nullable_eqb (Note.folderId n) (Some id))
                        (notes st)) /\
    List.length (getNotesByFolder None st') =
    (List.length (getNotesByFolder None st)
     + List.length (getNotesByFolder (Some id) st))%nat /\
    (forall other, other <> id ->
        getNotesByFolder (Some other) st' = getNotesByFolder (Some other) st).
Proof.
  intros st id st'. subst st'. unfold getNotesByFolder. simpl.
  rewrite notes_deleteFolder.
  set (g := fun note => if nullable_eqb (Note.folderId note) (Some id)
                        then withFolderId note None else note).
  assert (Hroot : filter (fun n => nullable_eqb (Note.folderId n) None) (map g (notes st))
                  = map g (filter (fun n => nullable_eqb (Note.folderId n) None
                                            || nullable_eqb (Note.folderId n) (Some id))
                                  (notes st))).
  { apply filter_map_commute. intros n. unfold g.
    destruct (nullable_eqb (Note.folderId n) (Some id)) eqn:E; simpl.
    - rewrite orb_true_r. reflexivity.
    - rewrite orb_false_r. reflexivity. }
  split; [|split; [|split]].
  - rewrite (filter_map_commute g _ (fun _ => false)); [|].
    + rewrite filter_nothing. reflexivity.
    + intros n. unfold g.
      destruct (nullable_eqb (Note.folderId n) (Some id)) eqn:E; simpl;
        [reflexivity | exact E].
  - rewrite Hroot. apply map_map_same. intros n. unfold g.
    destruct (nullable_eqb (Note.folderId n) (Some id)); reflexivity.
  - rewrite Hroot, length_map. apply length_filter_or.
    intros n H1 H2. apply nullable_eqb_eq in H1. apply nullable_eqb_eq in H2.
    congruence.
  - intros other Hother.
    rewrite (filter_map_commute g _
               (fun n => nullable_eqb (Note.folderId n) (Some other))).
    + apply map_unchanged. intros n Hn. apply filter_In in Hn.
      destruct Hn as [_ Hn]. apply nullable_eqb_eq in Hn. unfold g.
      rewrite Hn. simpl. apply String.eqb_neq in Hother. rewrite Hother. reflexivity.
    + intros n. unfold g.
      destruct (nullable_eqb (Note.folderId n) (Some id)) eqn:E; [|reflexivity].
      apply nullable_eqb_eq in E. rewrite E. simpl.
      apply String.eqb_neq in Hother. rewrite String.eqb_sym. symmetry. exact Hother.
Qed.

(** ** The tag views after a tag is deleted *)

Lemma existsb_eqb_In (x : string) (l : list string) :
  existsb (String.eqb x) l = true <-> In x l.
Proof.
  rewrite existsb_exists. split.
  - intros [y [Hy E]]. apply String.eqb_eq in E. subst y. exact Hy.
  - intros H. exists x. split; [exact H | apply String.eqb_refl].
Qed.

Lemma existsb_filter_other (x y : string) (l : list string) :
  x <> y ->
  existsb (String.eqb x) (filter (fun z => negb (String.eqb z y)) l)
  = existsb (String.eqb x) l.
Proof.
  intros Hxy. induction l as [|z l IH]; simpl; [reflexivity|].
  destruct (String.eqb z y) eqn:E; simpl.
  - apply String.eqb_eq in E. subst z. apply String.eqb_neq in Hxy.
    rewrite Hxy. simpl. exact IH.
  - rewrite IH. reflexivity.
Qed.

Lemma existsb_filter_self (y : string) (l : list string) :
  existsb (String.eqb y) (filter (fun z => negb (String.eqb z y)) l) = false.
Proof.
  induction l as [|z l IH]; simpl; [reflexivity|].
  destruct (String.eqb z y) eqn:E; simpl; [exact IH|].
  rewrite String.eqb_sym, E. simpl. exact IH.
Qed.

(** In a store whose tag ids are pairwise distinct, after [deleteTag(T.id)]
    no note is listed under [T.name], and under every other name the same
    notes are listed, in the same order. *)
Theorem getNotesByTag_after_deleteTag :
  forall (st : Store) (T : Tag.t),
    In T (tags st) ->
    NoDup (map Tag.id (tags st)) ->
    let st' := dispatch (DeleteTag (Tag.id T)) st in
    getNotesByTag (Tag.name T) st' = [] /\
    (forall other, other <> Tag.name T ->
        map Note.id (getNotesByTag other st') = map Note.id (getNotesByTag other st) /\
        Forall (fun n => In other (Note.tags n)) (getNotesByTag other st')).
Proof.
  intros st T HT Hnd st'. subst st'.
  change (dispatch (DeleteTag (Tag.id T)) st) with (deleteTag (tags st) (Tag.id T) st).
  pose proof (find_tag_by_unique_id (tags st) T HT Hnd) as Hfind.
  unfold getNotesByTag. rewrite (notes_deleteTag_found _ _ _ _ Hfind).
  set (g := fun note =>
              withTags note
                (filter (fun x => negb (String.eqb x (Tag.name T))) (Note.tags note))).
  split.
  - rewrite (filter_map_commute g _ (fun _ => false)).
    + rewrite filter_nothing. reflexivity.
    + intros n. unfold g. simpl. apply existsb_filter_self.
  - intros other Hother.
    rewrite (filter_map_commute g _
               (fun n => existsb (String.eqb other) (Note.tags n))).
    + split; [apply map_map_same; intros n; reflexivity|].
      apply Forall_map. apply Forall_forall. intros n Hn.
      apply filter_In in Hn. destruct Hn as [_ Hn]. unfold g. simpl.
      apply existsb_eqb_In. rewrite existsb_filter_other by exact Hother. exact Hn.
    + intros n. unfold g. simpl. apply existsb_filter_other. exact Hother.
Qed.

Lemma getNotesByTag_after_deleteTag_witness :
  let T := Tag.make "3" "work" None in
  let a := Note.make "8" "Essay" "" None ["home"; "work"] 8 9 16 in
  let b := Note.make "9" "Todo" "" None ["work"] 9 9 16 in
  let st := mkStore [a; b] [] [T; Tag.make "4" "home" None] None None in
  In T (tags st) /\ NoDup (map Tag.id (tags st)) /\
  map Note.id (getNotesByTag "work" st) = ["8"; "9"] /\
  getNotesByTag "work" (dispatch (DeleteTag "3") st) = [] /\
  map Note.id (getNotesByTag "home" (dispatch (DeleteTag "3") st)) = ["8"].
Proof.
  intros T a b st.
  assert (H1 : In T (tags st)) by (left; reflexivity).
  assert (H2 : NoDup (map Tag.id (tags st))).
  { simpl. repeat constructor; simpl; intuition discriminate. }
  split; [exact H1|]. split; [exact H2|]. split; [reflexivity|].
  split; [exact (proj1 (getNotesByTag_after_deleteTag st T H1 H2))|].
  reflexivity.
Defined.

(** ** Invariants of the store *)

Lemma noteExists_ids (st : Store) (id : string) :
  noteExists st id <-> In id (map Note.id (notes st)).
Proof.
  unfold noteExists. rewrite in_map_iff. split; intros [n H]; exists n; tauto.
Qed.

Lemma folderExists_ids (st : Store) (id : string) :
  folderExists st id <-> In id (map Folder.id (folders st)).
Proof.
  unfold folderExists. rewrite in_map_iff. split; intros [f H]; exists f; tauto.
Qed.

Lemma noteExists_dispatch (a : Action) (st : Store) (id : string) :
  keepsId a = true -> a <> DeleteNote id ->
  noteExists st id -> noteExists (dispatch a st) id.
Proof.
  intros Hk Hne. rewrite !noteExists_ids, (ids_dispatch a st Hk).
  destruct a; simpl; try (intros H; exact H).
  - intros H. apply in_or_app. left. exact H.
  - intros H. apply filter_In. split; [exact H|].
    destruct (String.eqb id id0) eqn:E; [|reflexivity].
    apply String.eqb_eq in E. subst. contradiction.
Qed.

Lemma folderIds_after_map (g : Folder.t -> Folder.t) (l : list Folder.t) :
  (forall f, Folder.id (g f) = Folder.id f) ->
  map Folder.id (map g l) = map Folder.id l.
Proof. intros H. apply map_map_same. exact H. Qed.

Lemma folderExists_dispatch (a : Action) (st : Store) (id : string) :
  keepsFolderId a = true -> a <> DeleteFolder id ->
  folderExists st id -> folderExists (dispatch a st) id.
Proof.
  intros Hk Hne. rewrite !folderExists_ids.
  destruct a as [f t1 t2 t3|nid u now|nid|nid|nm p t1 t2|fid u|fid|fid|nm now|tid];
    simpl; try (intros H; exact H).
  - rewrite folders_deleteNote. intros H; exact H.
  - rewrite map_app. intros H. apply in_or_app. left. exact H.
  - destruct u as [uid ? ? ?]. simpl in Hk. destruct uid; [discriminate|].
    rewrite folderIds_after_map; [intros H; exact H|].
    intros f. destruct (String.eqb (Folder.id f) fid); reflexivity.
  - rewrite folders_deleteFolder. intros H. apply in_map_iff in H.
    destruct H as [f [Hf Hin]]. apply in_map_iff. exists f. split; [exact Hf|].
    apply filter_In. split; [exact Hin|].
    destruct (String.eqb (Folder.id f) fid) eqn:E; [|reflexivity].
    apply String.eqb_eq in E. exfalso. apply Hne. congruence.
  - unfold createTag. destruct (find _ (tags st)); intros H; exact H.
Qed.

Lemma selectionsResolve_dispatch (a : Action) (st : Store) :
  selectionsResolve st ->
  keepsId a = true ->
  keepsFolderId a = true ->
  selectsExisting a st ->
  selectionsResolve (dispatch a st).
Proof.
  intros [Hn Hf] Hk Hkf Hsel.
  assert (Hnote : forall id, a <> DeleteNote id -> noteExists st id ->
                             noteExists (dispatch a st) id).
  { intros id Hne. apply noteExists_dispatch; assumption. }
  assert (Hfolder : forall id, a <> DeleteFolder id -> folderExists st id ->
                               folderExists (dispatch a st) id).
  { intros id Hne. apply folderExists_dispatch; assumption. }
  destruct a as [f t1 t2 t3|nid u now|nid|nid|nm p t1 t2|fid u|fid|fid|nm now|tid].
  - split.
    + simpl. intros id [= <-]. exists (Note.make (toString t1) "Untitled Note" "" f [] t2 t3 16).
      split; [apply in_or_app; right; left; reflexivity | reflexivity].
    + intros id Hid. apply Hfolder; [discriminate|]. apply Hf. exact Hid.
  - split; intros id Hid.
    + apply Hnote; [discriminate|]. apply Hn. exact Hid.
    + apply Hfolder; [discriminate|]. apply Hf. exact Hid.
  - split.
    + intros id Hid. simpl in Hid. unfold deleteNote in Hid.
      destruct (nullable_eqb (selectedNoteId st) (Some nid)) eqn:E;
        simpl in Hid; [discriminate|].
      apply nullable_eqb_Some_false in E.
      apply Hnote; [intros [= ->]; congruence|]. apply Hn. exact Hid.
    + intros id Hid. apply Hfolder; [discriminate|]. apply Hf.
      simpl in Hid. unfold deleteNote in Hid.
      destruct (nullable_eqb (selectedNoteId st) (Some nid)); exact Hid.
  - split.
    + simpl. intros id Hid. destruct nid as [x|]; [|discriminate].
      injection Hid as ->. exact Hsel.
    + exact Hf.
  - split; intros id Hid.
    + apply Hnote; [discriminate|]. apply Hn. exact Hid.
    + apply Hfolder; [discriminate|]. apply Hf. exact Hid.
  - split; intros id Hid.
    + apply Hnote; [discriminate|]. apply Hn. exact Hid.
    + apply Hfolder; [discriminate|]. apply Hf. exact Hid.
  - split.
    + intros id Hid. apply Hnote; [discriminate|]. apply Hn.
      simpl in Hid. unfold deleteFolder in Hid.
      destruct (nullable_eqb (selectedFolderId st) (Some fid)); exact Hid.
    + intros id Hid. simpl in Hid. unfold deleteFolder in Hid.
      destruct (nullable_eqb (selectedFolderId st) (Some fid)) eqn:E;
        simpl in Hid; [discriminate|].
      apply nullable_eqb_Some_false in E.
      apply Hfolder; [intros [= ->]; congruence|]. apply Hf. exact Hid.
  - split.
    + exact Hn.
    + simpl. intros id Hid. destruct fid as [x|]; [|discriminate].
      injection Hid as ->. exact Hsel.
  - split; intros id Hid.
    + apply Hnote; [discriminate|]. apply Hn.
      simpl in Hid. unfold createTag in Hid. destruct (find _ (tags st)); exact Hid.
    + apply Hfolder; [discriminate|]. apply Hf.
      simpl in Hid. unfold createTag in Hid. destruct (find _ (tags st)); exact Hid.
  - split; intros id Hid.
    + apply Hnote; [discriminate|]. apply Hn. exact Hid.
    + apply Hfolder; [discriminate|]. apply Hf. exact Hid.
Qed.

(** Selections never dangle: when the selected note and folder are in the
    store, they still are after any operation that leaves ids out of its
    partial-field map and selects nothing but what the store holds.
    [deleteNote] of the selected id leaves no note selected and no note of
    that id, and [deleteNote] of another id leaves the selection as it is;
    likewise [deleteFolder] for the selected folder. *)
Theorem selections_keep_resolving :
  forall (st : Store),
    selectionsResolve st ->
    (forall a : Action,
        keepsId a = true ->
        keepsFolderId a = true ->
        selectsExisting a st ->
        selectionsResolve (dispatch a st)) /\
    (forall id,
        selectedNoteId st = Some id ->
        selectedNoteId (dispatch (DeleteNote id) st) = None /\
        ~ noteExists (dispatch (DeleteNote id) st) id) /\
    (forall id,
        selectedNoteId st <> Some id ->
        selectedNoteId (dispatch (DeleteNote id) st) = selectedNoteId st) /\
    (forall id,
        selectedFolderId st = Some id ->
        selectedFolderId (dispatch (DeleteFolder id) st) = None /\
        ~ folderExists (dispatch (DeleteFolder id) st) id) /\
    (forall id,
        selectedFolderId st <> Some id ->
        selectedFolderId (dispatch (DeleteFolder id) st) = selectedFolderId st).
Proof.
  intros st Hres.
  split; [intros a Hk Hkf Hsel; apply selectionsResolve_dispatch; assumption|].
  split; [|split; [|split]].
  - intros id Hsel. split.
    + simpl. unfold deleteNote. rewrite Hsel. simpl. rewrite String.eqb_refl.
      reflexivity.
    + intros [n [Hin Hid]]. simpl in Hin. rewrite notes_deleteNote in Hin.
      apply filter_In in Hin. destruct Hin as [_ Hin].
      rewrite Hid, String.eqb_refl in Hin. discriminate Hin.
  - intros id Hsel. simpl. unfold deleteNote.
    apply nullable_eqb_Some_false in Hsel. rewrite Hsel. reflexivity.
  - intros id Hsel. split.
    + simpl. unfold deleteFolder. rewrite Hsel. simpl. rewrite String.eqb_refl.
      reflexivity.
    + intros [f [Hin Hid]]. simpl in Hin. rewrite folders_deleteFolder in Hin.
      apply filter_In in Hin. destruct Hin as [_ Hin].
      rewrite Hid, String.eqb_refl in Hin. discriminate Hin.
  - intros id Hsel. simpl. unfold deleteFolder.
    apply nullable_eqb_Some_false in Hsel. rewrite Hsel. reflexivity.
Qed.

Lemma selections_keep_resolving_witness :
  let a := Note.make "8" "Essay" "" (Some "7") [] 8 9 16 in
  let b := Note.make "9" "Todo" "" None [] 9 9 16 in
  let st := mkStore [a; b] [Folder.make "7" "Drafts" None 7] [] (Some "8") (Some "7") in
  selectionsResolve st /\
  selectsExisting (DeleteNote "8") st /\
  selectionsResolve (dispatch (DeleteNote "8") st) /\
  (selectedNoteId st = Some "8" /\ selectedNoteId (dispatch (DeleteNote "8") st) = None) /\
  (selectedNoteId st <> Some "9" /\
   selectedNoteId (dispatch (DeleteNote "9") st) = Some "8") /\
  (selectedFolderId st = Some "7" /\
   selectedFolderId (dispatch (DeleteFolder "7") st) = None) /\
  selectionsResolve (dispatch (DeleteFolder "7") st).
Proof.
  intros a b st.
  assert (H1 : selectionsResolve st).
  { split; intros id [= <-].
    - exists a. split; [left; reflexivity | reflexivity].
    - exists (Folder.make "7" "Drafts" None 7). split; [left; reflexivity | reflexivity]. }
  assert (H2 : selectsExisting (DeleteNote "8") st) by exact I.
  assert (H3 : selectedNoteId st = Some "8") by reflexivity.
  assert (H4 : selectedNoteId st <> Some "9") by discriminate.
  assert (H5 : selectedFolderId st = Some "7") by reflexivity.
  destruct (selections_keep_resolving st H1) as [Ha [Hn [Hn' [Hf _]]]].
  split; [exact H1|]. split; [exact H2|].
  split; [exact (Ha (DeleteNote "8") eq_refl eq_refl H2)|].
  split; [split; [exact H3 | exact (proj1 (Hn "8" H3))]|].
  split; [split; [exact H4 | exact (Hn' "9" H4)]|].
  split; [split; [exact H5 | exact (proj1 (Hf "7" H5))]|].
  exact (Ha (DeleteFolder "7") eq_refl eq_refl I).
Defined.

(** No note is left filed in a folder that is gone: when every filed note
    is filed in a folder of the store, it still is after any operation that
    files notes only in folders of the store and leaves the [id] of folders
    out of its partial-field map.  [deleteFolder] keeps this by moving the
    notes of the folder to root. *)
Theorem folders_keep_resolving :
  forall (a : Action) (st : Store),
    foldersResolve st ->
    keepsFolderId a = true ->
    filesIntoExisting a st ->
    foldersResolve (dispatch a st).
Proof.
  intros a st Hres Hkf Hfiles.
  assert (Hfolder : forall id, a <> DeleteFolder id -> folderExists st id ->
                               folderExists (dispatch a st) id).
  { intros id Hne. apply folderExists_dispatch; assumption. }
  destruct a as [f t1 t2 t3|nid u now|nid|nid|nm p t1 t2|fid u|fid|fid|nm now|tid];
    intros n x Hin Hx.
  - simpl in Hin. apply in_app_or in Hin. destruct Hin as [Hin|[<-|[]]].
    + apply Hfolder; [discriminate|]. exact (Hres n x Hin Hx).
    + simpl in Hx. subst f. apply Hfolder; [discriminate|]. exact Hfiles.
  - apply Hfolder; [discriminate|].
    simpl in Hin. apply in_map_iff in Hin. destruct Hin as [m [Hm Hin]].
    destruct (String.eqb (Note.id m) nid).
    + subst n. simpl in Hx. simpl in Hfiles.
      destruct (PartialNote.folderId u) as [[y|]|]; simpl in Hx.
      * injection Hx as ->. exact Hfiles.
      * discriminate.
      * exact (Hres m x Hin Hx).
    + subst n. exact (Hres m x Hin Hx).
  - apply Hfolder; [discriminate|].
    simpl in Hin. rewrite notes_deleteNote in Hin. apply filter_In in Hin.
    exact (Hres n x (proj1 Hin) Hx).
  - exact (Hres n x Hin Hx).
  - apply Hfolder; [discriminate|]. exact (Hres n x Hin Hx).
  - apply Hfolder; [discriminate|]. exact (Hres n x Hin Hx).
  - simpl in Hin. rewrite notes_deleteFolder in Hin.
    apply in_map_iff in Hin. destruct Hin as [m [Hm Hin]].
    destruct (nullable_eqb (Note.folderId m) (Some fid)) eqn:E.
    + subst n. discriminate.
    + subst n. apply nullable_eqb_Some_false in E.
      apply Hfolder; [intros [= ->]; congruence|]. exact (Hres m x Hin Hx).
  - exact (Hres n x Hin Hx).
  - apply Hfolder; [discriminate|].
    simpl in Hin. unfold createTag in Hin.
    destruct (find _ (tags st)); exact (Hres n x Hin Hx).
  - apply Hfolder; [discriminate|].
    simpl in Hin. unfold deleteTag in Hin. simpl in Hin.
    apply in_map_iff in Hin. destruct Hin as [m [<- Hin]].
    exact (Hres m x Hin Hx).
Qed.

Lemma folders_keep_resolving_witness :
  let a := Note.make "8" "Essay" "" (Some "7") [] 8 9 16 in
  let st := mkStore [a] [Folder.make "7" "Drafts" None 7] [] (Some "8") (Some "7") in
  foldersResolve st /\
  filesIntoExisting (DeleteFolder "7") st /\
  foldersResolve (dispatch (DeleteFolder "7") st) /\
  map Note.folderId (notes (dispatch (DeleteFolder "7") st)) = [None].
Proof.
  intros a st.
  assert (H1 : foldersResolve st).
  { intros n f [<-|[]] [= <-].
    exists (Folder.make "7" "Drafts" None 7). split; [left; reflexivity | reflexivity]. }
  assert (H2 : filesIntoExisting (DeleteFolder "7") st) by exact I.
  split; [exact H1|]. split; [exact H2|]. split; [|reflexivity].
  exact (folders_keep_resolving (DeleteFolder "7") st H1 eq_refl H2).
Defined.

(** ** Tag names and the ids of folders and tags *)

Lemma distinct_keys_after_filter {A B : Type} (key : A -> B) (keep : A -> bool) :
  forall xs, NoDup (map key xs) -> NoDup (map key (filter keep xs)).
Proof.
  intros xs. induction xs as [|x xs IH]; intros Hnd; [constructor|].
  simpl in Hnd. apply NoDup_cons_iff in Hnd. destruct Hnd as [Hx Hnd].
  simpl. destruct (keep x); [|apply IH; exact Hnd].
  simpl. apply NoDup_cons_iff. split; [|apply IH; exact Hnd].
  intros Hin. apply Hx. apply in_map_iff in Hin. destruct Hin as [y [Hy Hin]].
  apply filter_In in Hin. apply in_map_iff. exists y. tauto.
Qed.

Lemma distinct_keys_append {A B : Type} (key : A -> B) (xs : list A) (x : A) :
  NoDup (map key xs) -> ~ In (key x) (map key xs) -> NoDup (map key (xs ++ [x])).
Proof.
  intros Hnd Hx. rewrite map_app. simpl.
  apply NoDup_app; [exact Hnd | repeat constructor; intros [] |].
  intros k Hk [<-|[]]. exact (Hx Hk).
Qed.

Lemma lowerNames_dispatch (a : Action) (st : Store) :
  NoDup (map lowerName (tags st)) -> NoDup (map lowerName (tags (dispatch a st))).
Proof.
  intros Hnd.
  destruct a as [f t1 t2 t3|nid u now|nid|nid|nm p t1 t2|fid u|fid|fid|nm now|tid];
    simpl; try exact Hnd.
  - rewrite tags_deleteNote. exact Hnd.
  - rewrite tags_deleteFolder. exact Hnd.
  - unfold createTag.
    destruct (find (fun t => String.eqb (toLowerCase (Tag.name t)) (toLowerCase nm))
                   (tags st)) eqn:E; [exact Hnd|].
    simpl. apply distinct_keys_append; [exact Hnd|].
    intros Hin. apply in_map_iff in Hin. destruct Hin as [t [Ht Hin]].
    apply (find_none _ _ E) in Hin. unfold lowerName in Ht. simpl in Ht.
    rewrite Ht, String.eqb_refl in Hin. discriminate.
  - unfold deleteTag. simpl. apply distinct_keys_after_filter. exact Hnd.
Qed.

(** Whatever the view does, starting from the empty store, no two tags of
    the store have names equal up to letter case. *)
Theorem tag_names_stay_distinct_ignoring_case :
  forall (acts : list Action),
    NoDup (map lowerName (tags (run acts emptyStore))).
Proof.
  intros acts.
  assert (H : forall st, NoDup (map lowerName (tags st)) ->
                         NoDup (map lowerName (tags (run acts st)))).
  { induction acts as [|a acts IH]; intros st Hnd; [exact Hnd|].
    simpl. apply IH. apply lowerNames_dispatch. exact Hnd. }
  apply H. constructor.
Qed.

Lemma freshAhead_weaken {A : Type} (key : A -> string) (ahead ahead' : list Z)
    (l : list A) :
  incl ahead' ahead -> freshAhead key ahead l -> freshAhead key ahead' l.
Proof.
  intros Hincl [Hnd Hfresh]. split; [exact Hnd|].
  intros a t Ha Ht. apply Hfresh; [exact Ha | apply Hincl; exact Ht].
Qed.

Lemma freshAhead_filter {A : Type} (key : A -> string) (ahead : list Z)
    (keep : A -> bool) (l : list A) :
  freshAhead key ahead l -> freshAhead key ahead (filter keep l).
Proof.
  intros [Hnd Hfresh]. split; [apply distinct_keys_after_filter; exact Hnd|].
  intros a t Ha Ht. apply filter_In in Ha. apply Hfresh; tauto.
Qed.

Lemma freshAhead_map {A : Type} (key : A -> string) (ahead : list Z)
    (g : A -> A) (l : list A) :
  (forall a, key (g a) = key a) ->
  freshAhead key ahead l -> freshAhead key ahead (map g l).
Proof.
  intros Hg [Hnd Hfresh]. split.
  - rewrite map_map_same by exact Hg. exact Hnd.
  - intros a t Ha Ht. apply in_map_iff in Ha. destruct Ha as [b [<- Hb]].
    rewrite Hg. apply Hfresh; assumption.
Qed.

Lemma freshAhead_append {A : Type} (key : A -> string) (ahead : list Z)
    (l : list A) (x : A) (t : Z) :
  key x = toString t ->
  NoDup (t :: ahead) ->
  freshAhead key (t :: ahead) l ->
  freshAhead key ahead (l ++ [x]).
Proof.
  intros Hx Hnd [Hl Hfresh]. apply NoDup_cons_iff in Hnd. destruct Hnd as [Ht _].
  split.
  - apply distinct_keys_append; [exact Hl|].
    intros Hin. apply in_map_iff in Hin. destruct Hin as [a [Ha Hin]].
    apply (Hfresh a t Hin); [left; reflexivity | congruence].
  - intros a t' Ha Ht'. apply in_app_or in Ha. destruct Ha as [Ha|[<-|[]]].
    + apply Hfresh; [exact Ha | right; exact Ht'].
    + rewrite Hx. intros E. apply toString_inj in E. subst t'. contradiction.
Qed.

Lemma folderIds_dispatch (a : Action) (ahead : list Z) (st : Store) :
  keepsFolderId a = true ->
  NoDup (folderIdReading a ++ ahead) ->
  freshAhead Folder.id (folderIdReading a ++ ahead) (folders st) ->
  freshAhead Folder.id ahead (folders (dispatch a st)).
Proof.
  intros Hk Hnd Hinv.
  assert (Hweak : freshAhead Folder.id ahead (folders st)).
  { revert Hinv. apply freshAhead_weaken. intros x Hx. apply in_or_app. right. exact Hx. }
  destruct a as [f t1 t2 t3|nid u now|nid|nid|nm p t1 t2|fid u|fid|fid|nm now|tid];
    simpl; try exact Hweak.
  - rewrite folders_deleteNote. exact Hweak.
  - apply (freshAhead_append Folder.id ahead (folders st) _ t1);
      [reflexivity | exact Hnd | exact Hinv].
  - destruct u as [uid ? ? ?]. simpl in Hk. destruct uid; [discriminate|].
    apply freshAhead_map; [|exact Hweak].
    intros f. destruct (String.eqb (Folder.id f) fid); reflexivity.
  - rewrite folders_deleteFolder. apply freshAhead_filter. exact Hweak.
  - unfold createTag. destruct (find _ (tags st)); exact Hweak.
Qed.

Lemma tagIds_dispatch (a : Action) (ahead : list Z) (st : Store) :
  NoDup (tagIdReading a ++ ahead) ->
  freshAhead Tag.id (tagIdReading a ++ ahead) (tags st) ->
  freshAhead Tag.id ahead (tags (dispatch a st)).
Proof.
  intros Hnd Hinv.
  assert (Hweak : freshAhead Tag.id ahead (tags st)).
  { revert Hinv. apply freshAhead_weaken. intros x Hx. apply in_or_app. right. exact Hx. }
  destruct a as [f t1 t2 t3|nid u now|nid|nid|nm p t1 t2|fid u|fid|fid|nm now|tid];
    simpl; try exact Hweak.
  - rewrite tags_deleteNote. exact Hweak.
  - rewrite tags_deleteFolder. exact Hweak.
  - unfold createTag. destruct (find _ (tags st)); [exact Hweak|]. simpl.
    apply (freshAhead_append Tag.id ahead (tags st) _ now);
      [reflexivity | exact Hnd | exact Hinv].
  - unfold deleteTag. simpl. apply freshAhead_filter. exact Hweak.
Qed.

(** Starting from the empty store, when the clock values from which
    [createFolder] derives ids are pairwise distinct, those of [createTag]
    are too, and no [updateFolder] mentions [id] in its partial-field map,
    the folders have pairwise distinct ids and so have the tags. *)
Theorem folder_and_tag_ids_stay_distinct :
  forall (acts : list Action),
    forallb keepsFolderId acts = true ->
    NoDup (flat_map folderIdReading acts) ->
    NoDup (flat_map tagIdReading acts) ->
    NoDup (map Folder.id (folders (run acts emptyStore))) /\
    NoDup (map Tag.id (tags (run acts emptyStore))).
Proof.
  intros acts.
  assert (H : forall st,
             forallb keepsFolderId acts = true ->
             NoDup (flat_map folderIdReading acts) ->
             NoDup (flat_map tagIdReading acts) ->
             freshAhead Folder.id (flat_map folderIdReading acts) (folders st) ->
             freshAhead Tag.id (flat_map tagIdReading acts) (tags st) ->
             NoDup (map Folder.id (folders (run acts st))) /\
             NoDup (map Tag.id (tags (run acts st)))).
  { induction acts as [|a acts IH]; intros st Hk Hf Ht Hfi Hti.
    - split; [exact (proj1 Hfi) | exact (proj1 Hti)].
    - simpl in *. apply andb_prop in Hk. destruct Hk as [Ha Hacts].
      apply IH.
      + exact Hacts.
      + apply NoDup_app_remove_l in Hf. exact Hf.
      + apply NoDup_app_remove_l in Ht. exact Ht.
      + apply folderIds_dispatch; assumption.
      + apply tagIds_dispatch; assumption. }
  intros Hk Hf Ht. apply H; try assumption.
  - split; [constructor | intros a t []].
  - split; [constructor | intros a t []].
Qed.

Lemma folder_and_tag_ids_stay_distinct_witness :
  let acts := [CreateFolder "Drafts" None 1 1; CreateTag "work" 1;
               CreateFolder "Notes" (Some "1") 2 2; CreateTag "Work" 2;
               CreateTag "home" 3; DeleteFolder "1";
               UpdateFolder "2" (PartialFolder.make None (Some "Letters") None None)] in
  forallb keepsFolderId acts = true /\
  NoDup (flat_map folderIdReading acts) /\
  NoDup (flat_map tagIdReading acts) /\
  map Folder.id (folders (run acts emptyStore)) = ["2"] /\
  map Tag.id (tags (run acts emptyStore)) = ["1"; "3"] /\
  NoDup (map Tag.id (tags (run acts emptyStore))).
Proof.
  intros acts.
  assert (H1 : forallb keepsFolderId acts = true) by reflexivity.
  assert (H2 : NoDup (flat_map folderIdReading acts)).
  { simpl. repeat constructor; simpl; intuition discriminate. }
  assert (H3 : NoDup (flat_map tagIdReading acts)).
  { simpl. repeat constructor; simpl; intuition discriminate. }
  split; [exact H1|]. split; [exact H2|]. split; [exact H3|].
  split; [reflexivity|]. split; [reflexivity|].
  exact (proj2 (folder_and_tag_ids_stay_distinct acts H1 H2 H3)).
Defined.

(** * More of the persistence adapter *)

(** [storage.get] after [storage.set] on the same key gives the value back
    (for a value whose objects have pairwise distinct keys), and a
    [storage.set] on one key leaves what [storage.get] reads under every
    other key. *)
Theorem storage_set_then_get :
  forall (env : Browser) (key : string) (v : json),
    window_defined env = true ->
    distinctKeys v ->
    storage_get key (storage_set key v env) = Return (Some v) /\
    (forall other, other <> key ->
        storage_get other (storage_set key v env) = storage_get other env).
Proof.
  intros env key v Hw Hdk. unfold storage_get, storage_set. rewrite Hw. cbn [negb].
  rewrite window_defined_setItem, Hw. cbn [negb]. split.
  - rewrite getItem_setItem, stringify_truthy, JSON_parse_stringify by exact Hdk.
    reflexivity.
  - intros other Hother. rewrite getItem_setItem_other by exact Hother. reflexivity.
Qed.

Lemma storage_set_then_get_witness :
  let env := browserWith STORAGE_KEYS_TAGS "[]" in
  let v := JObj [("theme", JStr "dark"); ("sizes", JArr [JNum 12; JNum 48])] in
  window_defined env = true /\ distinctKeys v /\
  storage_get "prefs" (storage_set "prefs" v env) = Return (Some v) /\
  storage_get STORAGE_KEYS_TAGS (storage_set "prefs" v env) = Return (Some (JArr [])).
Proof.
  intros env v.
  assert (H1 : window_defined env = true) by reflexivity.
  assert (H2 : distinctKeys v).
  { constructor.
    - simpl. repeat constructor; simpl; intuition discriminate.
    - repeat constructor. }
  split; [exact H1|]. split; [exact H2|].
  destruct (storage_set_then_get env "prefs" v H1 H2) as [Hget Hother].
  split; [exact Hget|].
  rewrite (Hother STORAGE_KEYS_TAGS); [reflexivity | discriminate].
Defined.

Lemma distinctKeys_folder (f : Folder.t) : distinctKeys (js_of_folder f).
Proof.
  unfold js_of_folder. constructor.
  - simpl. repeat constructor; simpl; intuition discriminate.
  - repeat constructor; simpl. destruct (Folder.parentId f); constructor.
Qed.

Lemma distinctKeys_tag (t : Tag.t) : distinctKeys (js_of_tag t).
Proof.
  unfold js_of_tag. destruct (Tag.color t); constructor; simpl;
    repeat constructor; simpl; intuition discriminate.
Qed.

Lemma distinctKeys_array {A : Type} (f : A -> json) (l : list A) :
  (forall a, distinctKeys (f a)) -> distinctKeys (JArr (map f l)).
Proof.
  intros H. constructor. apply Forall_map. apply Forall_forall. intros a _. apply H.
Qed.

Lemma folder_of_js_of_folder (f : Folder.t) : folder_of_js (js_of_folder f) = Some f.
Proof. destruct f as [i n p ca]. destruct p; reflexivity. Qed.

Lemma tag_of_js_of_tag (t : Tag.t) : tag_of_js (js_of_tag t) = Some t.
Proof. destruct t as [i n c]. destruct c; reflexivity. Qed.

Lemma getCollection_saved (key : string) (v : json) (env : Browser) :
  window_defined env = true ->
  distinctKeys v ->
  getItem key env = Some (JSON_stringify v) ->
  getCollection key env = Return v.
Proof.
  intros Hw Hdk Hitem. unfold getCollection. rewrite Hw, Hitem. cbn [negb].
  rewrite stringify_truthy. apply JSON_parse_stringify. exact Hdk.
Qed.

Lemma saveEffects_browser (st : Store) (env : Browser) :
  window_defined env = true ->
  saveEffects st env =
  setItem STORAGE_KEYS_TAGS (JSON_stringify (JArr (map js_of_tag (tags st))))
    (setItem STORAGE_KEYS_FOLDERS (JSON_stringify (JArr (map js_of_folder (folders st))))
       (setItem STORAGE_KEYS_NOTES (JSON_stringify (js_of_notes (notes st))) env)).
Proof.
  intros Hw. unfold saveEffects, saveNotes, saveFolders, saveTags.
  rewrite Hw. cbn [negb]. rewrite window_defined_setItem, Hw. cbn [negb].
  rewrite !window_defined_setItem, Hw. reflexivity.
Qed.

Lemma saveEffects_window (st : Store) (env : Browser) :
  window_defined (saveEffects st env) = window_defined env.
Proof.
  destruct (window_defined env) eqn:Hw.
  - rewrite saveEffects_browser by exact Hw. rewrite !window_defined_setItem. exact Hw.
  - unfold saveEffects. rewrite !Hw. reflexivity.
Qed.

Lemma saveEffects_items (st : Store) (env : Browser) :
  window_defined env = true ->
  getItem STORAGE_KEYS_NOTES (saveEffects st env)
    = Some (JSON_stringify (js_of_notes (notes st))) /\
  getItem STORAGE_KEYS_FOLDERS (saveEffects st env)
    = Some (JSON_stringify (JArr (map js_of_folder (folders st)))) /\
  getItem STORAGE_KEYS_TAGS (saveEffects st env)
    = Some (JSON_stringify (JArr (map js_of_tag (tags st)))) /\
  (forall key, key <> STORAGE_KEYS_NOTES -> key <> STORAGE_KEYS_FOLDERS ->
               key <> STORAGE_KEYS_TAGS ->
               getItem key (saveEffects st env) = getItem key env).
Proof.
  intros Hw. rewrite saveEffects_browser by exact Hw.
  split; [|split; [|split]].
  - rewrite !getItem_setItem_other by discriminate. apply getItem_setItem.
  - rewrite getItem_setItem_other by discriminate. apply getItem_setItem.
  - apply getItem_setItem.
  - intros key H1 H2 H3. rewrite !getItem_setItem_other by assumption. reflexivity.
Qed.

Lemma hydrate_saved (st st0 : Store) (env : Browser) :
  window_defined env = true ->
  getItem STORAGE_KEYS_NOTES env = Some (JSON_stringify (js_of_notes (notes st))) ->
  getItem STORAGE_KEYS_FOLDERS env
    = Some (JSON_stringify (JArr (map js_of_folder (folders st)))) ->
  getItem STORAGE_KEYS_TAGS env = Some (JSON_stringify (JArr (map js_of_tag (tags st)))) ->
  hydrate env st0
  = Return (mkStore (notes st) (folders st) (tags st)
                    (selectedNoteId st0) (selectedFolderId st0)).
Proof.
  intros Hw Hn Hf Ht. unfold hydrate, getNotes, getFolders, getTags. rewrite Hw.
  rewrite (getCollection_saved _ _ _ Hw (distinctKeys_notes (notes st)) Hn).
  rewrite (getCollection_saved _ _ _ Hw
             (distinctKeys_array js_of_folder (folders st) distinctKeys_folder) Hf).
  rewrite (getCollection_saved _ _ _ Hw
             (distinctKeys_array js_of_tag (tags st) distinctKeys_tag) Ht).
  cbn [bind]. unfold typed.
  rewrite notes_of_js_of_notes.
  change (folders_of_js (JArr (map js_of_folder (folders st))))
    with (all_some folder_of_js (map js_of_folder (folders st))).
  rewrite (all_some_map js_of_folder folder_of_js _ folder_of_js_of_folder).
  change (tags_of_js (JArr (map js_of_tag (tags st))))
    with (all_some tag_of_js (map js_of_tag (tags st))).
  rewrite (all_some_map js_of_tag tag_of_js _ tag_of_js_of_tag).
  reflexivity.
Qed.

(** In a browser, what the save effects wrote is what a later mount loads:
    mounting the provider on the storage left by the save effects of a store
    yields that store's notes, folders and tags, with nothing selected, and
    leaves under the three keys the very texts it found. *)
Theorem mount_restores_saved_store :
  forall (st : Store) (env : Browser),
    window_defined env = true ->
    wellFormedStore st ->
    let saved := saveEffects st env in
    exists env',
      mount saved = Return (mkStore (notes st) (folders st) (tags st) None None, env') /\
      (forall key, getItem key env' = getItem key saved).
Proof.
  intros st env Hw _ saved. subst saved.
  remember (saveEffects st env) as saved eqn:Esaved.
  assert (Hws : window_defined saved = true).
  { rewrite Esaved, saveEffects_window. exact Hw. }
  destruct (saveEffects_items st env Hw) as [Hn [Hf [Ht _]]].
  rewrite <- Esaved in Hn, Hf, Ht.
  pose proof (hydrate_saved st emptyStore saved Hws Hn Hf Ht) as Hload.
  unfold mount. rewrite Hload. cbn [bind emptyStore selectedNoteId selectedFolderId].
  eexists. split; [reflexivity|].
  set (loaded := mkStore (notes st) (folders st) (tags st) None None).
  assert (Hw1 : window_defined (saveEffects emptyStore saved) = true).
  { rewrite saveEffects_window. exact Hws. }
  destruct (saveEffects_items loaded (saveEffects emptyStore saved) Hw1)
    as [Hn2 [Hf2 [Ht2 Hrest2]]].
  destruct (saveEffects_items emptyStore saved Hws) as [_ [_ [_ Hrest1]]].
  intros key.
  destruct (String.eqb_spec key STORAGE_KEYS_NOTES) as [->|H1];
    [rewrite Hn2, Hn; reflexivity|].
  destruct (String.eqb_spec key STORAGE_KEYS_FOLDERS) as [->|H2];
    [rewrite Hf2, Hf; reflexivity|].
  destruct (String.eqb_spec key STORAGE_KEYS_TAGS) as [->|H3];
    [rewrite Ht2, Ht; reflexivity|].
  rewrite Hrest2, Hrest1 by assumption. reflexivity.
Qed.

Lemma mount_restores_saved_store_witness :
  let st := mkStore [Note.make "8" "Essay" "<p>Hi</p>" (Some "7") ["work"] 8 9 18]
                    [Folder.make "7" "Drafts" None 7]
                    [Tag.make "3" "work" None; Tag.make "4" "home" (Some "red")]
                    (Some "8") (Some "7") in
  let env := mkBrowser true emptyStorage in
  window_defined env = true /\ wellFormedStore st /\
  exists env',
    mount (saveEffects st env)
    = Return (mkStore (notes st) (folders st) (tags st) None None, env') /\
    (forall key, getItem key env' = getItem key (saveEffects st env)).
Proof.
  intros st env.
  assert (H1 : window_defined env = true) by reflexivity.
  assert (H2 : wellFormedStore st).
  { split; repeat constructor; simpl; lia. }
  split; [exact H1|]. split; [exact H2|].
  exact (mount_restores_saved_store st env H1 H2).
Defined.

(** On a browser that holds nothing under the three keys (a first start),
    mounting yields the empty store and leaves an empty array under each
    key. *)
Theorem mount_on_first_start :
  forall (env : Browser),
    window_defined env = true ->
    getItem STORAGE_KEYS_NOTES env = None ->
    getItem STORAGE_KEYS_FOLDERS env = None ->
    getItem STORAGE_KEYS_TAGS env = None ->
    exists env',
      mount env = Return (emptyStore, env') /\
      getItem STORAGE_KEYS_NOTES env' = Some "[]" /\
      getItem STORAGE_KEYS_FOLDERS env' = Some "[]" /\
      getItem STORAGE_KEYS_TAGS env' = Some "[]" /\
      getNotes env' = Return (JArr []).
Proof.
  intros env Hw Hn Hf Ht.
  assert (Hload : hydrate env emptyStore = Return emptyStore).
  { unfold hydrate, getNotes, getFolders, getTags. rewrite Hw.
    rewrite !getCollection_absent by assumption. reflexivity. }
  unfold mount. rewrite Hload. cbn [bind]. eexists. split; [reflexivity|].
  assert (Hw1 : window_defined (saveEffects emptyStore env) = true).
  { rewrite saveEffects_window. exact Hw. }
  destruct (saveEffects_items emptyStore (saveEffects emptyStore env) Hw1)
    as [Hn2 [Hf2 [Ht2 _]]].
  split; [exact Hn2|]. split; [exact Hf2|]. split; [exact Ht2|].
  unfold getNotes, getCollection. rewrite saveEffects_window, Hw1, Hn2. reflexivity.
Qed.

Lemma mount_on_first_start_witness :
  let env := browserWith THEME_STORAGE_KEY "light" in
  window_defined env = true /\
  getItem STORAGE_KEYS_NOTES env = None /\
  exists env', mount env = Return (emptyStore, env') /\
               getItem STORAGE_KEYS_NOTES env' = Some "[]".
Proof.
  intros env.
  assert (H1 : window_defined env = true) by reflexivity.
  assert (H2 : getItem STORAGE_KEYS_NOTES env = None) by reflexivity.
  split; [exact H1|]. split; [exact H2|].
  destruct (mount_on_first_start env H1 H2 eq_refl eq_refl) as [env' [Hm [Hn _]]].
  exists env'. split; [exact Hm | exact Hn].
Defined.

(** * The theme *)

(** In a browser, the theme that the save effect stored is the initial
    theme of the next start, and so is a theme stored as the bare word
    [dark] or [light]. *)
Theorem theme_survives_restart :
  forall (env : Browser) (theme : Theme),
    window_defined env = true ->
    initialTheme (saveThemeEffect theme env) = Return theme /\
    initialTheme (saveThemeEffect (toggleTheme theme) (saveThemeEffect theme env))
    = Return (toggleTheme theme) /\
    initialTheme (setItem THEME_STORAGE_KEY (themeName theme) env) = Return theme.
Proof.
  intros env theme Hw.
  assert (Hsaved : forall t e, window_defined e = true ->
                     initialTheme (saveThemeEffect t e) = Return t).
  { intros t e He. unfold saveThemeEffect, storage_set. rewrite He. cbn [negb].
    unfold initialTheme, storage_get.
    rewrite window_defined_setItem, He. cbn [negb].
    rewrite getItem_setItem. destruct t; reflexivity. }
  split; [apply Hsaved; exact Hw|]. split.
  - apply Hsaved. unfold saveThemeEffect, storage_set. rewrite Hw. cbn [negb].
    rewrite window_defined_setItem. exact Hw.
  - unfold initialTheme, storage_get.
    rewrite window_defined_setItem, Hw. cbn [negb].
    rewrite !getItem_setItem. destruct theme; reflexivity.
Qed.

Lemma theme_survives_restart_witness :
  let env := browserWith THEME_STORAGE_KEY "{" in
  window_defined env = true /\
  initialTheme env = Return dark /\
  initialTheme (saveThemeEffect light env) = Return light.
Proof.
  intros env.
  assert (H : window_defined env = true) by reflexivity.
  split; [exact H|]. split; [reflexivity|].
  exact (proj1 (theme_survives_restart env light H)).
Defined.

(** The theme initialiser never lets the [SyntaxError] of [JSON.parse] out,
    whatever the storage holds, and its outcome is [dark] when [window] is
    undefined or nothing is stored under the theme key. *)
Theorem initialTheme_absorbs_parse_failure :
  forall (env : Browser),
    initialTheme env <> SyntaxError /\
    initialTheme env <> OutOfFuel /\
    (window_defined env = false -> initialTheme env = Return dark) /\
    (getItem THEME_STORAGE_KEY env = None -> initialTheme env = Return dark).
Proof.
  intros env. unfold initialTheme, storage_get.
  destruct (window_defined env); cbn [negb].
  2: { repeat split; discriminate. }
  destruct (getItem THEME_STORAGE_KEY env) as [data|].
  2: { repeat split; discriminate. }
  assert (Hplain :
    (if String.eqb data "dark" then Return dark
     else if String.eqb data "light" then Return light else Return dark)
    <> @SyntaxError Theme /\
    (if String.eqb data "dark" then Return dark
     else if String.eqb data "light" then Return light else Return dark)
    <> @OutOfFuel Theme).
  { destruct (String.eqb data "dark"); [split; discriminate|].
    destruct (String.eqb data "light"); split; discriminate. }
  destruct (truthy data).
  2: { repeat split; discriminate. }
  pose proof (JSON_parse_never_out_of_fuel data) as Hfuel.
  destruct (JSON_parse data) as [v| | |]; cbn [bind].
  - destruct v as [| | |s| |]; try (repeat split; discriminate).
    destruct (String.eqb s "dark"); [repeat split; discriminate|].
    destruct (String.eqb s "light"); repeat split; discriminate.
  - destruct Hplain as [H1 H2]. repeat split; (assumption || discriminate).
  - repeat split; discriminate.
  - contradiction.
Qed.

Lemma initialTheme_absorbs_parse_failure_witness :
  let env := mkBrowser false (fun _ => Some "{") in
  window_defined env = false /\ initialTheme env = Return dark /\
  getItem THEME_STORAGE_KEY (mkBrowser true emptyStorage) = None /\
  initialTheme (mkBrowser true emptyStorage) = Return dark.
Proof.
  intros env.
  assert (H1 : window_defined env = false) by reflexivity.
  assert (H2 : getItem THEME_STORAGE_KEY (mkBrowser true emptyStorage) = None)
    by reflexivity.
  split; [exact H1|].
  split; [exact (proj1 (proj2 (proj2 (initialTheme_absorbs_parse_failure env))) H1)|].
  split; [exact H2|].
  exact (proj2 (proj2 (proj2
           (initialTheme_absorbs_parse_failure (mkBrowser true emptyStorage)))) H2).
Defined.

(** * The editor *)

(** ** [trim] *)

Lemma trimEnd_cons (c : ascii) (s : string) :
  isWhiteSpace c = false -> trimEnd (String c s) = String c (trimEnd s).
Proof.
  intros Hc. simpl. rewrite Hc. destruct (trimEnd s); reflexivity.
Qed.

Lemma trimEnd_step (c : ascii) (s : string) :
  trimEnd (String c s) =
  match trimEnd s with
  | EmptyString => if isWhiteSpace c then EmptyString else String c EmptyString
  | String c' r => String c (String c' r)
  end.
Proof. reflexivity. Qed.

Lemma trimEnd_idempotent (s : string) : trimEnd (trimEnd s) = trimEnd s.
Proof.
  induction s as [|c s IH]; [reflexivity|].
  rewrite trimEnd_step. destruct (trimEnd s) as [|c' r] eqn:E.
  - destruct (isWhiteSpace c) eqn:Hc; [reflexivity|].
    simpl. rewrite Hc. reflexivity.
  - rewrite trimEnd_step, IH. reflexivity.
Qed.

Lemma trimStart_head (s : string) :
  trimStart s = EmptyString \/
  exists c s', trimStart s = String c s' /\ isWhiteSpace c = false.
Proof.
  induction s as [|c s IH]; [left; reflexivity|].
  simpl. destruct (isWhiteSpace c) eqn:Hc; [exact IH|].
  right. exists c, s. split; [reflexivity | exact Hc].
Qed.

Lemma trim_head (s : string) :
  trim s = EmptyString \/
  exists c s', trim s = String c s' /\ isWhiteSpace c = false.
Proof.
  unfold trim. destruct (trimStart_head s) as [->|[c [s' [-> Hc]]]];
    [left; reflexivity|].
  right. rewrite trimEnd_cons by exact Hc. exists c, (trimEnd s').
  split; [reflexivity | exact Hc].
Qed.

Lemma trim_idempotent (s : string) : trim (trim s) = trim s.
Proof.
  destruct (trim_head s) as [E|[c [s' [E Hc]]]].
  - rewrite E. reflexivity.
  - unfold trim at 1. rewrite E. simpl trimStart. rewrite Hc.
    rewrite <- E. unfold trim. apply trimEnd_idempotent.
Qed.

Lemma truthy_nonempty (s : string) : truthy s = true <-> s <> EmptyString.
Proof. destruct s; simpl; split; congruence. Qed.

(** ** Tags in the editor *)

Lemma createTag_returns_match (ts : list Tag.t) (name : string) (now : Z) (st : Store) :
  tags st = ts ->
  let r := createTag ts name now st in
  In (fst r) (tags (snd r)) /\ sameNameIgnoringCase name (fst r).
Proof.
  intros <-. unfold createTag.
  destruct (find (fun t => String.eqb (toLowerCase (Tag.name t)) (toLowerCase name))
                 (tags st)) as [T|] eqn:E; simpl.
  - apply find_some in E. destruct E as [Hin Heq]. apply String.eqb_eq in Heq.
    split; assumption.
  - split; [apply in_or_app; right; left; reflexivity | reflexivity].
Qed.

(** [handleAddTag] keeps the editor's tag list free of duplicates.  On an
    input that is not blank it asks the store for the tag of the trimmed
    name, which the store then holds under a name equal to it up to letter
    case, puts that stored name in the list unless it is there already,
    empties the input and closes it; on a blank input it changes neither the
    editor nor the store. *)
Theorem handleAddTag_keeps_tags_distinct :
  forall (now : Z) (ed : Editor.t) (st : Store),
    NoDup (Editor.noteTags ed) ->
    let r := addTag now ed st in
    NoDup (Editor.noteTags (fst r)) /\
    (trim (Editor.newTagName ed) <> EmptyString ->
       exists tag,
         In tag (tags (snd r)) /\
         sameNameIgnoringCase (trim (Editor.newTagName ed)) tag /\
         In (Tag.name tag) (Editor.noteTags (fst r)) /\
         (forall t, In t (Editor.noteTags ed) -> In t (Editor.noteTags (fst r))) /\
         Editor.newTagName (fst r) = EmptyString /\
         Editor.showTagInput (fst r) = false) /\
    (trim (Editor.newTagName ed) = EmptyString -> r = (ed, st)).
Proof.
  intros now ed st Hnd r. subst r. unfold addTag, handleAddTag.
  destruct (truthy (trim (Editor.newTagName ed))) eqn:Ht.
  - apply truthy_nonempty in Ht.
    pose proof (createTag_returns_match (tags st) (trim (Editor.newTagName ed)) now st
                  eq_refl) as Hc.
    destruct (createTag (tags st) (trim (Editor.newTagName ed)) now st) as [tag st'].
    simpl in Hc. destruct Hc as [Hin Hm]. simpl.
    destruct (existsb (String.eqb (Tag.name tag)) (Editor.noteTags ed)) eqn:Ex; simpl.
    + apply existsb_eqb_In in Ex.
      split; [exact Hnd|]. split; [|intros E; contradiction].
      intros _. exists tag. repeat split; try assumption. intros t Hin'. exact Hin'.
    + split; [|split; [|intros E; contradiction]].
      * apply NoDup_app; [exact Hnd | repeat constructor; intros [] |].
        intros x Hx [<-|[]]. apply existsb_eqb_In in Hx. congruence.
      * intros _. exists tag. repeat split; try assumption.
        -- apply in_or_app. right. left. reflexivity.
        -- intros t Hin'. apply in_or_app. left. exact Hin'.
  - split; [exact Hnd|]. split; [|reflexivity].
    intros Hne. apply truthy_nonempty in Hne. congruence.
Qed.

Lemma handleAddTag_keeps_tags_distinct_witness :
  let ed := Editor.make "Essay" 16 ["home"] "  work " true true false in
  let st := mkStore [] [] [Tag.make "3" "Work" None] None None in
  NoDup (Editor.noteTags ed) /\
  trim (Editor.newTagName ed) = "work" /\
  Editor.noteTags (fst (addTag 9 ed st)) = ["home"; "Work"] /\
  NoDup (Editor.noteTags (fst (addTag 9 ed st))).
Proof.
  intros ed st.
  assert (H : NoDup (Editor.noteTags ed)).
  { repeat constructor. intros []. }
  split; [exact H|]. split; [reflexivity|]. split; [reflexivity|].
  exact (proj1 (handleAddTag_keeps_tags_distinct 9 ed st H)).
Defined.

(** Removing the tag that [handleAddTag] has just put in the list gives the
    former list back, when the list held no duplicates and not that name. *)
Theorem handleRemoveTag_undoes_handleAddTag :
  forall (now : Z) (ed : Editor.t) (st : Store),
    trim (Editor.newTagName ed) <> EmptyString ->
    let r := addTag now ed st in
    let name := Tag.name (fst (createTag (tags st) (trim (Editor.newTagName ed)) now st)) in
    ~ In name (Editor.noteTags ed) ->
    Editor.noteTags (fst r) = Editor.noteTags ed ++ [name] /\
    Editor.noteTags (handleRemoveTag name (fst r)) = Editor.noteTags ed /\
    ~ In name (Editor.noteTags (handleRemoveTag name (fst r))).
Proof.
  intros now ed st Hne r name Hnotin. subst r name.
  unfold addTag, handleAddTag.
  apply truthy_nonempty in Hne. rewrite Hne.
  destruct (createTag (tags st) (trim (Editor.newTagName ed)) now st) as [tag st'].
  simpl in *.
  assert (Ex : existsb (String.eqb (Tag.name tag)) (Editor.noteTags ed) = false).
  { destruct (existsb (String.eqb (Tag.name tag)) (Editor.noteTags ed)) eqn:E;
      [|reflexivity]. apply existsb_eqb_In in E. contradiction. }
  rewrite Ex. simpl.
  assert (Hfilter : filter (fun t => negb (String.eqb t (Tag.name tag)))
                           (Editor.noteTags ed ++ [Tag.name tag])
                    = Editor.noteTags ed).
  { rewrite filter_app_last. rewrite String.eqb_refl. simpl. rewrite app_nil_r.
    apply filter_unchanged. intros t Ht.
    destruct (String.eqb t (Tag.name tag)) eqn:E; [|reflexivity].
    apply String.eqb_eq in E. subst t. contradiction. }
  split; [reflexivity|]. rewrite Hfilter. split; [reflexivity | exact Hnotin].
Qed.

Lemma handleRemoveTag_undoes_handleAddTag_witness :
  let ed := Editor.make "Essay" 16 ["home"] "idea" true true false in
  let st := mkStore [] [] [] None None in
  trim (Editor.newTagName ed) <> EmptyString /\
  ~ In "idea" (Editor.noteTags ed) /\
  Editor.noteTags (handleRemoveTag "idea" (fst (addTag 9 ed st))) = ["home"].
Proof.
  intros ed st.
  assert (H1 : trim (Editor.newTagName ed) <> EmptyString) by discriminate.
  assert (H2 : ~ In "idea" (Editor.noteTags ed)).
  { intros [E|[]]. discriminate E. }
  split; [exact H1|]. split; [exact H2|].
  exact (proj1 (proj2 (handleRemoveTag_undoes_handleAddTag 9 ed st H1 H2))).
Defined.


Lemma find_map_same {A : Type} (p : A -> bool) (g : A -> A) (l : list A) :
  (forall a, p (g a) = p a) -> find p (map g l) = option_map g (find p l).
Proof.
  intros H. induction l as [|a l IH]; simpl; [reflexivity|].
  rewrite H. destruct (p a); [reflexivity | exact IH].
Qed.

Lemma noteExists_find (st : Store) (sel : string) :
  noteExists st sel ->
  exists n, find (fun m => String.eqb (Note.id m) sel) (notes st) = Some n /\
            Note.id n = sel.
Proof.
  intros [n [Hin Hid]].
  destruct (find (fun m => String.eqb (Note.id m) sel) (notes st)) as [m|] eqn:E.
  - exists m. split; [reflexivity|]. apply find_some in E.
    apply String.eqb_eq. exact (proj2 E).
  - exfalso. apply (find_none _ _ E) in Hin. rewrite Hid, String.eqb_refl in Hin.
    discriminate.
Qed.

Lemma autoSaveTags_selected (ts : list string) (now : Z) (st : Store) (sel : string) :
  selectedNoteId st = Some sel -> sel <> EmptyString -> noteExists st sel ->
  autoSaveTags ts false now st = updateNote sel (onlyTags ts) now st.
Proof.
  intros Hsel Hne Hex. unfold autoSaveTags. rewrite Hsel.
  apply truthy_nonempty in Hne. rewrite Hne. cbn [negb].
  destruct (noteExists_find st sel Hex) as [n [-> _]]. reflexivity.
Qed.

Lemma autoSaveFontSize_selected (size now : Z) (st : Store) (sel : string) :
  selectedNoteId st = Some sel -> sel <> EmptyString -> noteExists st sel ->
  autoSaveFontSize size false now st = updateNote sel (onlyFontSize size) now st.
Proof.
  intros Hsel Hne Hex. unfold autoSaveFontSize. rewrite Hsel.
  apply truthy_nonempty in Hne. rewrite Hne. cbn [negb].
  destruct (noteExists_find st sel Hex) as [n [-> _]]. reflexivity.
Qed.



(** ** What the editor saves is what it loads *)

Lemma selectedNote_id (st : Store) (note : Note.t) :
  selectedNote st = Some note -> selectedNoteId st = Some (Note.id note).
Proof.
  unfold selectedNote. destruct (selectedNoteId st) as [sel|]; [|discriminate].
  intros H. apply find_some in H. destruct H as [_ H].
  apply String.eqb_eq in H. rewrite H. reflexivity.
Qed.

Lemma selectedNote_after_update (st : Store) (sel : string) (u : PartialNote.t) (now : Z) :
  selectedNoteId st = Some sel ->
  PartialNote.id u = None ->
  selectedNote (updateNote sel u now st)
  = option_map (fun n => withUpdatedAt (spreadNote n u) now) (selectedNote st).
Proof.
  intros Hsel Hu. unfold selectedNote.
  change (selectedNoteId (updateNote sel u now st)) with (selectedNoteId st).
  rewrite Hsel. unfold updateNote. simpl.
  rewrite find_map_same.
  - destruct (find (fun n => String.eqb (Note.id n) sel) (notes st)) as [n|] eqn:E;
      [|reflexivity].
    simpl. apply find_some in E. destruct E as [_ E]. rewrite E. reflexivity.
  - intros n. destruct (String.eqb (Note.id n) sel) eqn:E; [|exact E].
    simpl. rewrite Hu. simpl. exact E.
Qed.

(** With a note selected, once the auto-save effects have stored the
    editor's font size and tag list, the initialisation effect reads the
    same font size and the same tag list back from the store and raises the
    initialising flag.  With no selected note in the store it resets the
    title to the empty text, the font size to 16 and the tag list to the
    empty list. *)
Theorem editor_reloads_what_it_saved :
  forall (ed : Editor.t) (st : Store),
    (forall sel now1 now2,
        selectedNoteId st = Some sel ->
        sel <> EmptyString ->
        noteExists st sel ->
        let st1 := autoSaveFontSize (Editor.fontSize ed) false now1 st in
        let st2 := autoSaveTags (Editor.noteTags ed) false now2 st1 in
        let ed' := initializeEditor st2 ed in
        Editor.fontSize ed' = Editor.fontSize ed /\
        Editor.noteTags ed' = Editor.noteTags ed /\
        Editor.isInitializing ed' = true) /\
    (selectedNote st = None ->
        Editor.title (initializeEditor st ed) = EmptyString /\
        Editor.fontSize (initializeEditor st ed) = DEFAULT_FONT_SIZE /\
        Editor.noteTags (initializeEditor st ed) = [] /\
        Editor.isInitializing (initializeEditor st ed) = Editor.isInitializing ed).
Proof.
  intros ed st. split.
  - intros sel now1 now2 Hsel Hne Hex st1 st2 ed'. subst ed' st2 st1.
    rewrite (autoSaveFontSize_selected _ now1 st sel Hsel Hne Hex).
    assert (Hex1 : noteExists (updateNote sel (onlyFontSize (Editor.fontSize ed)) now1 st) sel).
    { destruct Hex as [n [Hin Hid]].
      exists (withUpdatedAt (spreadNote n (onlyFontSize (Editor.fontSize ed))) now1).
      split; [|exact Hid]. unfold updateNote. simpl. apply in_map_iff. exists n.
      rewrite Hid, String.eqb_refl. split; [reflexivity | exact Hin]. }
    rewrite (autoSaveTags_selected (Editor.noteTags ed) now2
               (updateNote sel (onlyFontSize (Editor.fontSize ed)) now1 st) sel
               Hsel Hne Hex1).
    unfold initializeEditor.
    rewrite selectedNote_after_update by (exact Hsel || reflexivity).
    rewrite selectedNote_after_update by (exact Hsel || reflexivity).
    unfold selectedNote. rewrite Hsel.
    destruct (noteExists_find st sel Hex) as [n [-> _]].
    simpl. repeat split.
  - intros Hnone. unfold initializeEditor. rewrite Hnone. repeat split.
Qed.

Lemma editor_reloads_what_it_saved_witness :
  let a := Note.make "8" "Essay" "" None ["home"] 8 9 16 in
  let st := mkStore [a] [] [] (Some "8") None in
  let ed := Editor.make "Essay" 20 ["home"; "work"] "" false true false in
  (selectedNoteId st = Some "8" /\ "8" <> EmptyString /\ noteExists st "8") /\
  Editor.fontSize
    (initializeEditor
       (autoSaveTags (Editor.noteTags ed) false 11
          (autoSaveFontSize (Editor.fontSize ed) false 10 st)) ed) = 20 /\
  selectedNote emptyStore = None /\
  Editor.fontSize (initializeEditor emptyStore ed) = 16.
Proof.
  intros a st ed.
  assert (H1 : selectedNoteId st = Some "8") by reflexivity.
  assert (H2 : "8" <> EmptyString) by discriminate.
  assert (H3 : noteExists st "8").
  { exists a. split; [left; reflexivity | reflexivity]. }
  assert (H4 : selectedNote emptyStore = None) by reflexivity.
  split; [repeat split; assumption|].
  split; [exact (proj1 (proj1 (editor_reloads_what_it_saved ed st) "8" 10 11 H1 H2 H3))|].
  split; [exact H4|].
  exact (proj1 (proj2 (proj2 (editor_reloads_what_it_saved ed emptyStore) H4))).
Defined.

(** ** The font size after any run of clicks *)

Lemma handleFontSizeChange_in_range (delta prev : Z) :
  MIN_FONT_SIZE <= handleFontSizeChange delta prev <= MAX_FONT_SIZE.
Proof. unfold handleFontSizeChange, MIN_FONT_SIZE, MAX_FONT_SIZE. lia. Qed.

(** Whatever the size buttons add or subtract and however often, the font
    size of the editor is within [12, 48] after the first click, and stays
    there when it started there. *)
Theorem fontSize_stays_in_range :
  forall (deltas : list Z) (start : Z),
    deltas <> [] \/ MIN_FONT_SIZE <= start <= MAX_FONT_SIZE ->
    MIN_FONT_SIZE <= fontSizeAfter deltas start <= MAX_FONT_SIZE.
Proof.
  assert (Hkeep : forall deltas start,
             MIN_FONT_SIZE <= start <= MAX_FONT_SIZE ->
             MIN_FONT_SIZE <= fontSizeAfter deltas start <= MAX_FONT_SIZE).
  { induction deltas as [|d deltas IH]; intros start Hs; [exact Hs|].
    apply (IH (handleFontSizeChange d start)). apply handleFontSizeChange_in_range. }
  intros deltas start [Hne|Hs]; [|apply Hkeep; exact Hs].
  destruct deltas as [|d deltas]; [contradiction|].
  apply (Hkeep deltas (handleFontSizeChange d start)).
  apply handleFontSizeChange_in_range.
Qed.

Lemma fontSize_stays_in_range_witness :
  [2; 2; -2] <> [] /\
  fontSizeAfter [2; 2; -2] 47 = 46 /\
  MIN_FONT_SIZE <= fontSizeAfter [2; 2; -2] 1000 <= MAX_FONT_SIZE.
Proof.
  assert (H : [2; 2; -2] <> []) by discriminate.
  split; [exact H|]. split; [reflexivity|].
  exact (fontSize_stays_in_range [2; 2; -2] 1000 (or_introl H)).
Defined.

(** ** Deleting the selected note through the dialog *)

(** [handleDeleteNote] opens no dialog when no note of the store is
    selected.  Otherwise it opens one; confirming it closes it, removes the
    notes of the id that was selected when it opened and leaves no note
    selected, whatever the store has become meanwhile; cancelling it closes
    it and leaves the store alone; and a closed dialog confirms nothing. *)
Theorem delete_dialog_confirm_and_cancel :
  forall (st : Store) (d : DialogState),
    (selectedNote st = None -> handleDeleteNote st d = d) /\
    (forall note, selectedNote st = Some note ->
       forall st2 : Store,
         let opened := handleDeleteNote st d in
         let confirmed := handleConfirm opened st2 in
         fst confirmed = None /\
         notes (snd confirmed)
           = filter (fun n => negb (String.eqb (Note.id n) (Note.id note))) (notes st2) /\
         folders (snd confirmed) = folders st2 /\
         tags (snd confirmed) = tags st2 /\
         selectedNoteId (snd confirmed) = None /\
         handleCancel opened st2 = (None, st2) /\
         handleConfirm (fst confirmed) (snd confirmed) = confirmed).
Proof.
  intros st d. split.
  - intros H. unfold handleDeleteNote. rewrite H. reflexivity.
  - intros note Hnote st2 opened confirmed. subst confirmed opened.
    unfold handleDeleteNote. rewrite Hnote. unfold showDialog. simpl.
    rewrite notes_deleteNote, folders_deleteNote, tags_deleteNote.
    rewrite (selectedNote_id st note Hnote).
    unfold deleteNote. simpl. rewrite String.eqb_refl. simpl.
    repeat split.
Qed.

Lemma delete_dialog_confirm_and_cancel_witness :
  let a := Note.make "8" "Essay" "" None [] 8 9 16 in
  let b := Note.make "9" "Todo" "" None [] 9 9 16 in
  let st := mkStore [a; b] [] [] (Some "9") None in
  selectedNote st = Some b /\
  selectedNote emptyStore = None /\
  handleDeleteNote emptyStore None = None /\
  notes (snd (handleConfirm (handleDeleteNote st None) st)) = [a] /\
  selectedNoteId (snd (handleConfirm (handleDeleteNote st None) st)) = None.
Proof.
  intros a b st.
  assert (H1 : selectedNote st = Some b) by reflexivity.
  assert (H2 : selectedNote emptyStore = None) by reflexivity.
  split; [exact H1|]. split; [exact H2|].
  split; [exact (proj1 (delete_dialog_confirm_and_cancel emptyStore None) H2)|].
  destruct (proj2 (delete_dialog_confirm_and_cancel st None) b H1 st)
    as [_ [Hn [_ [_ [Hs _]]]]].
  split; [exact Hn | exact Hs].
Defined.

(** * The sidebar *)

(** ** The preview of a note *)

Lemma chars_append (a b : string) :
  list_ascii_of_string (a ++ b)%string
  = list_ascii_of_string a ++ list_ascii_of_string b.
Proof. induction a as [|c a IH]; simpl; [reflexivity | rewrite IH; reflexivity]. Qed.

Lemma chars_trimStart (c : ascii) (s : string) :
  In c (list_ascii_of_string (trimStart s)) -> In c (list_ascii_of_string s).
Proof.
  induction s as [|x s IH]; simpl; [tauto|].
  destruct (isWhiteSpace x); [intros H; right; exact (IH H) | simpl; tauto].
Qed.

Lemma chars_trimEnd (c : ascii) (s : string) :
  In c (list_ascii_of_string (trimEnd s)) -> In c (list_ascii_of_string s).
Proof.
  induction s as [|x s IH]; [simpl; tauto|].
  rewrite trimEnd_step. destruct (trimEnd s) as [|y r].
  - destruct (isWhiteSpace x); simpl; tauto.
  - simpl. simpl in IH. tauto.
Qed.

Lemma chars_trim (c : ascii) (s : string) :
  In c (list_ascii_of_string (trim s)) -> In c (list_ascii_of_string s).
Proof. intros H. apply chars_trimStart, chars_trimEnd. exact H. Qed.

Lemma chars_substring (c : ascii) (s : string) :
  forall n m, In c (list_ascii_of_string (String.substring n m s)) ->
              In c (list_ascii_of_string s).
Proof.
  induction s as [|x s IH]; intros n m.
  - destruct n, m; simpl; tauto.
  - destruct n as [|n].
    + destruct m as [|m]; simpl; [tauto|].
      intros [H|H]; [left; exact H | right; exact (IH 0%nat m H)].
    + simpl. intros H. right. exact (IH n m H).
Qed.

Lemma length_substring_prefix (s : string) :
  forall m, (m <= String.length s)%nat ->
            String.length (String.substring 0 m s) = m.
Proof.
  induction s as [|x s IH]; intros m Hm.
  - simpl in Hm. destruct m; [reflexivity | lia].
  - destruct m as [|m]; [reflexivity|].
    simpl. rewrite IH by (simpl in Hm; lia). reflexivity.
Qed.

Lemma replaceNewlines_no_line_feed (s : string) :
  ~ In LINE_FEED (list_ascii_of_string (replaceNewlines s)).
Proof.
  induction s as [|x s IH]; simpl; [tauto|].
  intros [H|H]; [|exact (IH H)].
  unfold LINE_FEED in H. change (ascii_of_pos 10) with (ascii_of_N 10) in H.
  destruct (Ascii.eqb x (ascii_of_N 10)) eqn:E.
  - vm_compute in H. discriminate H.
  - apply Ascii.eqb_neq in E. apply E. exact H.
Qed.

(** Whatever the content of a note, its preview has between 1 and 53
    characters and no line feed among them; content that is blank once the
    line feeds are spaces previews as "No content", and any other content of
    at most 50 characters between its outer white space previews as those
    characters. *)
Theorem getNotePreview_is_one_short_line :
  forall content : string,
    (1 <= String.length (getNotePreview content) <= 53)%nat /\
    ~ In LINE_FEED (list_ascii_of_string (getNotePreview content)) /\
    (trim (replaceNewlines content) = EmptyString ->
       getNotePreview content = "No content") /\
    (trim (replaceNewlines content) <> EmptyString ->
     (String.length (trim (replaceNewlines content)) <= 50)%nat ->
       getNotePreview content = trim (replaceNewlines content)).
Proof.
  intros content. unfold getNotePreview.
  remember (trim (replaceNewlines content)) as text eqn:Etext. cbv zeta.
  assert (Hlf : ~ In LINE_FEED (list_ascii_of_string text)).
  { intros H. rewrite Etext in H. apply chars_trim in H.
    exact (replaceNewlines_no_line_feed content H). }
  destruct (50 <? String.length text)%nat eqn:Elen.
  - apply Nat.ltb_lt in Elen. repeat split.
    + rewrite length_append. simpl String.length at 2. lia.
    + rewrite length_append, length_substring_prefix by lia. simpl. lia.
    + rewrite chars_append. intros H. apply in_app_or in H. destruct H as [H|H].
      * apply chars_substring in H. exact (Hlf H).
      * simpl in H. unfold LINE_FEED in H.
        destruct H as [H|[H|[H|[]]]]; discriminate H.
    + intros E. rewrite E in Elen. simpl in Elen. lia.
    + intros _ Hle. lia.
  - apply Nat.ltb_ge in Elen. destruct text as [|c text].
    + simpl. repeat split; try lia.
      * unfold LINE_FEED. intros H.
        repeat (destruct H as [H|H]; [discriminate H|]). exact H.
      * intros H. contradiction H. reflexivity.
    + simpl truthy. cbv iota. repeat split; try (simpl in *; lia).
      * exact Hlf.
      * intros H. discriminate H.
Qed.

Lemma getNotePreview_is_one_short_line_witness :
  let content := String LINE_FEED "  Dear reader," in
  (trim (replaceNewlines content) <> EmptyString /\
   (String.length (trim (replaceNewlines content)) <= 50)%nat) /\
  getNotePreview content = "Dear reader," /\
  trim (replaceNewlines (String LINE_FEED " ")) = EmptyString /\
  getNotePreview (String LINE_FEED " ") = "No content".
Proof.
  intros content.
  assert (H1 : trim (replaceNewlines content) <> EmptyString) by discriminate.
  assert (H2 : (String.length (trim (replaceNewlines content)) <= 50)%nat)
    by (vm_compute; lia).
  assert (H3 : trim (replaceNewlines (String LINE_FEED " ")) = EmptyString)
    by reflexivity.
  split; [split; assumption|].
  split.
  - exact (proj2 (proj2 (proj2 (getNotePreview_is_one_short_line content))) H1 H2).
  - split; [exact H3|].
    exact (proj1 (proj2 (proj2 (getNotePreview_is_one_short_line (String LINE_FEED " ")))) H3).
Defined.

(** ** Naming a folder *)

(** After [handleFolderNameSubmit], no folder of the submitted id has a
    blank name or a name with white space around it: such a folder has the
    trimmed text of the input as its name, and there is none left when that
    text is empty.  The folders of other ids are the ones there were, and
    the input is closed. *)
Theorem handleFolderNameSubmit_stores_a_trimmed_name :
  forall (typed : string) (sel : option string) (folderId : string)
         (sb : Sidebar.t) (st : Store),
    let after := handleFolderNameSubmit typed sel folderId sb st in
    (forall f, In f (folders (snd after)) -> Folder.id f = folderId ->
       Folder.name f = trim typed /\
       trim (Folder.name f) = Folder.name f /\
       Folder.name f <> EmptyString) /\
    (forall f, Folder.id f <> folderId ->
       (In f (folders (snd after)) <-> In f (folders st))) /\
    Sidebar.editingFolderId (fst after) = None /\
    Sidebar.editingFolderName (fst after) = EmptyString.
Proof.
  intros typed sel folderId sb st after. subst after.
  unfold handleFolderNameSubmit. cbn [fst snd].
  destruct (truthy (trim typed)) eqn:Et.
  - split; [|split; [|split; reflexivity]].
    + intros f Hin Hid. unfold updateFolder in Hin. simpl in Hin.
      apply in_map_iff in Hin. destruct Hin as [g [Hg Hin]].
      destruct (String.eqb (Folder.id g) folderId) eqn:Eg.
      * subst f. simpl. split; [reflexivity|].
        split; [apply trim_idempotent | apply truthy_nonempty; exact Et].
      * subst f. apply String.eqb_neq in Eg. contradiction.
    + intros f Hid. unfold updateFolder. simpl. rewrite in_map_iff. split.
      * intros [g [Hg Hin]].
        destruct (String.eqb (Folder.id g) folderId) eqn:Eg.
        -- subst f. simpl in Hid. apply String.eqb_eq in Eg. contradiction.
        -- subst f. exact Hin.
      * intros Hin. exists f. split; [|exact Hin].
        apply String.eqb_neq in Hid. rewrite Hid. reflexivity.
  - split; [|split; [|split; reflexivity]].
    + intros f Hin Hid. rewrite folders_deleteFolder in Hin.
      apply filter_In in Hin. destruct Hin as [_ Hin].
      rewrite Hid, String.eqb_refl in Hin. discriminate Hin.
    + intros f Hid. rewrite folders_deleteFolder, filter_In.
      apply String.eqb_neq in Hid. rewrite Hid. simpl. tauto.
Qed.

Lemma handleFolderNameSubmit_stores_a_trimmed_name_witness :
  let f := Folder.make "7" "New Folder" None 7 in
  let g := Folder.make "8" "Drafts" None 8 in
  let sb := Sidebar.make ["7"] false (Some "7") "  Letters " in
  let st := mkStore [] [f; g] [] None (Some "7") in
  let renamed := Folder.make "7" "Letters" None 7 in
  In renamed (folders (snd (handleFolderNameSubmit "  Letters " (Some "7") "7" sb st))) /\
  Folder.name renamed = trim "  Letters " /\
  Folder.id g <> "7" /\
  In g (folders (snd (handleFolderNameSubmit "   " (Some "7") "7" sb st))).
Proof.
  intros f g sb st renamed.
  assert (H1 : In renamed
                 (folders (snd (handleFolderNameSubmit "  Letters " (Some "7") "7" sb st))))
    by (left; reflexivity).
  assert (H2 : Folder.id g <> "7") by discriminate.
  assert (H3 : In g (folders st)) by (right; left; reflexivity).
  split; [exact H1|]. split.
  - exact (proj1 (proj1 (handleFolderNameSubmit_stores_a_trimmed_name
                           "  Letters " (Some "7") "7" sb st) renamed H1 eq_refl)).
  - split; [exact H2|].
    exact (proj2 (proj1 (proj2 (handleFolderNameSubmit_stores_a_trimmed_name
                                  "   " (Some "7") "7" sb st)) g H2) H3).
Defined.

(** ** A new folder *)

(** [handleNewFolderClick] adds a folder named "New Folder" with the
    selected folder as parent, selects it, expands it and opens the input on
    it; the list of root folders, the only folders the sidebar renders, has
    it exactly when no folder was selected. *)
Theorem new_folder_is_listed_only_at_root :
  forall (sel : option string) (t_id t_created : Z) (sb : Sidebar.t) (st : Store),
    let newFolder := Folder.make (toString t_id) "New Folder" sel t_created in
    let after := handleNewFolderClick sel t_id t_created sb st in
    folders (snd after) = folders st ++ [newFolder] /\
    selectedFolderId (snd after) = Some (toString t_id) /\
    Sidebar.editingFolderId (fst after) = Some (toString t_id) /\
    Set_has (toString t_id) (Sidebar.expandedFolders (fst after)) = true /\
    (In newFolder (rootFolders (snd after)) <-> sel = None).
Proof.
  intros sel t_id t_created sb st newFolder after. subst after newFolder.
  unfold handleNewFolderClick, createFolder. cbn [fst snd].
  split; [reflexivity|]. split; [reflexivity|]. split; [reflexivity|]. split.
  - cbn [Sidebar.expandedFolders Folder.id]. unfold Set_add.
    destruct (Set_has (toString t_id) (Sidebar.expandedFolders sb)) eqn:E; [exact E|].
    unfold Set_has. rewrite existsb_app. simpl. rewrite String.eqb_refl.
    rewrite Bool.orb_true_r. reflexivity.
  - unfold rootFolders. rewrite filter_In. split.
    + intros [_ H]. simpl in H. destruct sel; [discriminate H | reflexivity].
    + intros ->. split; [|reflexivity].
      simpl. apply in_or_app. right. left. reflexivity.
Qed.

Lemma new_folder_is_found (st : Store) (t_id t_created : Z) :
  ~ folderExists st (toString t_id) ->
  let newFolder := Folder.make (toString t_id) "New Folder" (selectedFolderId st) t_created in
  find (fun f => String.eqb (Folder.id f) (toString t_id)) (folders st ++ [newFolder])
  = Some newFolder /\
  filter (fun f => negb (String.eqb (Folder.id f) (toString t_id))) (folders st ++ [newFolder])
  = folders st.
Proof.
  intros Hfresh newFolder.
  assert (Hno : forall f, In f (folders st) ->
                          String.eqb (Folder.id f) (toString t_id) = false).
  { intros f Hf. apply String.eqb_neq. intros E. apply Hfresh. exists f. tauto. }
  split.
  - rewrite find_app_none.
    + simpl. rewrite String.eqb_refl. reflexivity.
    + destruct (find (fun f => String.eqb (Folder.id f) (toString t_id)) (folders st))
        as [f|] eqn:E; [|reflexivity].
      apply find_some in E. destruct E as [Hf E]. rewrite (Hno f Hf) in E.
      discriminate E.
  - rewrite filter_app_last. cbn [Folder.id newFolder]. rewrite String.eqb_refl.
    simpl. rewrite app_nil_r. apply filter_unchanged.
    intros f Hf. rewrite (Hno f Hf). reflexivity.
Qed.

(** Escape pressed right after [handleNewFolderClick], when the id of the
    new folder was not in use and every note was filed in a folder of the
    store, removes the new folder again and leaves notes, folders and tags
    as they were before the click; no folder is selected then, whichever
    was selected before, and the removed id stays among the expanded ones. *)
Theorem new_folder_cancelled :
  forall (t_id t_created : Z) (sb : Sidebar.t) (st : Store),
    ~ folderExists st (toString t_id) ->
    foldersResolve st ->
    let clicked := handleNewFolderClick (selectedFolderId st) t_id t_created sb st in
    let cancelled :=
      handleFolderNameCancel (folders (snd clicked)) (selectedFolderId (snd clicked))
                             (toString t_id) (fst clicked) (snd clicked) in
    notes (snd cancelled) = notes st /\
    folders (snd cancelled) = folders st /\
    tags (snd cancelled) = tags st /\
    selectedNoteId (snd cancelled) = selectedNoteId st /\
    selectedFolderId (snd cancelled) = None /\
    Sidebar.editingFolderId (fst cancelled) = None /\
    Set_has (toString t_id) (Sidebar.expandedFolders (fst cancelled)) = true.
Proof.
  intros t_id t_created sb st Hfresh Hres clicked cancelled.
  destruct (new_folder_is_found st t_id t_created Hfresh) as [Hfind Hfilter].
  subst cancelled clicked.
  unfold handleFolderNameCancel, handleNewFolderClick, createFolder. cbn [fst snd].
  change (folders (selectFolder _ (setFolders _ st)))
    with (folders st ++ [Folder.make (toString t_id) "New Folder" (selectedFolderId st) t_created]).
  rewrite Hfind. cbn [Folder.name]. rewrite String.eqb_refl.
  unfold deleteFolder. simpl. rewrite String.eqb_refl. simpl.
  rewrite Hfilter. repeat split.
  - apply map_unchanged. intros n Hn.
    destruct (nullable_eqb (Note.folderId n) (Some (toString t_id))) eqn:E; [|reflexivity].
    apply nullable_eqb_Some_true in E. exfalso. apply Hfresh.
    exact (Hres n (toString t_id) Hn E).
  - unfold Set_add.
    destruct (Set_has (toString t_id) (Sidebar.expandedFolders sb)) eqn:E; [exact E|].
    unfold Set_has. rewrite existsb_app. simpl. rewrite String.eqb_refl.
    rewrite Bool.orb_true_r. reflexivity.
Qed.

Lemma new_folder_cancelled_witness :
  let f := Folder.make "7" "Drafts" None 7 in
  let a := Note.make "8" "Essay" "" (Some "7") [] 8 9 16 in
  let sb := Sidebar.make [] true None EmptyString in
  let st := mkStore [a] [f] [] (Some "8") (Some "7") in
  let clicked := handleNewFolderClick (selectedFolderId st) 12 12 sb st in
  (~ folderExists st (toString 12) /\ foldersResolve st) /\
  selectedFolderId (snd clicked) = Some "12" /\
  folders (snd (handleFolderNameCancel (folders (snd clicked))
                  (selectedFolderId (snd clicked)) (toString 12)
                  (fst clicked) (snd clicked))) = [f] /\
  selectedFolderId (snd (handleFolderNameCancel (folders (snd clicked))
                           (selectedFolderId (snd clicked)) (toString 12)
                           (fst clicked) (snd clicked))) = None.
Proof.
  intros f a sb st clicked.
  assert (H1 : ~ folderExists st (toString 12)).
  { intros [g [[Hg|[]] Hid]]. subst g. discriminate Hid. }
  assert (H2 : foldersResolve st).
  { intros n g [Hn|[]] Hg. subst n. simpl in Hg. inversion Hg. subst g.
    exists f. split; [left; reflexivity | reflexivity]. }
  split; [split; assumption|]. split; [reflexivity|].
  destruct (new_folder_cancelled 12 12 sb st H1 H2) as [_ [Hf [_ [_ [Hs _]]]]].
  split; [exact Hf | exact Hs].
Defined.

(** ** Expanding and collapsing a folder *)

(** [toggleFolder] flips whether the folder of the id is expanded, leaves
    every other folder expanded or collapsed as it was, and keeps each id
    once in the set. *)
Theorem toggleFolder_flips_one_folder :
  forall (folderId other : string) (sb : Sidebar.t),
    let after := Sidebar.expandedFolders (toggleFolder folderId sb) in
    Set_has other after
    = (if String.eqb other folderId
       then negb (Set_has folderId (Sidebar.expandedFolders sb))
       else Set_has other (Sidebar.expandedFolders sb)) /\
    (NoDup (Sidebar.expandedFolders sb) -> NoDup after).
Proof.
  intros folderId other sb after. subst after. unfold toggleFolder.
  cbn [Sidebar.expandedFolders].
  destruct (Set_has folderId (Sidebar.expandedFolders sb)) eqn:Eh.
  - split.
    + unfold Set_delete, Set_has. destruct (String.eqb other folderId) eqn:E.
      * apply String.eqb_eq in E. subst other. apply existsb_filter_self.
      * apply String.eqb_neq in E. apply existsb_filter_other. exact E.
    + intros Hnd. unfold Set_delete. apply NoDup_filter. exact Hnd.
  - unfold Set_add. rewrite Eh. split.
    + unfold Set_has. rewrite existsb_app. simpl.
      destruct (String.eqb other folderId) eqn:E.
      * apply Bool.orb_true_r.
      * rewrite Bool.orb_false_r. reflexivity.
    + intros Hnd. apply NoDup_app.
      * exact Hnd.
      * constructor; [intros [] | constructor].
      * intros x Hx [Hy|[]]. subst x. apply existsb_eqb_In in Hx.
        unfold Set_has in Eh. rewrite Hx in Eh. discriminate Eh.
Qed.

Lemma toggleFolder_flips_one_folder_witness :
  let sb := Sidebar.make ["7"; "9"] false None EmptyString in
  NoDup (Sidebar.expandedFolders sb) /\
  Sidebar.expandedFolders (toggleFolder "7" sb) = ["9"] /\
  Sidebar.expandedFolders (toggleFolder "7" (toggleFolder "7" sb)) = ["9"; "7"] /\
  NoDup (Sidebar.expandedFolders (toggleFolder "8" sb)).
Proof.
  intros sb.
  assert (H : NoDup (Sidebar.expandedFolders sb)).
  { simpl. constructor.
    - intros [E|[]]. discriminate E.
    - constructor; [intros [] | constructor]. }
  split; [exact H|]. split; [reflexivity|]. split; [reflexivity|].
  exact (proj2 (toggleFolder_flips_one_folder "8" "8" sb) H).
Defined.

(** ** The notes the sidebar lists *)

Lemma withFolderId_root (n : Note.t) :
  Note.folderId n = None -> withFolderId n None = n.
Proof. destruct n as [i t c f ts ca ua fs]. simpl. intros ->. reflexivity. Qed.

(** A note made by [handleCreateNote] is selected and comes last in the
    list the sidebar shows, which is otherwise the list shown before,
    unless the selected folder has the empty text as id: the note is filed
    under that id then while the sidebar shows the root notes. *)
Theorem created_note_is_listed :
  forall (st : Store) (t_id t_created t_updated : Z),
    selectedFolderId st <> Some EmptyString ->
    let created := handleCreateNote (selectedFolderId st) t_id t_created t_updated st in
    notesToShow (snd created) = notesToShow st ++ [fst created] /\
    selectedNoteId (snd created) = Some (Note.id (fst created)) /\
    Note.folderId (fst created) = selectedFolderId st.
Proof.
  intros st t_id t_created t_updated Hsel created. subst created.
  unfold handleCreateNote, createNote. cbn [fst snd].
  split; [|split; reflexivity].
  unfold notesToShow, rootNotes, getNotesByFolder. simpl.
  destruct (selectedFolderId st) as [f|] eqn:E.
  - destruct f as [|c f]; [contradiction Hsel; reflexivity|].
    simpl truthy. cbv iota. rewrite filter_app_last. simpl.
    rewrite Ascii.eqb_refl, String.eqb_refl. reflexivity.
  - rewrite filter_app_last. reflexivity.
Qed.

Lemma created_note_is_listed_witness :
  let f := Folder.make "7" "Drafts" None 7 in
  let a := Note.make "8" "Essay" "" None [] 8 9 16 in
  let st := mkStore [a] [f] [] (Some "8") (Some "7") in
  selectedFolderId st <> Some EmptyString /\
  notesToShow st = [] /\
  notesToShow (snd (handleCreateNote (selectedFolderId st) 12 12 12 st))
  = [Note.make "12" "Untitled Note" "" (Some "7") [] 12 12 16].
Proof.
  intros f a st.
  assert (H : selectedFolderId st <> Some EmptyString) by discriminate.
  split; [exact H|]. split; [reflexivity|].
  exact (proj1 (created_note_is_listed st 12 12 12 H)).
Defined.

(** Filed under the empty text, the new note is missing from the list the
    sidebar shows. *)
Example created_note_under_empty_id_is_not_listed :
  let st := mkStore [] [] [] None (Some EmptyString) in
  notesToShow (snd (handleCreateNote (selectedFolderId st) 12 12 12 st)) = [].
Proof. reflexivity. Qed.

(** When the selected folder is deleted, every note the sidebar listed is
    still listed, now as a root note, and no folder is selected. *)
Theorem notes_of_deleted_folder_stay_listed :
  forall (st : Store) (id : string),
    selectedFolderId st = Some id ->
    let after := deleteFolder (selectedFolderId st) id st in
    selectedFolderId after = None /\
    forall n, In n (notesToShow st) -> In (withFolderId n None) (notesToShow after).
Proof.
  intros st id Hsel after. subst after. rewrite Hsel.
  assert (Hnone : selectedFolderId (deleteFolder (Some id) id st) = None).
  { unfold deleteFolder. simpl. rewrite String.eqb_refl. reflexivity. }
  split; [exact Hnone|].
  intros n Hn. unfold notesToShow at 1. rewrite Hnone.
  unfold rootNotes, getNotesByFolder. rewrite notes_deleteFolder.
  apply filter_In. split; [|reflexivity].
  apply in_map_iff.
  unfold notesToShow, rootNotes, getNotesByFolder in Hn. rewrite Hsel in Hn.
  destruct (truthy id).
  - apply filter_In in Hn. destruct Hn as [Hin Hf]. exists n.
    rewrite Hf. split; [reflexivity | exact Hin].
  - apply filter_In in Hn. destruct Hn as [Hin Hf]. exists n.
    apply nullable_eqb_eq in Hf. rewrite Hf. simpl.
    split; [symmetry; apply withFolderId_root; exact Hf | exact Hin].
Qed.

Lemma notes_of_deleted_folder_stay_listed_witness :
  let f := Folder.make "7" "Drafts" None 7 in
  let a := Note.make "8" "Essay" "" (Some "7") [] 8 9 16 in
  let b := Note.make "9" "Todo" "" None [] 9 9 16 in
  let st := mkStore [a; b] [f] [] None (Some "7") in
  selectedFolderId st = Some "7" /\
  In a (notesToShow st) /\
  In (withFolderId a None) (notesToShow (deleteFolder (selectedFolderId st) "7" st)).
Proof.
  intros f a b st.
  assert (H1 : selectedFolderId st = Some "7") by reflexivity.
  assert (H2 : In a (notesToShow st)) by (left; reflexivity).
  split; [exact H1|]. split; [exact H2|].
  exact (proj2 (notes_of_deleted_folder_stay_listed st "7" H1) a H2).
Defined.

(** * The page *)

Lemma drawer_invariant_step (app : App.t) (e : PageEvent) :
  (App.isSidebarOpen app = true -> App.isMobile app = true) ->
  App.isSidebarOpen (pageStep app e) = true -> App.isMobile (pageStep app e) = true.
Proof.
  intros Hinv. destruct app as [c m o]. simpl in Hinv.
  destruct e as [w| | |st]; simpl.
  - unfold checkMobile. simpl.
    destruct (768 <=? w) eqn:E; [discriminate|].
    intros _. apply Z.ltb_lt. apply Z.leb_gt in E. exact E.
  - unfold handleSidebarToggle. simpl. destruct m; simpl; [reflexivity | exact Hinv].
  - unfold handleSidebarClose. simpl. destruct m; simpl; [reflexivity | exact Hinv].
  - unfold closeOnSelect, handleSidebarClose. simpl.
    destruct (selectedNoteId st) as [sel|]; [|exact Hinv].
    destruct m; simpl; [|exact Hinv].
    destruct (truthy sel); simpl; reflexivity.
Qed.

Lemma drawer_invariant (events : list PageEvent) :
  forall app,
    (App.isSidebarOpen app = true -> App.isMobile app = true) ->
    App.isSidebarOpen (fold_left pageStep events app) = true ->
    App.isMobile (fold_left pageStep events app) = true.
Proof.
  induction events as [|e events IH]; intros app Hinv; [exact Hinv|].
  simpl. apply IH. apply drawer_invariant_step. exact Hinv.
Qed.

(** Whatever the width at the mount and whatever resizes, clicks and
    selections follow, the drawer is open only while the page is in its
    mobile layout, so that the overlay is shown exactly when the drawer is
    open; and once the window is resized to 768 pixels or more, the drawer
    is closed and the next click on the toggle flips the collapsed flag and
    leaves the drawer closed. *)
Theorem drawer_is_open_only_on_mobile :
  forall (innerWidth : Z) (events : list PageEvent),
    let app := pageAfter innerWidth events in
    overlayShown app = App.isSidebarOpen app /\
    forall w : Z, 768 <= w ->
      let resized := pageStep app (Resize w) in
      App.isMobile resized = false /\
      App.isSidebarOpen resized = false /\
      App.isSidebarOpen (pageStep resized ToggleClick) = false /\
      App.isSidebarCollapsed (pageStep resized ToggleClick)
      = negb (App.isSidebarCollapsed app).
Proof.
  intros innerWidth events app.
  assert (Hinv : App.isSidebarOpen app = true -> App.isMobile app = true).
  { subst app. unfold pageAfter. apply drawer_invariant.
    unfold checkMobile, initialApp. simpl.
    destruct (768 <=? innerWidth); discriminate. }
  split.
  - unfold overlayShown. destruct (App.isSidebarOpen app) eqn:Eo.
    + rewrite (Hinv eq_refl). reflexivity.
    + apply Bool.andb_false_r.
  - intros w Hw resized. subst resized. simpl. unfold checkMobile.
    assert (E1 : (w <? 768) = false) by (apply Z.ltb_ge; exact Hw).
    assert (E2 : (768 <=? w) = true) by (apply Z.leb_le; exact Hw).
    rewrite E1, E2. unfold handleSidebarToggle. simpl. repeat split.
Qed.

Lemma drawer_is_open_only_on_mobile_witness :
  let events := [ToggleClick; Resize 1024; ToggleClick] in
  768 <= 800 /\
  App.isSidebarOpen (pageAfter 400 [ToggleClick]) = true /\
  overlayShown (pageAfter 400 events) = false /\
  App.isSidebarCollapsed (pageStep (pageStep (pageAfter 400 events) (Resize 800)) ToggleClick)
  = false.
Proof.
  intros events.
  assert (H : 768 <= 800) by lia.
  split; [exact H|]. split; [reflexivity|]. split; [reflexivity|].
  destruct (proj2 (drawer_is_open_only_on_mobile 400 events) 800 H) as [_ [_ [_ Hc]]].
  exact Hc.
Defined.
